(** * Offers-and-asks matching engine: the edge functions and the vector search

    A shallow embedding of
      - supabase/functions/_shared/gemini.ts   (generateEmbedding, rerankMatches),
      - supabase/functions/search-by-request, search-by-offering and
        search-by-username (the three [Deno.serve] handlers),
      - the SQL functions match_offerings / match_requests of the schema,
      - supabase/functions/get-attendees and, of the front end, the scripts
        of components/SearchBar.vue and the header of
        components/ProfileCard.vue,
    together with the properties the specification states about them and
    further properties of the code.

    Conventions.  A JavaScript string is a [string] whose characters are its
    code units (the handlers only inspect ASCII punctuation and white space).
    A [number] that is a count or an id is a [Z] or a [nat]; similarity
    scores and distances are exact rationals ([Q]); embedding vectors are
    lists of IEEE binary64 numbers ([float]), and [generateEmbedding]
    computes on them as JavaScript does.  [null] and [undefined] are
    [None]. *)

From Stdlib Require Import List String Ascii Bool Arith ZArith QArith Qround Lia.
From Stdlib Require Import Sorting.Sorted.
From Stdlib Require Import Floats.
Import ListNotations.

Set Warnings "-register-all".

#[local] Close Scope Q_scope.
#[local] Open Scope nat_scope.
#[local] Open Scope string_scope.
#[local] Open Scope list_scope.

(* ================================================================== *)
(** ** The JavaScript string operations the handlers use *)
(* ================================================================== *)

Module JsString.

(** The white space [String.prototype.trim] and the regular expression
    [\s] agree on; below code unit 256 these are TAB, LF, VT, FF, CR,
    SPACE and NBSP. *)
Definition isSpace (c : ascii) : bool :=
  let n := nat_of_ascii c in
  (((9 <=? n) && (n <=? 13)) || (n =? 32) || (n =? 160))%nat.

Fixpoint trimStart (s : string) : string :=
  match s with
  | String c s' => if isSpace c then trimStart s' else s
  | EmptyString => EmptyString
  end.

(** [trimEnd] keeps a character when it is not white space or when
    something survives to its right. *)
Fixpoint trimEnd (s : string) : string :=
  match s with
  | String c s' =>
      match trimEnd s' with
      | EmptyString => if isSpace c then EmptyString else String c EmptyString
      | t => String c t
      end
  | EmptyString => EmptyString
  end.

Definition trim (s : string) : string := trimEnd (trimStart s).

Definition startsWith (s p : string) : bool := String.prefix p s.

(** [s.substring(n)]: the string without its first [n] code units. *)
Fixpoint substring (n : nat) (s : string) : string :=
  match n, s with
  | S k, String _ s' => substring k s'
  | _, _ => s
  end.

(** [s.split(sep)] for a non-empty separator.  [skip] counts the code
    units of a separator that has just been recognised and is still to be
    passed over; [cur] is the piece being collected. *)
Fixpoint split_from (sep : string) (skip : nat) (cur s : string) : list string :=
  match s with
  | EmptyString => [cur]
  | String c s' =>
      match skip with
      | S k => split_from sep k cur s'
      | O =>
          if String.prefix sep s
          then cur :: split_from sep (String.length sep - 1) "" s'
          else split_from sep 0 (cur ++ String c "") s'
      end
  end.

Definition split (s sep : string) : list string := split_from sep 0 "" s.

(** [parts.join(sep)] *)
Fixpoint join (sep : string) (parts : list string) : string :=
  match parts with
  | [] => ""
  | [p] => p
  | p :: rest => p ++ sep ++ join sep rest
  end.

(** [s.split(/\s+/)]: the maximal runs of white space separate the
    pieces; a run at either end leaves an empty piece there. *)
Fixpoint splitSpaces_from (inSpace : bool) (cur s : string) : list string :=
  match s with
  | EmptyString => [cur]
  | String c s' =>
      if isSpace c
      then if inSpace then splitSpaces_from true cur s'
           else cur :: splitSpaces_from true "" s'
      else splitSpaces_from false (cur ++ String c "") s'
  end.

Definition splitSpaces (s : string) : list string := splitSpaces_from false "" s.

End JsString.

(* ================================================================== *)
(** ** JavaScript values, as [JSON.parse] returns them *)
(* ================================================================== *)

Module Js.

(** A [number].  Every finite double is a rational; the two zeros are one
    [Finite 0], which no operation below tells apart. *)
Inductive number : Type :=
| Finite (q : Q)
| Infinite (negative : bool)
| NaN.

Inductive value : Type :=
| Null
| Bool (b : bool)
| Number (x : number)
| Str (s : string)
| Array (elems : list value)
| Object (fields : list (string * value)).

(** [x < y] and [x <= y]; a comparison with [NaN] is false. *)
Definition lt (x y : number) : bool :=
  match x, y with
  | NaN, _ | _, NaN => false
  | Infinite true, Infinite true => false
  | Infinite true, _ => true
  | _, Infinite true => false
  | Infinite false, _ => false
  | _, Infinite false => true
  | Finite a, Finite b => negb (Qle_bool b a)
  end.

Definition le (x y : number) : bool :=
  match x, y with
  | NaN, _ | _, NaN => false
  | Infinite true, _ => true
  | _, Infinite true => false
  | _, Infinite false => true
  | Infinite false, _ => false
  | Finite a, Finite b => Qle_bool a b
  end.

Definition ofZ (z : Z) : number := Finite (inject_Z z).
Definition ofNat (n : nat) : number := ofZ (Z.of_nat n).

Definition isDigit (c : ascii) : bool :=
  let n := nat_of_ascii c in ((48 <=? n) && (n <=? 57))%nat.

Fixpoint digitsValue (acc : nat) (s : string) : option nat :=
  match s with
  | EmptyString => Some acc
  | String c s' =>
      if isDigit c then digitsValue (10 * acc + (nat_of_ascii c - 48)) s' else None
  end.

(** A property name is an array index when it is the canonical decimal
    numeral of a natural number: digits only, and no leading zero unless
    it is ["0"] itself. *)
Definition arrayIndex (s : string) : option nat :=
  match s with
  | EmptyString => None
  | String c rest =>
      if (nat_of_ascii c =? 48)%nat && negb (String.eqb rest "") then None
      else digitsValue 0 s
  end.

(** [StringToNumber] on the numerals that matter here: an optionally signed
    run of digits, the empty string (0) and [Infinity].  A literal with a
    fraction, an exponent or a radix prefix is read as [NaN]: such a string
    is no array index, so an element of that shape is skipped by the second
    guard of the re-rank loop where JavaScript may skip it by the first. *)
Definition stringToNumber (s : string) : number :=
  let t := JsString.trim s in
  match t with
  | EmptyString => Finite 0
  | String c rest =>
      if String.eqb t "Infinity" || String.eqb t "+Infinity" then Infinite false
      else if String.eqb t "-Infinity" then Infinite true
      else if (nat_of_ascii c =? 45)%nat then
        match rest, digitsValue 0 rest with
        | String _ _, Some n => ofZ (- Z.of_nat n)
        | _, _ => NaN
        end
      else if (nat_of_ascii c =? 43)%nat then
        match rest, digitsValue 0 rest with
        | String _ _, Some n => ofNat n
        | _, _ => NaN
        end
      else match digitsValue 0 t with Some n => ofNat n | None => NaN end
  end.

(** [ToNumber], used by [<] and [>=].  An array converts through its
    string: [[]] is the empty string, [[e]] the string of [e] (empty for
    [null]), and two or more elements give a string with a comma. *)
Fixpoint toNumber (v : value) : number :=
  match v with
  | Null => Finite 0
  | Bool b => if b then Finite 1 else Finite 0
  | Number x => x
  | Str s => stringToNumber s
  | Array [] => Finite 0
  | Array [e] =>
      match e with
      | Null => Finite 0
      | Bool _ | Object _ => NaN
      | _ => toNumber e
      end
  | Array _ => NaN
  | Object _ => NaN
  end.

(** What [ToPropertyKey] yields, as far as an array cares: an index, or
    some other property name. *)
Inductive key : Type :=
| Index (i : nat)
| Named.

Definition isInteger (q : Q) : bool :=
  (Z.modulo (Qnum q) (Zpos (Qden q)) =? 0)%Z.

Fixpoint toPropertyKey (v : value) : key :=
  match v with
  | Number (Finite q) =>
      if isInteger q && (0 <=? Qfloor q)%Z then Index (Z.to_nat (Qfloor q)) else Named
  | Str s => match arrayIndex s with Some i => Index i | None => Named end
  | Array [e] => match e with Null => Named | _ => toPropertyKey e end
  | _ => Named
  end.

(** [xs[idx]] on an array of records.  [None] is [undefined]; a name that
    is no index is either absent or an inherited member of the array
    ([length], [map], ...), which is no record and carries no [attendee]:
    the loop skips both the same way. *)
Definition get {A : Type} (xs : list A) (idx : value) : option A :=
  match toPropertyKey idx with
  | Index i => nth_error xs i
  | Named => None
  end.

(** [xs.slice(0, k)] for an integral [k]: a negative [k] counts from the
    end. *)
Definition slice0 {A : Type} (xs : list A) (k : Z) : list A :=
  firstn (Z.to_nat (if (k <? 0)%Z then Z.of_nat (List.length xs) + k else k)%Z) xs.

(** A string is iterated code unit by code unit. *)
Fixpoint chars (s : string) : list value :=
  match s with
  | EmptyString => []
  | String c s' => Str (String c EmptyString) :: chars s'
  end.

End Js.

(* ================================================================== *)
(** ** Rows and records *)
(* ================================================================== *)

(** A row of the [attendees] table ([id] is its primary key; every other
    column may be NULL). *)
Module Attendee.
Record t : Type := mk {
  id : Z;
  first_name : option string;
  last_name : option string;
  company : option string;
  job_title : option string;
  country : option string;
  linkedin : option string;
  swapcard : option string;
  biography : option string
}.
End Attendee.

(** A row returned by match_offerings / match_requests. *)
Module Row.
Record t : Type := mk {
  attendee_id : option Z;
  text : string;
  similarity : Q
}.
End Row.

(** A candidate handed to the re-ranker: [{ ...match, attendee }]. *)
Module Match.
Record t : Type := mk {
  attendee_id : option Z;
  text : string;
  similarity : Q;
  attendee : option Attendee.t
}.
End Match.

(** An element of the list [rerankMatches] returns. *)
Module FinalMatch.
Record t : Type := mk {
  name : string;
  company : string;
  job_title : string;
  country : string;
  text : string;
  similarity_score : Q;
  linkedin : string;
  swapcard : string;
  biography : string
}.
End FinalMatch.

(** What a handler or a helper throws.  The wording of the engine's own
    [TypeError] and [SyntaxError] messages is not modelled. *)
Inductive Exn : Type :=
| Error (message : string)
| TypeError
| SyntaxError
| FetchRejected
| PostgrestError (message : string).

Definition message (e : Exn) : string :=
  match e with
  | Error m => m
  | TypeError => "TypeError"
  | SyntaxError => "SyntaxError"
  | FetchRejected => "fetch failed"
  | PostgrestError m => m
  end.

(** The completion of a computation: a value or a thrown exception. *)
Inductive Completion (A : Type) : Type :=
| Normal (a : A)
| Throw (e : Exn).
Arguments Normal {A} a.
Arguments Throw {A} e.

Definition andThen {A B : Type} (c : Completion A) (k : A -> Completion B) : Completion B :=
  match c with
  | Normal a => k a
  | Throw e => Throw e
  end.

(** What [fetch] followed by [response.json()] comes to. *)
Inductive Fetched (A : Type) : Type :=
| Rejected                                   (* fetch or json() rejects *)
| NoResponse                                 (* a falsy response *)
| HttpFailure (statusText errorText : string) (* !response.ok *)
| Json (data : option A).                    (* the parsed body; None is null *)
Arguments Rejected {A}.
Arguments NoResponse {A}.
Arguments HttpFailure {A} statusText errorText.
Arguments Json {A} data.

(** The body of an embedding response, as the interface of lines 11-13
    types it: [{ embedding: { values } }] with [values] an array of
    numbers; [None] when [embedding] or [embedding.values] is missing.  (A
    body in which [values] is something other than an array of numbers is
    outside the model.) *)
Record EmbeddingResponse : Type := { values : option (list float) }.

(** The body of a generative response, as the interface of lines 15-21
    types it: [{ candidates }]; a candidate is the text at
    [content.parts[0].text], a string, if that path exists.  (A body in
    which that [text] is no string is outside the model.) *)
Record GenerateResponse : Type := { candidates : option (list (option string)) }.

Module QueryType.
Inductive t : Type := request | offering.
End QueryType.

(** [`${x}`] and [x || ''] on a nullable text column. *)
Definition interpolate (x : option string) : string :=
  match x with Some s => s | None => "null" end.

Definition orEmpty (x : option string) : string :=
  match x with Some s => s | None => "" end.

(** [Math.round(x * 1000) / 1000] on the exact value of [x]; [Math.round]
    rounds halves up.  (The code multiplies and divides in binary64, so its
    third decimal can differ from this one when [x * 1000] is within a
    rounding error of a half.) *)
Definition round3 (x : Q) : Q :=
  (Qfloor (x * 1000 + (1 # 2))%Q # 1000)%Q.

(* ================================================================== *)
(** ** The database: tables, ILIKE, and the two search functions *)
(* ================================================================== *)

(** What a supabase-js call resolves to: [{ data, error }]. *)
Module Postgrest.
Record Result (A : Type) : Type := mk { data : option A; error : option string }.
Arguments mk {A} data error.
Arguments data {A} r.
Arguments error {A} r.
Definition ok {A : Type} (a : A) : Result A := mk (Some a) None.
Definition failed {A : Type} (msg : string) : Result A := mk None (Some msg).
End Postgrest.

(** A row of [offerings] or of [requests]. *)
Module Item.
Record t : Type := mk {
  id : Z;
  attendee_id : option Z;
  text : string;
  embedding : option (list float)
}.
End Item.

Inductive Collection : Type := Offerings | Requests.

Module Sql.

(** The tables, and the case folding of the database's locale: what ILIKE
    turns a character into before it compares (its lower case, in the
    locales in use). *)
Record Database : Type := {
  attendees : list Attendee.t;
  offerings : list Item.t;
  requests : list Item.t;
  folding : ascii -> ascii
}.

Definition table (db : Database) (c : Collection) : list Item.t :=
  match c with Offerings => offerings db | Requests => requests db end.

(** SQL's three-valued logic: [None] is NULL, and WHERE keeps a row only
    when its condition is true. *)
Definition or3 (a b : option bool) : option bool :=
  match a, b with
  | Some true, _ | _, Some true => Some true
  | Some false, Some false => Some false
  | _, _ => None
  end.

Definition and3 (a b : option bool) : option bool :=
  match a, b with
  | Some false, _ | _, Some false => Some false
  | Some true, Some true => Some true
  | _, _ => None
  end.

Definition isTrue (a : option bool) : bool :=
  match a with Some true => true | _ => false end.

Definition neq3 (a b : option Z) : option bool :=
  match a, b with
  | Some x, Some y => Some (negb (x =? y)%Z)
  | _, _ => None
  end.

Definition isNull {A : Type} (a : option A) : option bool :=
  match a with None => Some true | Some _ => Some false end.

(** *** LIKE and ILIKE *)

(** The folding of the C locale, and of every locale on ASCII text other
    than the Turkic ones: the letters A to Z are lowered, every other
    character is left as it is. *)
Definition lowerChar (c : ascii) : ascii :=
  let n := nat_of_ascii c in
  if ((65 <=? n) && (n <=? 90))%nat then ascii_of_nat (n + 32) else c.

Fixpoint lower (s : string) : string :=
  match s with
  | String c s' => String (lowerChar c) (lower s')
  | EmptyString => EmptyString
  end.

(** In a pattern [%] matches any run of characters, [_] any one character,
    and a backslash makes the character after it literal.  (PostgreSQL
    rejects a pattern that ends in a lone backslash; here such a pattern
    matches nothing.) *)
Definition percent : ascii := "%"%char.
Definition underscore : ascii := "_"%char.
Definition backslash : ascii := "\"%char.

Fixpoint like (pattern : string) : string -> bool :=
  match pattern with
  | EmptyString => fun t => match t with EmptyString => true | _ => false end
  | String c p =>
      if Ascii.eqb c percent then
        fix anySuffix (t : string) : bool :=
          like p t || match t with String _ t' => anySuffix t' | EmptyString => false end
      else if Ascii.eqb c underscore then
        fun t => match t with String _ t' => like p t' | EmptyString => false end
      else if Ascii.eqb c backslash then
        match p with
        | String e p' =>
            fun t => match t with
                     | String d t' => Ascii.eqb d e && like p' t'
                     | EmptyString => false
                     end
        | EmptyString => fun _ => false
        end
      else
        fun t => match t with
                 | String d t' => Ascii.eqb d c && like p t'
                 | EmptyString => false
                 end
  end.

(** A text as ILIKE compares it in the database [db]. *)
Fixpoint foldedBy (fold : ascii -> ascii) (s : string) : string :=
  match s with
  | String c s' => String (fold c) (foldedBy fold s')
  | EmptyString => EmptyString
  end.

Definition folded (db : Database) (s : string) : string := foldedBy (folding db) s.

(** [column ILIKE pattern]: LIKE on the folded pattern and the folded
    text; NULL when the column is. *)
Definition ilike (db : Database) (column : option string) (pattern : string) : option bool :=
  match column with
  | Some t => Some (like (folded db pattern) (folded db t))
  | None => None
  end.

(** *** The queries of the handlers

    Each is the SQL condition its filter stands for.  The filter syntax
    through which the client sends a pattern is not modelled: a pattern
    that holds one of its reserved characters (see [reservedInFilters]) is
    read differently there. *)

(** [.ilike('first_name', f).ilike('last_name', l).limit(k)] *)
Definition selectIlikeBoth (db : Database) (f l : string) (k : nat) : list Attendee.t :=
  firstn k (filter (fun a => isTrue (and3 (ilike db (Attendee.first_name a) f)
                                          (ilike db (Attendee.last_name a) l)))
                   (attendees db)).

(** [.or('first_name.ilike.' + f + ',last_name.ilike.' + l).limit(k)] *)
Definition selectIlikeEither (db : Database) (f l : string) (k : nat) : list Attendee.t :=
  firstn k (filter (fun a => isTrue (or3 (ilike db (Attendee.first_name a) f)
                                         (ilike db (Attendee.last_name a) l)))
                   (attendees db)).

(** [.from(c).select('text').eq('attendee_id', id)] *)
Definition selectTexts (db : Database) (c : Collection) (id : Z) : list string :=
  map Item.text
      (filter (fun it => match Item.attendee_id it with
                         | Some a => (a =? id)%Z
                         | None => false
                         end) (table db c)).

(** [.from('attendees').select('*').eq('id', id).single()]: an error unless
    exactly one row matches. *)
Definition selectSingle (db : Database) (id : option Z) : Postgrest.Result Attendee.t :=
  match id with
  | None => Postgrest.failed "invalid input syntax for type integer"
  | Some i =>
      match filter (fun a => (Attendee.id a =? i)%Z) (attendees db) with
      | [a] => Postgrest.ok a
      | _ => Postgrest.failed "JSON object requested, multiple (or no) rows returned"
      end
  end.

Section VectorSearch.

(** pgvector's [<=>], the cosine distance of two vectors. *)
Variable cosine_distance : list float -> list float -> Q.

(** A row that passed WHERE, with the distance ORDER BY sorts on. *)
Definition Scored : Type := (Q * Item.t)%type.

(** [1 - (embedding <=> query_embedding)]; NULL on a NULL embedding. *)
Definition similarityOf (query_embedding : list float) (it : Item.t) : option Q :=
  match Item.embedding it with
  | Some e => Some (1 - cosine_distance e query_embedding)%Q
  | None => None
  end.

Definition gt3 (a : option Q) (b : Q) : option bool :=
  match a with Some x => Some (negb (Qle_bool x b)) | None => None end.

(** The WHERE clause of lines 100-101 (and 128-129). *)
Definition whereClause (query_embedding : list float) (match_threshold : Q)
  (exclude_attendee_id : option Z) (it : Item.t) : option bool :=
  and3 (or3 (isNull exclude_attendee_id)
            (neq3 (Item.attendee_id it) exclude_attendee_id))
       (gt3 (similarityOf query_embedding it) match_threshold).

Definition score (query_embedding : list float) (it : Item.t) : list Scored :=
  match Item.embedding it with
  | Some e => [(cosine_distance e query_embedding, it)]
  | None => []
  end.

(** ORDER BY distance, ascending; rows at equal distance keep the order
    of the table. *)
Fixpoint insertByDistance (x : Scored) (sorted : list Scored) : list Scored :=
  match sorted with
  | [] => [x]
  | y :: rest =>
      if Qle_bool (fst y) (fst x) then y :: insertByDistance x rest
      else x :: sorted
  end.

Definition orderByDistance (rows : list Scored) : list Scored :=
  fold_left (fun sorted x => insertByDistance x sorted) rows [].

Definition project (r : Scored) : Row.t :=
  {| Row.attendee_id := Item.attendee_id (snd r);
     Row.text := Item.text (snd r);
     Row.similarity := (1 - fst r)%Q |}.

(** The body shared by match_offerings and match_requests, as the
    functions are written: filter, sort, limit.  LIMIT refuses a negative
    count.  (The schema also indexes the embeddings, lines 63-69; a planner
    that answers through such an index scans approximately, and can leave
    out rows that pass the filter or order ties otherwise.  What is proved
    of the search below are bounds on what it returns.) *)
Definition match_rows (rows : list Item.t) (query_embedding : list float)
  (match_threshold : Q) (match_count : Z) (exclude_attendee_id : option Z)
  : Postgrest.Result (list Row.t) :=
  if (match_count <? 0)%Z then Postgrest.failed "LIMIT must not be negative"
  else
    let kept := filter (fun it => isTrue (whereClause query_embedding match_threshold
                                                      exclude_attendee_id it)) rows in
    let ordered := orderByDistance (flat_map (score query_embedding) kept) in
    Postgrest.ok (map project (firstn (Z.to_nat match_count) ordered)).

Definition match_offerings (db : Database) := match_rows (offerings db).
Definition match_requests (db : Database) := match_rows (requests db).

End VectorSearch.

End Sql.

(* ================================================================== *)
(** ** The edge-function runtime: external calls and their trace *)
(* ================================================================== *)

(** An entry of [matchDescriptions] (gemini.ts, lines 164-171). *)
Module MatchDescription.
Record t : Type := mk {
  index : nat;
  attendee_id : option Z;
  name : string;
  company : option string;
  text : string;
  similarity_score : Q
}.
End MatchDescription.

(** The re-rank prompt of gemini.ts lines 173-209, by the values
    interpolated into it. *)
Module RerankPrompt.
Record t : Type := mk {
  queryType : QueryType.t;
  query : string;
  count : nat;
  topK : Z;
  candidates : list MatchDescription.t
}.
End RerankPrompt.

(** A call that leaves the function: to the embedding or the generative
    service, or to the database. *)
Inductive Event : Type :=
| EmbedContent (text : string)
| GenerateSynthetic (request : string)
| GenerateRerank (prompt : RerankPrompt.t)
| RpcMatch (c : Collection) (query_embedding : list float) (match_threshold : Q)
           (match_count : Z) (exclude_attendee_id : option Z)
| SelectIlikeBoth (first last : string)
| SelectIlikeEither (first last : string)
| SelectTexts (c : Collection) (attendee_id : Z)
| SelectSingle (id : option Z).

Definition isRerank (e : Event) : bool :=
  match e with GenerateRerank _ => true | _ => false end.

(** Everything outside the function.  The services answer as they please:
    their answer may depend on the moment of the call (the number of calls
    made before it) as well as on its argument.  The database holds fixed
    tables; [dbFault] lets any one call fail instead of answering. *)
Record World : Type := {
  JSON_parse : string -> option Js.value;
  cosine_distance : list float -> list float -> Q;
  db : Sql.Database;
  embedContent : nat -> string -> Fetched EmbeddingResponse;
  generateSynthetic : nat -> string -> Fetched GenerateResponse;
  generateRerank : nat -> RerankPrompt.t -> Fetched GenerateResponse;
  dbFault : nat -> option string
}.

(** A computation threads the trace of calls made so far and completes
    normally or by throwing. *)
Definition M (A : Type) : Type := list Event -> Completion A * list Event.

Definition ret {A : Type} (a : A) : M A := fun log => (Normal a, log).

Definition throw {A : Type} (e : Exn) : M A := fun log => (Throw e, log).

Definition bind {A B : Type} (m : M A) (k : A -> M B) : M B :=
  fun log =>
    match m log with
    | (Normal a, log') => k a log'
    | (Throw e, log') => (Throw e, log')
    end.

Definition catch {A : Type} (m : M A) (handler : Exn -> M A) : M A :=
  fun log =>
    match m log with
    | (Normal a, log') => (Normal a, log')
    | (Throw e, log') => handler e log'
    end.

Definition lift {A : Type} (c : Completion A) : M A := fun log => (c, log).

(** An external call: it is recorded, and answered by the world. *)
Definition call {A : Type} (ev : Event) (answer : nat -> A) : M A :=
  fun log => (Normal (answer (List.length log)), log ++ [ev]).

Declare Scope edge_scope.
Delimit Scope edge_scope with edge.
Notation "x <- c ;; k" := (bind c (fun x => k))
  (at level 61, c at next level, right associativity) : edge_scope.
#[local] Open Scope edge_scope.

(** [for (const x of xs) { acc = body(acc, x) }] *)
Fixpoint forEach {A S : Type} (xs : list A) (body : S -> A -> M S) (acc : S) : M S :=
  match xs with
  | [] => ret acc
  | x :: rest => acc' <- body acc x ;; forEach rest body acc'
  end.

(** [await Promise.all(xs.map(f))]; the callbacks are run in order. *)
Fixpoint mapAll {A B : Type} (f : A -> M B) (xs : list A) : M (list B) :=
  match xs with
  | [] => ret []
  | x :: rest => y <- f x ;; ys <- mapAll f rest ;; ret (y :: ys)
  end.

(** A database call: the rows the tables give, unless the call fails. *)
Definition query {A : Type} (w : World) (ev : Event) (answer : Postgrest.Result A)
  : M (Postgrest.Result A) :=
  call ev (fun n => match dbFault w n with
                    | Some e => Postgrest.failed e
                    | None => answer
                    end).

Definition rpc (w : World) (c : Collection) (query_embedding : list float)
  (match_threshold : Q) (match_count : Z) (exclude_attendee_id : option Z)
  : M (Postgrest.Result (list Row.t)) :=
  query w (RpcMatch c query_embedding match_threshold match_count exclude_attendee_id)
        (Sql.match_rows (cosine_distance w) (Sql.table (db w) c) query_embedding
                        match_threshold match_count exclude_attendee_id).

(* ================================================================== *)
(** ** _shared/gemini.ts *)
(* ================================================================== *)

(** The arithmetic of [number]: the operations the normalization of
    [generateEmbedding] uses, on IEEE binary64 as JavaScript runs them. *)
Module Arithmetic.
Record t (T : Type) : Type := mk {
  zero : T;
  add : T -> T -> T;
  mul : T -> T -> T;
  div : T -> T -> T;
  sqrt : T -> T
}.
Arguments zero {T} t.
Arguments add {T} t.
Arguments mul {T} t.
Arguments div {T} t.
Arguments sqrt {T} t.
Definition binary64 : t float :=
  mk float 0%float PrimFloat.add PrimFloat.mul PrimFloat.div PrimFloat.sqrt.
End Arithmetic.

Module Gemini.

(** *** generateEmbedding, lines 27-76 *)

(** Lines 74-75, over an arithmetic. *)
Definition sumOfSquaresOver {T : Type} (ar : Arithmetic.t T) (embedding : list T) : T :=
  fold_left (fun sum val => Arithmetic.add ar sum (Arithmetic.mul ar val val))
            embedding (Arithmetic.zero ar).

Definition l2normOver {T : Type} (ar : Arithmetic.t T) (embedding : list T) : T :=
  Arithmetic.sqrt ar (sumOfSquaresOver ar embedding).

Definition normalizeOver {T : Type} (ar : Arithmetic.t T) (embedding : list T) : list T :=
  let norm := l2normOver ar embedding in
  map (fun val => Arithmetic.div ar val norm) embedding.

(** As they run: on doubles. *)
Definition l2norm (embedding : list float) : float :=
  l2normOver Arithmetic.binary64 embedding.

(** Lines 44-76, on the response of the request of line 34.  (The
    messages of lines 62 and 69 end with [JSON.stringify(data)], which is
    left out, as it is in the other two helpers.) *)
Definition embeddingOfResponse (response : Fetched EmbeddingResponse)
  : Completion (list float) :=
  match response with
  | Rejected => Throw FetchRejected
  | NoResponse => Throw (Error "Gemini embedding: No response received from API")
  | HttpFailure statusText errorText =>
      Throw (Error ("Gemini embedding failed: " ++ statusText ++ " - " ++ errorText))
  | Json None =>
      Throw (Error "Gemini embedding: Response JSON parsing returned null/undefined")
  | Json (Some data) =>
      match values data with
      | None => Throw (Error "No embedding in response.")
      | Some [] => Throw (Error "Empty embedding values.")
      | Some embedding => Normal (normalizeOver Arithmetic.binary64 embedding)
      end
  end.

Definition generateEmbedding (w : World) (text : string) : M (list float) :=
  if String.eqb text "" then throw (Error "generateEmbedding: text parameter is required")
  else
    response <- call (EmbedContent text) (fun n => embedContent w n text) ;;
    lift (embeddingOfResponse response).

(** *** generateSyntheticOffering, lines 82-151 *)

Definition syntheticOfferingOfResponse (response : Fetched GenerateResponse)
  : Completion string :=
  match response with
  | Rejected => Throw FetchRejected
  | NoResponse => Throw (Error "Gemini LLM: No response received from API")
  | HttpFailure statusText errorText =>
      Throw (Error ("Gemini LLM failed: " ++ statusText ++ " - " ++ errorText))
  | Json None => Throw (Error "Gemini LLM: Response JSON parsing returned null/undefined")
  | Json (Some data) =>
      match candidates data with
      | None | Some [] => Throw (Error "No candidates in response.")
      | Some (None :: _) | Some (Some EmptyString :: _) =>
          Throw (Error "Invalid response structure.")
      | Some (Some text :: _) => Normal (JsString.trim text)
      end
  end.

Definition generateSyntheticOffering (w : World) (request : string) : M string :=
  if String.eqb request "" then
    throw (Error "generateSyntheticOffering: request parameter is required")
  else
    response <- call (GenerateSynthetic request) (fun n => generateSynthetic w n request) ;;
    lift (syntheticOfferingOfResponse response).

(** *** rerankMatches, lines 157-284 *)

(** Lines 164-171.  The callback reads [match.attendee.first_name]: on a
    match whose [attendee] is missing that is a property access on [null],
    a [TypeError]. *)
Fixpoint matchDescriptionsFrom (idx : nat) (matches : list Match.t)
  : Completion (list MatchDescription.t) :=
  match matches with
  | [] => Normal []
  | match_ :: rest =>
      match Match.attendee match_ with
      | None => Throw TypeError
      | Some a =>
          andThen (matchDescriptionsFrom (S idx) rest) (fun ds =>
          Normal (MatchDescription.mk idx (Match.attendee_id match_)
                    (interpolate (Attendee.first_name a) ++ " "
                     ++ interpolate (Attendee.last_name a))
                    (Attendee.company a) (Match.text match_)
                    (round3 (Match.similarity match_)) :: ds))
      end
  end.

Definition matchDescriptions (matches : list Match.t) : Completion (list MatchDescription.t) :=
  matchDescriptionsFrom 0 matches.

Definition fence : string := "```".

(** Lines 234-243: trim, then take what a markdown code fence encloses. *)
Definition cleanResultText (text : string) : Completion string :=
  let resultText := JsString.trim text in
  if JsString.startsWith resultText fence then
    match nth_error (JsString.split resultText fence) 1 with
    | None => Throw TypeError
    | Some inner =>
        let inner := if JsString.startsWith inner "json" then JsString.substring 4 inner
                     else inner in
        Normal (JsString.trim inner)
    end
  else Normal resultText.

(** Lines 270-280. *)
Definition finalResult (match_ : Match.t) (a : Attendee.t) : FinalMatch.t :=
  {| FinalMatch.name := interpolate (Attendee.first_name a) ++ " "
                        ++ interpolate (Attendee.last_name a);
     FinalMatch.company := orEmpty (Attendee.company a);
     FinalMatch.job_title := orEmpty (Attendee.job_title a);
     FinalMatch.country := orEmpty (Attendee.country a);
     FinalMatch.text := Match.text match_;
     FinalMatch.similarity_score := round3 (Match.similarity match_);
     FinalMatch.linkedin := orEmpty (Attendee.linkedin a);
     FinalMatch.swapcard := orEmpty (Attendee.swapcard a);
     FinalMatch.biography := orEmpty (Attendee.biography a) |}.

(** One turn of the loop of lines 250-281: [Some] is a push, [None] a
    [continue]. *)
Definition validate (matches : list Match.t) (idx : Js.value) : option FinalMatch.t :=
  if Js.lt (Js.toNumber idx) (Js.ofZ 0)
     || Js.le (Js.ofNat (List.length matches)) (Js.toNumber idx)
  then None
  else
    match Js.get matches idx with
    | None => None
    | Some match_ =>
        match Match.attendee match_ with
        | None => None
        | Some a => Some (finalResult match_ a)
        end
    end.

Definition pushValid (matches : list Match.t) (finalResults : list FinalMatch.t)
  (idx : Js.value) : list FinalMatch.t :=
  match validate matches idx with
  | Some r => finalResults ++ [r]
  | None => finalResults
  end.

(** Lines 245-283 on the value [JSON.parse] returned.  Only an array and
    a string have a [slice] and can be iterated; on any other value
    [topIndices.slice] is not a function. *)
Definition selectMatches (matches : list Match.t) (topK : Z) (topIndices : Js.value)
  : Completion (list FinalMatch.t) :=
  match topIndices with
  | Js.Array elems => Normal (fold_left (pushValid matches) (Js.slice0 elems topK) [])
  | Js.Str s => Normal (fold_left (pushValid matches) (Js.slice0 (Js.chars s) topK) [])
  | _ => Throw TypeError
  end.

(** Lines 221-283, on the response of the request of line 213. *)
Definition rerankResponse (parse : string -> option Js.value) (matches : list Match.t)
  (topK : Z) (response : Fetched GenerateResponse) : Completion (list FinalMatch.t) :=
  match response with
  | Rejected => Throw FetchRejected
  | NoResponse => Throw TypeError
  | HttpFailure statusText errorText =>
      Throw (Error ("Gemini re-ranking failed: " ++ statusText ++ " - " ++ errorText))
  | Json None => Throw TypeError
  | Json (Some data) =>
      match candidates data with
      | None | Some [] => Throw (Error "No candidates in re-ranking response.")
      | Some (None :: _) => Throw TypeError
      | Some (Some text :: _) =>
          andThen (cleanResultText text) (fun resultText =>
          match parse resultText with
          | None => Throw SyntaxError
          | Some topIndices => selectMatches matches topK topIndices
          end)
      end
  end.

Definition rerankMatches (w : World) (query : string) (queryType : QueryType.t)
  (matches : list Match.t) (topK : Z) : M (list FinalMatch.t) :=
  matchDescriptions <- lift (matchDescriptions matches) ;;
  let prompt := RerankPrompt.mk queryType query (List.length matches) topK
                                matchDescriptions in
  response <- call (GenerateRerank prompt) (fun n => generateRerank w n prompt) ;;
  lift (rerankResponse (JSON_parse w) matches topK response).

End Gemini.

(* ================================================================== *)
(** ** The three handlers *)
(* ================================================================== *)

(** The request as a handler reads it: a CORS preflight, a body on which
    [req.json()] or the destructuring of its result throws, or the value of
    the one property the handler destructures ([None] when it is absent). *)
Inductive Incoming : Type :=
| Options
| Unreadable (thrown : Exn)
| Post (field : option Js.value).

Inductive Response (A : Type) : Type :=
| Preflight                                  (* new Response('ok') *)
| Success (body : A)                         (* status 200 *)
| Failure (status : nat) (error : string).   (* { error } *)
Arguments Preflight {A}.
Arguments Success {A} body.
Arguments Failure {A} status error.

(** [{ query, matches }] *)
Module Flat.
Record t : Type := mk { query : string; matches : list FinalMatch.t }.
End Flat.

(** [{ your_request, matches }] and [{ your_offering, matches }] *)
Module Group.
Record t : Type := mk { yours : string; matches : list FinalMatch.t }.
End Group.

Module Summary.
Record t : Type := mk {
  name : string;
  company : option string;
  job_title : option string;
  country : option string
}.
End Summary.

Module Bidirectional.
Record t : Type := mk {
  attendee : Summary.t;
  people_who_can_help_you : list Group.t;
  people_you_can_help : list Group.t
}.
End Bidirectional.

Definition isEmpty {A : Type} (xs : option (list A)) : bool :=
  match xs with
  | None | Some [] => true
  | Some (_ :: _) => false
  end.

(** [xs.filter((x) => x !== null)] *)
Definition nonNull {A : Type} (xs : list (option A)) : list A :=
  flat_map (fun x => match x with Some a => [a] | None => [] end) xs.

Definition withAttendee (match_ : Row.t) (a : Attendee.t) : Match.t :=
  Match.mk (Row.attendee_id match_) (Row.text match_) (Row.similarity match_) (Some a).

(** The callback that looks a candidate's attendee up (search-by-request
    lines 81-111, search-by-offering 71-89, search-by-username 190-208 and
    261-279): [null] on an error or a missing row. *)
Definition lookupAttendee (w : World) (match_ : Row.t) : M (option Match.t) :=
  response <- query w (SelectSingle (Row.attendee_id match_))
                      (Sql.selectSingle (db w) (Row.attendee_id match_)) ;;
  match Postgrest.error response, Postgrest.data response with
  | Some _, _ => ret None
  | None, None => ret None
  | None, Some attendee => ret (Some (withAttendee match_ attendee))
  end.

Definition threshold : Q := (1 # 2)%Q.

(** *** search-by-request/index.ts

    (The client's [rpc] always resolves to an object, so the guard of
    lines 53-55 on a falsy [rpcResponse] has no case here.) *)
Definition search_by_request (w : World) (req : Incoming) : M (Response Flat.t) :=
  match req with
  | Options => ret Preflight
  | Unreadable thrown => ret (Failure 500 (message thrown))
  | Post field =>
      catch
        match field with
        | None | Some Js.Null | Some (Js.Str EmptyString) =>
            ret (Failure 400 "Request parameter is required and must be a string")
        | Some (Js.Str request) =>
            syntheticOffering <- Gemini.generateSyntheticOffering w request ;;
            queryEmbedding <- Gemini.generateEmbedding w syntheticOffering ;;
            rpcResponse <- rpc w Offerings queryEmbedding threshold 50 None ;;
            match Postgrest.error rpcResponse with
            | Some e => throw (PostgrestError e)
            | None =>
                if isEmpty (Postgrest.data rpcResponse) then
                  ret (Success (Flat.mk request []))
                else
                  let rawMatches := match Postgrest.data rpcResponse with
                                    | Some rows => rows | None => [] end in
                  matchesWithAttendees <-
                    mapAll (fun match_ => catch (lookupAttendee w match_)
                                                (fun _ => ret None)) rawMatches ;;
                  let validMatches := nonNull matchesWithAttendees in
                  finalMatches <- Gemini.rerankMatches w request QueryType.request
                                                       validMatches 25 ;;
                  ret (Success (Flat.mk request finalMatches))
            end
        | Some _ => throw TypeError      (* line 17: request.substring is not a function *)
        end
        (fun error => ret (Failure 500 (message error)))
  end.

(** *** search-by-offering/index.ts *)
Definition search_by_offering (w : World) (req : Incoming) : M (Response Flat.t) :=
  match req with
  | Options => ret Preflight
  | Unreadable thrown => ret (Failure 500 (message thrown))
  | Post field =>
      catch
        match field with
        | None | Some Js.Null | Some (Js.Str EmptyString) =>
            ret (Failure 400 "Offering parameter is required and must be a string")
        | Some (Js.Str offering) =>
            queryEmbedding <- Gemini.generateEmbedding w offering ;;
            rpcResponse <- rpc w Requests queryEmbedding threshold 50 None ;;
            match Postgrest.error rpcResponse with
            | Some e => throw (PostgrestError e)
            | None =>
                if isEmpty (Postgrest.data rpcResponse) then
                  ret (Success (Flat.mk offering []))
                else
                  let rawMatches := match Postgrest.data rpcResponse with
                                    | Some rows => rows | None => [] end in
                  matchesWithAttendees <- mapAll (lookupAttendee w) rawMatches ;;
                  let validMatches := nonNull matchesWithAttendees in
                  finalMatches <- Gemini.rerankMatches w offering QueryType.offering
                                                       validMatches 25 ;;
                  ret (Success (Flat.mk offering finalMatches))
            end
        | Some _ => throw TypeError      (* line 17: offering.substring is not a function *)
        end
        (fun error => ret (Failure 500 (message error)))
  end.

(** *** search-by-username/index.ts *)

Definition orNil {A : Type} (xs : option (list A)) : list A :=
  match xs with Some l => l | None => [] end.

(** The two variables the three strategies assign: [attendees] and
    [searchError]. *)
Definition Search : Type := (option (list Attendee.t) * option string)%type.

Definition assign (result : Postgrest.Result (list Attendee.t)) : Search :=
  (Postgrest.data result, Postgrest.error result).

(** Lines 37-114: [None] is the 404 of line 108. *)
Definition findAttendee (w : World) (name : string) : M (option Attendee.t) :=
  let nameParts := JsString.splitSpaces (JsString.trim name) in
  (* Strategy 1 *)
  s1 <- (if (2 <=? List.length nameParts)%nat then
           let firstName := nth 0 nameParts "" in
           let lastName := JsString.join " " (tl nameParts) in
           result <- query w (SelectIlikeBoth firstName lastName)
                       (Postgrest.ok (Sql.selectIlikeBoth (db w) firstName lastName 1)) ;;
           ret (assign result)
         else ret ((None, None) : Search)) ;;
  (* Strategy 2 *)
  s2 <- (if isEmpty (fst s1) then
           let pattern := ("%" ++ name ++ "%")%string in
           result <- query w (SelectIlikeEither pattern pattern)
                       (Postgrest.ok (Sql.selectIlikeEither (db w) pattern pattern 5)) ;;
           ret (assign result)
         else ret s1) ;;
  (* Strategy 3 *)
  s3 <- (if isEmpty (fst s2) && (2 <=? List.length nameParts)%nat then
           let firstName := ("%" ++ nth 0 nameParts "" ++ "%")%string in
           let lastName := ("%" ++ last nameParts "" ++ "%")%string in
           result <- query w (SelectIlikeEither firstName lastName)
                       (Postgrest.ok (Sql.selectIlikeEither (db w) firstName lastName 5)) ;;
           ret (assign result)
         else ret s2) ;;
  match snd s3 with
  | Some searchError => throw (PostgrestError searchError)
  | None =>
      match fst s3 with
      | None | Some [] => ret None
      | Some (attendee :: _) => ret (Some attendee)
      end
  end.

(** Lines 179-228 (and 250-299), once the candidates are there: look the
    attendees up, re-rank, and push a group. *)
Definition pushGroup (w : World) (queryType : QueryType.t) (text : string)
  (groups : list Group.t) (response : Postgrest.Result (list Row.t)) : M (list Group.t) :=
  match Postgrest.error response with
  | Some _ => ret groups                       (* continue *)
  | None =>
      if isEmpty (Postgrest.data response) then ret groups
      else
        matchesWithAttendees <- mapAll (lookupAttendee w) (orNil (Postgrest.data response)) ;;
        let validMatches := nonNull matchesWithAttendees in
        match validMatches with
        | [] => ret groups
        | _ :: _ =>
            finalMatches <- Gemini.rerankMatches w text queryType validMatches 25 ;;
            ret (groups ++ [Group.mk text finalMatches])
        end
  end.

(** The body of the loop of lines 158-229. *)
Definition requestStep (w : World) (attendee : Attendee.t) (groups : list Group.t)
  (req : string) : M (list Group.t) :=
  syntheticOffering <- Gemini.generateSyntheticOffering w req ;;
  queryEmbedding <- Gemini.generateEmbedding w syntheticOffering ;;
  response <- rpc w Offerings queryEmbedding threshold 50 (Some (Attendee.id attendee)) ;;
  pushGroup w QueryType.request req groups response.

(** The body of the loop of lines 233-300. *)
Definition offeringStep (w : World) (attendee : Attendee.t) (groups : list Group.t)
  (offer : string) : M (list Group.t) :=
  queryEmbedding <- Gemini.generateEmbedding w offer ;;
  response <- rpc w Requests queryEmbedding threshold 50 (Some (Attendee.id attendee)) ;;
  pushGroup w QueryType.offering offer groups response.

(** Lines 114-308. *)
Definition bidirectional (w : World) (attendee : Attendee.t) : M (Response Bidirectional.t) :=
  let id := Attendee.id attendee in
  attendeeOfferings <- query w (SelectTexts Offerings id)
                         (Postgrest.ok (Sql.selectTexts (db w) Offerings id)) ;;
  match Postgrest.error attendeeOfferings with
  | Some e => throw (Error ("Database error fetching offerings: " ++ e))
  | None =>
      attendeeRequests <- query w (SelectTexts Requests id)
                            (Postgrest.ok (Sql.selectTexts (db w) Requests id)) ;;
      match Postgrest.error attendeeRequests with
      | Some e => throw (Error ("Database error fetching requests: " ++ e))
      | None =>
          let offerings := orNil (Postgrest.data attendeeOfferings) in
          let requests := orNil (Postgrest.data attendeeRequests) in
          helpers <- forEach requests (requestStep w attendee) [] ;;
          helped <- forEach offerings (offeringStep w attendee) [] ;;
          ret (Success (Bidirectional.mk
                 (Summary.mk (interpolate (Attendee.first_name attendee) ++ " "
                              ++ interpolate (Attendee.last_name attendee))
                             (Attendee.company attendee)
                             (Attendee.job_title attendee)
                             (Attendee.country attendee))
                 helpers helped))
      end
  end.

Definition search_by_username (w : World) (req : Incoming) : M (Response Bidirectional.t) :=
  match req with
  | Options => ret Preflight
  | Unreadable thrown => ret (Failure 500 (message thrown))
  | Post field =>
      catch
        match field with
        | Some (Js.Str (String _ _ as name)) =>
            found <- findAttendee w name ;;
            match found with
            | None => ret (Failure 404 ("No attendee found matching '" ++ name ++ "'"))
            | Some attendee => bidirectional w attendee
            end
        | _ => ret (Failure 400 "Name parameter is required and must be a string")
        end
        (fun error => ret (Failure 500 (message error)))
  end.

(* ================================================================== *)
(** ** get-attendees/index.ts *)
(* ================================================================== *)

(** An entry of the searchable dropdown: [{ id, value, label }]. *)
Module DropdownOption.
Record t : Type := mk { id : Z; value : string; label : string }.
End DropdownOption.

(** The callback of lines 39-43. *)
Definition formatAttendee (att : Attendee.t) : DropdownOption.t :=
  {| DropdownOption.id := Attendee.id att;
     DropdownOption.value := interpolate (Attendee.first_name att) ++ " "
                             ++ interpolate (Attendee.last_name att);
     DropdownOption.label := interpolate (Attendee.first_name att) ++ " "
                             ++ interpolate (Attendee.last_name att) |}.

(** The handler, on what the query of lines 24-28 resolves to.  It reads
    nothing of the request but its method.  (Which rows the query returns,
    and in which order, is the database's business: the ORDER BY of the
    two name columns follows the collation of the database, which is not
    modelled.) *)
Definition get_attendees (req : Incoming) (result : Postgrest.Result (list Attendee.t))
  : Response (list DropdownOption.t) :=
  match req with
  | Options => Preflight
  | _ =>
      match Postgrest.error result with
      | Some error => Failure 500 error
      | None => Success (map formatAttendee (orNil (Postgrest.data result)))
      end
  end.

(* ================================================================== *)
(** ** components/SearchBar.vue: the script of the search bar *)
(* ================================================================== *)

Module SearchBar.

Inductive SearchMode : Type := username | request | offering.

(** The refs of lines 12-17. *)
Record State : Type := mk {
  searchQuery : string;
  searchMode : SearchMode;
  attendees : list DropdownOption.t;
  filteredAttendees : list DropdownOption.t;
  showDropdown : bool;
  loadingAttendees : bool
}.

Definition initial : State := mk "" username [] [] false false.

(** [s.includes(sub)] *)
Fixpoint includes (s sub : string) : bool :=
  String.prefix sub s
  || match s with
     | String _ s' => includes s' sub
     | EmptyString => false
     end.

(** Line 30: [searchQuery.value.trim().length === 0]. *)
Definition isSearchDisabled (st : State) : bool :=
  (String.length (JsString.trim (searchQuery st)) =? 0)%nat.

(** Lines 34-38: what [handleSearch] emits, if anything. *)
Definition handleSearch (st : State) : option (string * SearchMode) :=
  if negb (isSearchDisabled st)
  then Some (JsString.trim (searchQuery st), searchMode st)
  else None.

(** Lines 40-44. *)
Definition setMode (mode : SearchMode) (st : State) : State :=
  mk "" mode (attendees st) (filteredAttendees st) false (loadingAttendees st).

(** The [v-model] of the input: typing assigns [searchQuery]. *)
Definition typeText (text : string) (st : State) : State :=
  mk text (searchMode st) (attendees st) (filteredAttendees st) (showDropdown st)
     (loadingAttendees st).

Section CaseFolding.

(** [String.prototype.toLowerCase], which folds by the Unicode tables. *)
Variable toLowerCase : string -> string.

(** Lines 46-55. *)
Definition filterAttendees (st : State) : State :=
  let query := toLowerCase (searchQuery st) in
  let shown :=
    if (String.length query =? 0)%nat then Js.slice0 (attendees st) 50
    else Js.slice0 (filter (fun att => includes (toLowerCase (DropdownOption.value att)) query)
                           (attendees st)) 50 in
  mk (searchQuery st) (searchMode st) (attendees st) shown (showDropdown st)
     (loadingAttendees st).

(** Lines 57-62 and 64-69: [handleInputFocus] and [handleInputChange]
    have the same body. *)
Definition handleInputFocus (st : State) : State :=
  match searchMode st with
  | username =>
      let st' := filterAttendees st in
      mk (searchQuery st') (searchMode st') (attendees st') (filteredAttendees st') true
         (loadingAttendees st')
  | _ => st
  end.

Definition handleInputChange (st : State) : State := handleInputFocus st.

(** Lines 71-74. *)
Definition selectAttendee (attendee : DropdownOption.t) (st : State) : State :=
  mk (DropdownOption.value attendee) (searchMode st) (attendees st) (filteredAttendees st)
     false (loadingAttendees st).

(** Lines 78-80: the callback [hideDropdown] schedules. *)
Definition hideDropdownFires (st : State) : State :=
  mk (searchQuery st) (searchMode st) (attendees st) (filteredAttendees st) false
     (loadingAttendees st).

(** Lines 83-91, in its two halves: up to the [await], and from the
    result of [getAttendees] on ([None] is [null]). *)
Definition mountStarts (st : State) : State :=
  mk (searchQuery st) (searchMode st) (attendees st) (filteredAttendees st)
     (showDropdown st) true.

Definition mountEnds (result : option (list DropdownOption.t)) (st : State) : State :=
  match result with
  | Some result =>                          (* an array, also an empty one, is truthy *)
      mk (searchQuery st) (searchMode st) result (Js.slice0 result 50) (showDropdown st) false
  | None =>
      mk (searchQuery st) (searchMode st) (attendees st) (filteredAttendees st)
         (showDropdown st) false
  end.

(** What can happen to the search bar. *)
Inductive Action : Type :=
| SetMode (mode : SearchMode)
| TypeText (text : string)
| InputFocus
| InputChange
| SelectAttendee (attendee : DropdownOption.t)
| DropdownTimeout
| MountStarts
| MountEnds (result : option (list DropdownOption.t)).

Definition step (a : Action) (st : State) : State :=
  match a with
  | SetMode mode => setMode mode st
  | TypeText text => typeText text st
  | InputFocus => handleInputFocus st
  | InputChange => handleInputChange st
  | SelectAttendee attendee => selectAttendee attendee st
  | DropdownTimeout => hideDropdownFires st
  | MountStarts => mountStarts st
  | MountEnds result => mountEnds result st
  end.

(** The state after a sequence of actions, the first action first. *)
Definition run (actions : list Action) (st : State) : State :=
  fold_left (fun st a => step a st) actions st.

End CaseFolding.

End SearchBar.

(* ================================================================== *)
(** ** components/ProfileCard.vue: the header of a card *)
(* ================================================================== *)

Module ProfileCard.

(** The text of the separating spans of lines 17, 19 and 21. *)
Definition separator : string := " • ".

(** A string is truthy unless it is empty. *)
Definition truthy (s : string) : bool := negb (String.eqb s "").

(** A [span] under [v-if]: its text when the condition holds, nothing
    otherwise. *)
Definition span (shown : bool) (text : string) : string := if shown then text else "".

Section Rendering.

(** How a number is displayed. *)
Variable show : Z -> string.

(** Line 22: [Math.round(profile.similarity_score * 100)] and its
    caption, the product taken exactly (the template multiplies in
    binary64, which can round a product next to a half the other way). *)
Definition score (profile : FinalMatch.t) : string :=
  show (Qfloor (FinalMatch.similarity_score profile * 100 + (1 # 2))%Q) ++ "% Match Score".

(** The text of the [div] of lines 15-23: its spans one after the other
    (the white space between two elements that holds a line break is
    dropped by the template compiler). *)
Definition header (profile : FinalMatch.t) : string :=
  let job_title := FinalMatch.job_title profile in
  let company := FinalMatch.company profile in
  let country := FinalMatch.country profile in
  span (truthy job_title) job_title
  ++ span (truthy job_title && (truthy company || truthy country)) separator
  ++ span (truthy company) company
  ++ span (truthy company && truthy country) separator
  ++ span (truthy country) country
  ++ span (truthy job_title || truthy company || truthy country) separator
  ++ score profile.

End Rendering.

End ProfileCard.

(* ================================================================== *)
(** ** A JSON reader, for the worked examples

    The theorems below hold for whatever [JSON.parse] the world supplies.
    This reader of the JSON grammar instantiates it where an example needs
    to run: a number is kept exact, where [JSON.parse] rounds it to the
    nearest double, and a [\u] escape is not read. *)
(* ================================================================== *)

Module Json.

Definition code (c : ascii) : nat := nat_of_ascii c.

Definition isJsonSpace (c : ascii) : bool :=
  ((code c =? 32) || (code c =? 9) || (code c =? 10) || (code c =? 13))%nat.

Fixpoint skipSpace (s : string) : string :=
  match s with
  | String c s' => if isJsonSpace c then skipSpace s' else s
  | EmptyString => EmptyString
  end.

(** The digits at the head of [s]: their value, how many, and the rest. *)
Fixpoint digits (acc : Z) (count : nat) (s : string) : Z * nat * string :=
  match s with
  | String c s' =>
      if Js.isDigit c then digits (10 * acc + Z.of_nat (code c - 48))%Z (S count) s'
      else (acc, count, s)
  | EmptyString => (acc, count, s)
  end.

Definition scale (m : Z) (e : Z) : Q :=
  if (0 <=? e)%Z then inject_Z (m * 10 ^ e)%Z
  else Qred (Qmake m (Z.to_pos (10 ^ (- e))%Z)).

(** [-? (0 | [1-9] digits) (. digits+)? ([eE] [+-]? digits+)?] *)
Definition numberLit (s : string) : option (Js.value * string) :=
  let (negative, s1) :=
    match s with
    | String c s' => if (code c =? 45)%nat then (true, s') else (false, s)
    | EmptyString => (false, s)
    end in
  let leadingZero :=
    match s1 with String c _ => (code c =? 48)%nat | EmptyString => false end in
  match digits 0 0 s1 with
  | (_, O, _) => None
  | (int, S more, s2) =>
      if leadingZero && (0 <? more)%nat then None
      else
        let fraction :=
          match s2 with
          | String c s' =>
              if (code c =? 46)%nat then
                match digits int 0 s' with
                | (_, O, _) => None
                | (m, n, r) => Some (m, n, r)
                end
              else Some (int, O, s2)
          | EmptyString => Some (int, O, s2)
          end in
        match fraction with
        | None => None
        | Some (mant, fracLen, s3) =>
            let exponent :=
              match s3 with
              | String c s' =>
                  if ((code c =? 101) || (code c =? 69))%nat then
                    let (minus, s'') :=
                      match s' with
                      | String d t =>
                          if (code d =? 45)%nat then (true, t)
                          else if (code d =? 43)%nat then (false, t)
                          else (false, s')
                      | EmptyString => (false, s')
                      end in
                    match digits 0 0 s'' with
                    | (_, O, _) => None
                    | (e, _, r) => Some (if minus then (- e)%Z else e, r)
                    end
                  else Some (0%Z, s3)
              | EmptyString => Some (0%Z, s3)
              end in
            match exponent with
            | None => None
            | Some (expo, s4) =>
                let m := if negative then (- mant)%Z else mant in
                Some (Js.Number (Js.Finite (scale m (expo - Z.of_nat fracLen))), s4)
            end
        end
  end.

(** The text of a string literal whose opening quote has been read. *)
Fixpoint stringLit (s : string) : option (string * string) :=
  match s with
  | EmptyString => None
  | String c s' =>
      if (code c =? 34)%nat then Some (EmptyString, s')
      else if (code c =? 92)%nat then
        match s' with
        | String e s'' =>
            let unescaped :=
              if (code e =? 110)%nat then Some (ascii_of_nat 10)
              else if (code e =? 116)%nat then Some (ascii_of_nat 9)
              else if (code e =? 114)%nat then Some (ascii_of_nat 13)
              else if (code e =? 98)%nat then Some (ascii_of_nat 8)
              else if (code e =? 102)%nat then Some (ascii_of_nat 12)
              else if ((code e =? 34) || (code e =? 92) || (code e =? 47))%nat then Some e
              else None in
            match unescaped, stringLit s'' with
            | Some u, Some (t, r) => Some (String u t, r)
            | _, _ => None
            end
        | EmptyString => None
        end
      else if (code c <? 32)%nat then None
      else match stringLit s' with
           | Some (t, r) => Some (String c t, r)
           | None => None
           end
  end.

(** The elements of an array after its first: [, value]* then a bracket. *)
Fixpoint elements (value : string -> option (Js.value * string)) (fuel : nat)
  (s : string) : option (list Js.value * string) :=
  match fuel with
  | O => None
  | S fuel' =>
      match skipSpace s with
      | String c s' =>
          if (code c =? 93)%nat then Some ([], s')
          else if (code c =? 44)%nat then
            match value s' with
            | Some (v, r) =>
                match elements value fuel' r with
                | Some (vs, r') => Some (v :: vs, r')
                | None => None
                end
            | None => None
            end
          else None
      | EmptyString => None
      end
  end.

Definition member (value : string -> option (Js.value * string)) (s : string)
  : option ((string * Js.value) * string) :=
  match skipSpace s with
  | String c s' =>
      if (code c =? 34)%nat then
        match stringLit s' with
        | Some (k, r) =>
            match skipSpace r with
            | String d r' =>
                if (code d =? 58)%nat then
                  match value r' with
                  | Some (v, r'') => Some ((k, v), r'')
                  | None => None
                  end
                else None
            | EmptyString => None
            end
        | None => None
        end
      else None
  | EmptyString => None
  end.

Fixpoint members (value : string -> option (Js.value * string)) (fuel : nat)
  (s : string) : option (list (string * Js.value) * string) :=
  match fuel with
  | O => None
  | S fuel' =>
      match skipSpace s with
      | String c s' =>
          if (code c =? 125)%nat then Some ([], s')
          else if (code c =? 44)%nat then
            match member value s' with
            | Some (kv, r) =>
                match members value fuel' r with
                | Some (kvs, r') => Some (kv :: kvs, r')
                | None => None
                end
            | None => None
            end
          else None
      | EmptyString => None
      end
  end.

Fixpoint value (fuel : nat) (s : string) : option (Js.value * string) :=
  match fuel with
  | O => None
  | S fuel' =>
      let s0 := skipSpace s in
      match s0 with
      | EmptyString => None
      | String c s' =>
          if (code c =? 91)%nat then                       (* [ *)
            match skipSpace s' with
            | String d r =>
                if (code d =? 93)%nat then Some (Js.Array [], r)
                else
                  match value fuel' s' with
                  | Some (v, r1) =>
                      match elements (value fuel') (String.length r1 + 1) r1 with
                      | Some (vs, r2) => Some (Js.Array (v :: vs), r2)
                      | None => None
                      end
                  | None => None
                  end
            | EmptyString => None
            end
          else if (code c =? 123)%nat then                 (* { *)
            match skipSpace s' with
            | String d r =>
                if (code d =? 125)%nat then Some (Js.Object [], r)
                else
                  match member (value fuel') s' with
                  | Some (kv, r1) =>
                      match members (value fuel') (String.length r1 + 1) r1 with
                      | Some (kvs, r2) => Some (Js.Object (kv :: kvs), r2)
                      | None => None
                      end
                  | None => None
                  end
            | EmptyString => None
            end
          else if (code c =? 34)%nat then
            match stringLit s' with
            | Some (t, r) => Some (Js.Str t, r)
            | None => None
            end
          else if String.prefix "true" s0 then Some (Js.Bool true, JsString.substring 4 s0)
          else if String.prefix "false" s0 then Some (Js.Bool false, JsString.substring 5 s0)
          else if String.prefix "null" s0 then Some (Js.Null, JsString.substring 4 s0)
          else numberLit s0
      end
  end.

(** The whole text must be one value. *)
Definition parse (s : string) : option Js.value :=
  match value (String.length s + 1) s with
  | Some (v, rest) =>
      match skipSpace rest with
      | EmptyString => Some v
      | _ => None
      end
  | None => None
  end.

(** A double quote, and a text between double quotes. *)
Definition dquote : string := String (ascii_of_nat 34) EmptyString.
Definition quoted (s : string) : string := dquote ++ s ++ dquote.

End Json.

(* ================================================================== *)
(** ** Vocabulary of the statements *)
(* ================================================================== *)

(** The text a generative response carries at
    [candidates[0].content.parts[0].text]. *)
Definition resultTextOf (response : Fetched GenerateResponse) : option string :=
  match response with
  | Json (Some data) =>
      match candidates data with
      | Some (Some text :: _) => Some text
      | _ => None
      end
  | _ => None
  end.

(** A generative response with the one candidate [text]. *)
Definition saying (text : string) : Fetched GenerateResponse :=
  Json (Some {| candidates := Some [Some text] |}).

(** The candidate [idx] selects, when it selects one that has its
    attendee. *)
Definition chosen (matches : list Match.t) (idx : Js.value) : option (Match.t * Attendee.t) :=
  match Js.toPropertyKey idx with
  | Js.Index i =>
      match nth_error matches i with
      | Some m => match Match.attendee m with Some a => Some (m, a) | None => None end
      | None => None
      end
  | Js.Named => None
  end.

(** The indices the entries of a parsed array select, in order, one per
    selecting entry. *)
Definition selectedIndices (matches : list Match.t) (entries : list Js.value) : list nat :=
  flat_map (fun idx => match Js.toPropertyKey idx with
                       | Js.Index i => if (i <? List.length matches)%nat then [i] else []
                       | Js.Named => []
                       end) entries.

(** The entry of an index array that is the number [i]. *)
Definition indexEntry (i : nat) : Js.value := Js.Number (Js.ofNat i).

(** The result [r] shows the candidate [m] and its attendee [a]: the text
    of the candidate, the name of the attendee, and the attendee's other
    columns, a missing one as the empty string. *)
Definition shows (m : Match.t) (a : Attendee.t) (r : FinalMatch.t) : Prop :=
  FinalMatch.text r = Match.text m /\
  FinalMatch.name r = (interpolate (Attendee.first_name a) ++ " "
                       ++ interpolate (Attendee.last_name a))%string /\
  FinalMatch.company r = orEmpty (Attendee.company a) /\
  FinalMatch.job_title r = orEmpty (Attendee.job_title a) /\
  FinalMatch.country r = orEmpty (Attendee.country a) /\
  FinalMatch.linkedin r = orEmpty (Attendee.linkedin a) /\
  FinalMatch.swapcard r = orEmpty (Attendee.swapcard a) /\
  FinalMatch.biography r = orEmpty (Attendee.biography a).

Definition hasBacktick (s : string) : bool :=
  existsb (fun c => (nat_of_ascii c =? 96)%nat) (list_ascii_of_string s).

(** The upstream's answer at moment [n], whatever the prompt, is a text
    that lines 234-245 turn into the value [v]. *)
Definition answerParsesTo (w : World) (n : nat) (v : Js.value) : Prop :=
  forall prompt, exists text resultText,
    resultTextOf (generateRerank w n prompt) = Some text /\
    Gemini.cleanResultText text = Normal resultText /\
    JSON_parse w resultText = Some v.

(** *** A small event, for the worked examples *)

Definition ada : Attendee.t :=
  Attendee.mk 1%Z (Some "Ada") (Some "Byron") (Some "Analytical Engines") None (Some "UK")
              None None None.

Definition grace : Attendee.t :=
  Attendee.mk 2%Z (Some "Grace") (Some "Hopper") (Some "Navy") (Some "Rear admiral")
              (Some "US") None None None.

Definition jane : Attendee.t :=
  Attendee.mk 3%Z (Some "Jane") (Some "Doe") None None None None None None.

Definition resolved : Match.t :=
  Match.mk (Some 2%Z) "Happy to mentor on compilers" (9 # 10)%Q (Some grace).

Definition second : Match.t :=
  Match.mk (Some 3%Z) "I can review grant proposals" (8 # 10)%Q (Some jane).

(** A candidate whose attendee was not resolved. *)
Definition orphan : Match.t :=
  Match.mk (Some 9%Z) "I can host a workshop" (7 # 10)%Q None.

(** A stand-in for the cosine distance: near for vectors that begin below
    2, far for the others. *)
Definition toyDistance (e q : list float) : Q :=
  match e with
  | x :: _ => if PrimFloat.ltb x 2%float then (1 # 10)%Q else (6 # 10)%Q
  | [] => 1%Q
  end.

Definition store : Sql.Database :=
  {| Sql.attendees := [ada; grace; jane];
     Sql.offerings :=
       [Item.mk 1%Z (Some 2%Z) "Happy to mentor on compilers" (Some [1%float]);
        Item.mk 2%Z (Some 1%Z) "I can teach analysis" (Some [1%float]);
        Item.mk 3%Z (Some 3%Z) "I can cater the reception" (Some [5%float])];
     Sql.requests :=
       [Item.mk 1%Z (Some 1%Z) "Looking for a compilers mentor" (Some [1%float]);
        Item.mk 2%Z (Some 3%Z) "Need help with analysis" (Some [1%float])];
     Sql.folding := Sql.lowerChar |}.

(** An event nobody has posted an offering or a request for yet. *)
Definition bare : Sql.Database :=
  {| Sql.attendees := [ada; grace; jane]; Sql.offerings := []; Sql.requests := [];
     Sql.folding := Sql.lowerChar |}.

(** A world in which every service answers: the embedding service with
    [embedding], the re-ranker with [rerankText]. *)
Definition worldOver (database : Sql.Database) (embedding : list float)
  (rerankText : string) : World :=
  {| JSON_parse := Json.parse;
     cosine_distance := toyDistance;
     db := database;
     embedContent := fun _ _ => Json (Some {| values := Some embedding |});
     generateSynthetic := fun _ request => saying ("Happy to help. " ++ request);
     generateRerank := fun _ _ => saying rerankText;
     dbFault := fun _ => None |}.

Definition world (rerankText : string) : World :=
  worldOver store [3%float; 4%float] rerankText.

Definition byDistance (x y : Sql.Scored) : Prop := (fst x <= fst y)%Q.

Definition newline : string := String (ascii_of_nat 10) EmptyString.

(** An index array inside a fenced block with a language tag. *)
Definition fencedAnswer : string :=
  (Gemini.fence ++ "json" ++ newline ++ "[1, 0]" ++ newline ++ Gemini.fence)%string.

(** What the specification asks of a similarity search: rows in
    descending order of similarity, each strictly above the threshold and
    each the projection of a stored row whose similarity is one minus its
    cosine distance to the query, and no more rows than the limit. *)
Definition descending (r1 r2 : Row.t) : Prop :=
  (Row.similarity r2 <= Row.similarity r1)%Q.

Definition fromStoredRow (cosine_distance : list float -> list float -> Q)
  (rows : list Item.t) (query_embedding : list float) (r : Row.t) : Prop :=
  exists it e, In it rows /\ Item.embedding it = Some e /\
    Row.similarity r = (1 - cosine_distance e query_embedding)%Q /\
    Row.attendee_id r = Item.attendee_id it /\ Row.text r = Item.text it.

Definition searchResult (cosine_distance : list float -> list float -> Q)
  (rows : list Item.t) (query_embedding : list float) (match_threshold : Q)
  (match_count : Z) (out : list Row.t) : Prop :=
  StronglySorted descending out /\
  Forall (fun r => (match_threshold < Row.similarity r)%Q) out /\
  Forall (fromStoredRow cosine_distance rows query_embedding) out /\
  (Z.of_nat (List.length out) <= match_count)%Z.

(** *** Reasoning about runs

    [triple Pre m N E]: started on a trace that satisfies [Pre], [m] ends
    with a value and a trace that satisfy [N], or with an exception and a
    trace that satisfy [E]. *)
Definition triple {A : Type} (Pre : list Event -> Prop) (m : M A)
  (N : A -> list Event -> Prop) (E : Exn -> list Event -> Prop) : Prop :=
  forall log, Pre log ->
    match m log with
    | (Normal a, log') => N a log'
    | (Throw e, log') => E e log'
    end.

(** The prompts of the re-rank requests of a trace, in order. *)
Definition rerankCalls (log : list Event) : list RerankPrompt.t :=
  flat_map (fun ev => match ev with GenerateRerank p => [p] | _ => [] end) log.

(** A response whose text [JSON.parse] rejects, or reads as a value that
    is neither an array nor a string. *)
Definition unparsable (parse : string -> option Js.value)
  (response : Fetched GenerateResponse) : bool :=
  match resultTextOf response with
  | Some text =>
      match Gemini.cleanResultText text with
      | Normal resultText =>
          match parse resultText with
          | None => true
          | Some (Js.Array _) | Some (Js.Str _) => false
          | Some _ => true
          end
      | Throw _ => true
      end
  | None => false
  end.

(** Some re-rank request of the trace was answered by such a response. *)
Definition rerankRejected (w : World) (log : list Event) : Prop :=
  exists before prompt after,
    log = before ++ GenerateRerank prompt :: after /\
    unparsable (JSON_parse w) (generateRerank w (List.length before) prompt) = true.

(** A request in free-text request mode, and an answer of the re-ranker
    that is prose instead of an index array. *)
Definition mentorRequest : Incoming :=
  Post (Some (Js.Str "Looking for a compilers mentor")).

Definition prose : string := "Here are the best matches".

(** The groups pushed so far are, in order, the items for which the
    re-ranker was called (after the calls that answered [before]), and
    every such call was handed at least one candidate. *)
Definition groupsMatchCalls (before : list string) (groups : list Group.t)
  (log : list Event) : Prop :=
  map RerankPrompt.query (rerankCalls log) = before ++ map Group.yours groups /\
  Forall (fun p => (1 <= RerankPrompt.count p)%nat) (rerankCalls log).

Definition adaByron : Incoming := Post (Some (Js.Str "Ada Byron")).

(** The re-rank requests of a trace, in order, each with the number of
    calls made before it; [tick] is the number of the first call of
    [log]. *)
Fixpoint rerankCallsFrom (tick : nat) (log : list Event) : list (nat * RerankPrompt.t) :=
  match log with
  | [] => []
  | GenerateRerank p :: rest => (tick, p) :: rerankCallsFrom (S tick) rest
  | _ :: rest => rerankCallsFrom (S tick) rest
  end.

(** The group [g] is what came of the re-rank request [call]: called at
    that moment of the run on the text of the group, for the best 25 of
    some candidates, of which there is at least one, [rerankMatches] sends
    that request and returns the matches of the group. *)
Definition groupOfCall (w : World) (g : Group.t) (call : nat * RerankPrompt.t) : Prop :=
  exists validMatches : list Match.t,
    validMatches <> [] /\
    forall before : list Event,
      List.length before = fst call ->
      Gemini.rerankMatches w (Group.yours g) (RerankPrompt.queryType (snd call))
                           validMatches 25 before
      = (Normal (Group.matches g), before ++ [GenerateRerank (snd call)]).

(** The groups pushed so far, after the groups [before], are what came of
    the re-rank requests of the trace, one group per request, in order. *)
Definition groupsAnswer (w : World) (before groups : list Group.t) (log : list Event)
  : Prop :=
  Forall2 (groupOfCall w) (before ++ groups) (rerankCallsFrom 0 log).

(** A call of the run respects the exclusion of attendee [id]: a vector
    search excludes [id], and no candidate handed to the re-ranker is
    [id]'s. *)
Definition avoids (id : Z) (ev : Event) : Prop :=
  match ev with
  | RpcMatch _ _ _ _ exclude_attendee_id => exclude_attendee_id = Some id
  | GenerateRerank p =>
      Forall (fun d => MatchDescription.attendee_id d <> Some id) (RerankPrompt.candidates p)
  | _ => True
  end.

(** The result [r] shows a candidate of one of the re-rank calls of the
    trace. *)
Definition describes (d : MatchDescription.t) (r : FinalMatch.t) : Prop :=
  FinalMatch.text r = MatchDescription.text d /\
  FinalMatch.name r = MatchDescription.name d /\
  FinalMatch.similarity_score r = MatchDescription.similarity_score d.

Definition builtFrom (log : list Event) (r : FinalMatch.t) : Prop :=
  exists p d, In p (rerankCalls log) /\ In d (RerankPrompt.candidates p) /\ describes d r.

Definition built (groups : list Group.t) (log : list Event) : Prop :=
  Forall (fun g => Forall (builtFrom log) (Group.matches g)) groups.

(** The rows a search that excludes [id] hands back are not [id]'s. *)
Definition rowsAvoid (id : Z) (response : Postgrest.Result (list Row.t)) : Prop :=
  forall rows, Postgrest.data response = Some rows ->
               Forall (fun r => Row.attendee_id r <> Some id) rows.

(** *** Identity resolution in the specification's words

    Tier (i): exact case-insensitive match of the first token against
    first_name and of the remaining tokens against last_name; tier (ii):
    case-insensitive substring match of the whole input against either
    field; tier (iii): substring match of the first token against
    first_name or of the last token against last_name.  The first row of
    the first tier that yields a row, or nobody.  Two texts are the same
    without regard to case when the database folds them to the same
    text. *)
Module Claim.

Fixpoint isSubstring (needle hay : string) : bool :=
  String.prefix needle hay
  || match hay with
     | String _ hay' => isSubstring needle hay'
     | EmptyString => false
     end.

Definition equalsIgnoringCase (db : Sql.Database) (x : string) (column : option string)
  : bool :=
  match column with
  | Some t => String.eqb (Sql.folded db x) (Sql.folded db t)
  | None => false
  end.

Definition containsIgnoringCase (db : Sql.Database) (x : string) (column : option string)
  : bool :=
  match column with
  | Some t => isSubstring (Sql.folded db x) (Sql.folded db t)
  | None => false
  end.

Definition tier1 (db : Sql.Database) (tokens : list string) : list Attendee.t :=
  filter (fun a => equalsIgnoringCase db (nth 0 tokens "") (Attendee.first_name a)
                   && equalsIgnoringCase db (JsString.join " " (tl tokens))
                                         (Attendee.last_name a))
         (Sql.attendees db).

Definition tier2 (db : Sql.Database) (name : string) : list Attendee.t :=
  filter (fun a => containsIgnoringCase db name (Attendee.first_name a)
                   || containsIgnoringCase db name (Attendee.last_name a))
         (Sql.attendees db).

Definition tier3 (db : Sql.Database) (tokens : list string) : list Attendee.t :=
  filter (fun a => containsIgnoringCase db (nth 0 tokens "") (Attendee.first_name a)
                   || containsIgnoringCase db (last tokens "") (Attendee.last_name a))
         (Sql.attendees db).

Definition resolve (db : Sql.Database) (name : string) : option Attendee.t :=
  let tokens := JsString.splitSpaces (JsString.trim name) in
  let several := (2 <=? List.length tokens)%nat in
  match (if several then tier1 db tokens else []) with
  | a :: _ => Some a
  | [] =>
      match tier2 db name with
      | a :: _ => Some a
      | [] => if several then hd_error (tier3 db tokens) else None
      end
  end.

(** The tiers that run, each only when the one before yielded no row:
    tier (i) for a name of at least two tokens, tier (ii) when tier (i)
    yielded none, tier (iii) when tier (ii) yielded none either and the
    name has at least two tokens. *)
Inductive Tier : Type := ExactNames | WholeInput | FirstAndLast.

Definition tiersRun (db : Sql.Database) (name : string) : list Tier :=
  let tokens := JsString.splitSpaces (JsString.trim name) in
  let several := (2 <=? List.length tokens)%nat in
  (if several then [ExactNames] else [])
  ++ match (if several then tier1 db tokens else []) with
     | _ :: _ => []
     | [] =>
         WholeInput :: match tier2 db name with
                       | _ :: _ => []
                       | [] => if several then [FirstAndLast] else []
                       end
     end.

(** The query of a tier, as the trace records it: the columns compared
    and the pattern for each. *)
Definition queryOf (name : string) (tier : Tier) : Event :=
  let tokens := JsString.splitSpaces (JsString.trim name) in
  match tier with
  | ExactNames => SelectIlikeBoth (nth 0 tokens "") (JsString.join " " (tl tokens))
  | WholeInput => SelectIlikeEither ("%" ++ name ++ "%") ("%" ++ name ++ "%")
  | FirstAndLast =>
      SelectIlikeEither ("%" ++ nth 0 tokens "" ++ "%") ("%" ++ last tokens "" ++ "%")
  end.

End Claim.

(** A character of the input that reaches the comparison as itself: it
    is no metacharacter of LIKE, and none of the characters the filter
    syntax of the REST layer gives a meaning to (the double quote, the
    parentheses, [*] which stands for [%] there, the comma, the full stop,
    the colon and the braces), on which the queries of lines 53-54, 68 and
    89 are not the ILIKE conditions modelled above. *)
Definition reservedInFilters (c : ascii) : bool :=
  existsb (Nat.eqb (nat_of_ascii c)) [34; 40; 41; 42; 44; 46; 58; 123; 125].

Definition plainChar (c : ascii) : bool :=
  negb (Ascii.eqb c Sql.percent) && negb (Ascii.eqb c Sql.underscore)
  && negb (Ascii.eqb c Sql.backslash) && negb (reservedInFilters c).

Definition plain (s : string) : bool := forallb plainChar (list_ascii_of_string s).

(** The folding of the database leaves the metacharacters of LIKE as they
    are and folds no other character into one, as the lower-casing of a
    locale does; and likewise for white space. *)
Definition isPatternChar (c : ascii) : bool :=
  Ascii.eqb c Sql.percent || Ascii.eqb c Sql.underscore || Ascii.eqb c Sql.backslash.

Definition patternFree (s : string) : bool :=
  forallb (fun c => negb (isPatternChar c)) (list_ascii_of_string s).

Definition keepsPatterns (db : Sql.Database) : Prop :=
  forall c, (isPatternChar c = true -> Sql.folding db c = c) /\
            (isPatternChar c = false -> isPatternChar (Sql.folding db c) = false).

Definition keepsSpaces (db : Sql.Database) : Prop :=
  forall c, (JsString.isSpace c = true -> Sql.folding db c = c) /\
            (JsString.isSpace c = false -> JsString.isSpace (Sql.folding db c) = false).

(** *** Further vocabulary *)

(** A text that does not begin with white space. *)
Definition startsClean (s : string) : Prop :=
  match s with
  | String c _ => JsString.isSpace c = false
  | EmptyString => True
  end.

(** What the lookup of a candidate's attendee comes to when it is the
    call number [tick] of the run: [null] on a fault, on a NULL id and
    unless exactly one attendee has the id. *)
Definition lookedUp (w : World) (tick : nat) (row : Row.t) : option Match.t :=
  match dbFault w tick with
  | Some _ => None
  | None =>
      let response := Sql.selectSingle (db w) (Row.attendee_id row) in
      match Postgrest.error response, Postgrest.data response with
      | None, Some attendee => Some (withAttendee row attendee)
      | _, _ => None
      end
  end.

Fixpoint lookedUpFrom (w : World) (tick : nat) (rows : list Row.t) : list (option Match.t) :=
  match rows with
  | [] => []
  | row :: rest => lookedUp w tick row :: lookedUpFrom w (S tick) rest
  end.

(** The lookups a list of rows gives rise to. *)
Definition lookups (rows : list Row.t) : list Event :=
  map (fun row => SelectSingle (Row.attendee_id row)) rows.

(** A candidate made of a row of the search and of the attendee of the
    table whose id the row carries. *)
Definition resolvedFrom (database : Sql.Database) (row : Row.t) (m : Match.t) : Prop :=
  exists a : Attendee.t,
    m = withAttendee row a /\ In a (Sql.attendees database) /\
    Row.attendee_id row = Some (Attendee.id a).
(** The status of a response; [new Response(body, { headers })] without a
    status is a 200. *)
Definition status {A : Type} (r : Response A) : nat :=
  match r with
  | Preflight | Success _ => 200
  | Failure s _ => s
  end.

(** The parameters the free-text handlers answer 400 to, and the ones the
    identity handler does. *)
Definition refusedText (field : option Js.value) : bool :=
  match field with
  | None | Some Js.Null | Some (Js.Str EmptyString) => true
  | Some _ => false
  end.

Definition refusedName (field : option Js.value) : bool :=
  match field with
  | Some (Js.Str (String _ _)) => false
  | _ => true
  end.



(** A response that carries at most 25 matches, in each of its groups if
    it has groups. *)
Definition shortList (r : Response Flat.t) : Prop :=
  match r with
  | Success body => (List.length (Flat.matches body) <= 25)%nat
  | _ => True
  end.

Definition shortGroup (g : Group.t) : Prop := (List.length (Group.matches g) <= 25)%nat.

Definition shortGroups (r : Response Bidirectional.t) : Prop :=
  match r with
  | Success body =>
      Forall shortGroup (Bidirectional.people_who_can_help_you body
                         ++ Bidirectional.people_you_can_help body)
  | _ => True
  end.


(** A prompt that lists exactly the candidates it announces, 50 at most,
    and asks for the best 25; and a trace all of whose re-rank requests
    carry such a prompt. *)
Definition promptWithin (p : RerankPrompt.t) : Prop :=
  (RerankPrompt.count p <= 50)%nat /\
  List.length (RerankPrompt.candidates p) = RerankPrompt.count p /\
  RerankPrompt.topK p = 25%Z.

Definition promptsWithin (log : list Event) : Prop :=
  Forall promptWithin (rerankCalls log).

(** The answer of a vector search holds at most 50 rows. *)
Definition rowsWithin (response : Postgrest.Result (list Row.t)) : Prop :=
  forall rows, Postgrest.data response = Some rows -> (List.length rows <= 50)%nat.


(** [log] is the beginning of [full]. *)
Definition prefixOf (log full : list Event) : Prop := exists rest, full = log ++ rest.

(** The calls of a free-text request that runs to its end: the generative
    call for the synthetic offering (request mode only), the embedding, the
    vector search, one lookup per row found, and the re-rank request. *)
Definition requestCalls (request syntheticOffering : string) (queryEmbedding : list float)
  (rows : list Row.t) (prompt : RerankPrompt.t) : list Event :=
  [GenerateSynthetic request; EmbedContent syntheticOffering;
   RpcMatch Offerings queryEmbedding threshold 50 None]
  ++ lookups rows ++ [GenerateRerank prompt].

Definition offeringCalls (offering : string) (queryEmbedding : list float)
  (rows : list Row.t) (prompt : RerankPrompt.t) : list Event :=
  [EmbedContent offering; RpcMatch Requests queryEmbedding threshold 50 None]
  ++ lookups rows ++ [GenerateRerank prompt].


(** What a query that finds [rows] resolves to when it is the call number
    [tick] of the run. *)
Definition answerAt {A : Type} (w : World) (tick : nat) (rows : A) : Postgrest.Result A :=
  match dbFault w tick with
  | Some e => Postgrest.failed e
  | None => Postgrest.ok rows
  end.

(** The state of [attendees] and [searchError] after the three strategies
    of lines 44-99, from what their queries find: [r1] the exact match,
    [r2] the partial match on the whole input, [r3] the match on the first
    and the last part. *)
Definition strategies (w : World) (tick : nat) (several : bool)
  (r1 r2 r3 : list Attendee.t) : Search :=
  let s1 := if several then assign (answerAt w tick r1) else (None, None) in
  let t1 := if several then S tick else tick in
  let s2 := if isEmpty (fst s1) then assign (answerAt w t1 r2) else s1 in
  let t2 := if isEmpty (fst s1) then S t1 else t1 in
  if isEmpty (fst s2) && several then assign (answerAt w t2 r3) else s2.

(** Two attendees whose names differ by case at most: the database folds
    them to the same texts. *)
Definition sameNameIgnoringCase (db : Sql.Database) (a b : Attendee.t) : Prop :=
  match Attendee.first_name a, Attendee.last_name a,
        Attendee.first_name b, Attendee.last_name b with
  | Some f, Some l, Some f', Some l' =>
      Sql.folded db f = Sql.folded db f' /\ Sql.folded db l = Sql.folded db l'
  | _, _, _, _ => False
  end.

(** [xs] is [ys] with some elements left out. *)
Inductive Subsequence {A : Type} : list A -> list A -> Prop :=
| subsequence_nil : Subsequence [] []
| subsequence_keep (x : A) (xs ys : list A) :
    Subsequence xs ys -> Subsequence (x :: xs) (x :: ys)
| subsequence_skip (y : A) (xs ys : list A) :
    Subsequence xs ys -> Subsequence xs (y :: ys).


(** An attendee whose last name is two words, and an event he attends. *)
Definition guido : Attendee.t :=
  Attendee.mk 4%Z (Some "Guido") (Some "van Rossum") None None (Some "NL") None None None.

Definition directory : Sql.Database :=
  {| Sql.attendees := [ada; guido; jane]; Sql.offerings := []; Sql.requests := [];
     Sql.folding := Sql.lowerChar |}.

(** A world whose database fails on the calls [faulty] picks out. *)
Definition worldFailing (database : Sql.Database) (faulty : nat -> bool) : World :=
  {| JSON_parse := Json.parse;
     cosine_distance := toyDistance;
     db := database;
     embedContent := fun _ _ => Json (Some {| values := Some [1%float] |});
     generateSynthetic := fun _ request => saying request;
     generateRerank := fun _ _ => saying "[0]";
     dbFault := fun n => if faulty n then Some "connection lost" else None |}.


(** Split at white space, [name] gives back [f] as its first part and [l]
    as its other parts joined by single spaces; for instance when [name]
    is [f], a space and [l], [f] is one word, and the words of [l] are
    separated by single spaces. *)
Definition splitsInto (name f l : string) : Prop :=
  (2 <= List.length (JsString.splitSpaces (JsString.trim name)))%nat /\
  nth 0 (JsString.splitSpaces (JsString.trim name)) "" = f /\
  JsString.join " " (tl (JsString.splitSpaces (JsString.trim name))) = l.


(** The dropdown holds at most 50 options, taken from the loaded list in
    its order. *)
Definition dropdownFits (st : SearchBar.State) : Prop :=
  (List.length (SearchBar.filteredAttendees st) <= 50)%nat /\
  Subsequence (SearchBar.filteredAttendees st) (SearchBar.attendees st).

(** The request the front end sends for a query: the body is [{ name }],
    [{ request }] or [{ offering }] (composables/useSupabase), of which
    the handler reads the one property. *)
Definition requestFor (query : string) : Incoming := Post (Some (Js.Str query)).


(* ================================================================== *)
(** * Properties *)
(* ================================================================== *)

(** ** Numbers and property keys *)

Lemma isDigit_code (c : ascii) :
  Js.isDigit c = true -> (48 <= nat_of_ascii c <= 57)%nat.
Proof.
  unfold Js.isDigit. cbv zeta. rewrite andb_true_iff, !Nat.leb_le. tauto.
Qed.

Lemma isDigit_not_space (c : ascii) :
  Js.isDigit c = true -> JsString.isSpace c = false.
Proof.
  intros H. apply isDigit_code in H. unfold JsString.isSpace. cbv zeta.
  rewrite !orb_false_iff, andb_false_iff, !Nat.leb_gt, !Nat.eqb_neq. lia.
Qed.

Lemma digitsValue_all_digits (s : string) :
  forall acc n, Js.digitsValue acc s = Some n ->
  forall c, In c (list_ascii_of_string s) -> Js.isDigit c = true.
Proof.
  induction s as [|d s IH]; simpl; intros acc n H c Hc; [tauto|].
  destruct (Js.isDigit d) eqn:E; [|discriminate].
  destruct Hc as [<-|Hc]; [assumption|]. eapply IH; eassumption.
Qed.

Lemma trimEnd_no_space (s : string) :
  (forall c, In c (list_ascii_of_string s) -> JsString.isSpace c = false) ->
  JsString.trimEnd s = s.
Proof.
  induction s as [|d s IH]; simpl; intros H; [reflexivity|].
  rewrite IH by auto. rewrite (H d) by auto. now destruct s.
Qed.

Lemma trim_digits (s : string) (acc n : nat) :
  Js.digitsValue acc s = Some n -> JsString.trim s = s.
Proof.
  intros H. pose proof (digitsValue_all_digits _ _ _ H) as D.
  unfold JsString.trim.
  assert (T : JsString.trimStart s = s).
  { destruct s as [|d s]; [reflexivity|]. simpl.
    now rewrite (isDigit_not_space d) by (apply D; simpl; auto). }
  rewrite T. apply trimEnd_no_space. intros c Hc. apply isDigit_not_space; auto.
Qed.

(** The canonical numeral of an index reads back as that number. *)
Lemma stringToNumber_arrayIndex (s : string) (i : nat) :
  Js.arrayIndex s = Some i -> Js.stringToNumber s = Js.ofNat i.
Proof.
  unfold Js.arrayIndex. destruct s as [|c rest]; [discriminate|].
  intros H.
  assert (D : Js.digitsValue 0 (String c rest) = Some i).
  { destruct ((nat_of_ascii c =? 48)%nat && negb (rest =? ""))%bool; [discriminate|exact H]. }
  clear H. unfold Js.stringToNumber. rewrite (trim_digits _ _ _ D).
  assert (Hc : Js.isDigit c = true).
  { apply (digitsValue_all_digits _ _ _ D). simpl; auto. }
  pose proof (isDigit_code _ Hc) as Hn.
  assert (N1 : (String c rest =? "Infinity") = false).
  { apply String.eqb_neq. intros E. injection E as -> _. vm_compute in Hn. lia. }
  assert (N2 : (String c rest =? "+Infinity") = false).
  { apply String.eqb_neq. intros E. injection E as -> _. vm_compute in Hn. lia. }
  assert (N3 : (String c rest =? "-Infinity") = false).
  { apply String.eqb_neq. intros E. injection E as -> _. vm_compute in Hn. lia. }
  rewrite N1, N2, N3. cbn [orb].
  replace (nat_of_ascii c =? 45)%nat with false by (symmetry; apply Nat.eqb_neq; lia).
  replace (nat_of_ascii c =? 43)%nat with false by (symmetry; apply Nat.eqb_neq; lia).
  now rewrite D.
Qed.

Lemma isInteger_floor (q : Q) :
  Js.isInteger q = true -> (q == inject_Z (Qfloor q))%Q.
Proof.
  destruct q as [a b]. unfold Js.isInteger, Qfloor, Qeq, inject_Z.
  cbn [Qnum Qden]. rewrite Z.eqb_eq. intros H.
  assert (N : Zpos b <> 0%Z) by discriminate.
  pose proof (Z.div_mod a (Zpos b) N) as E. rewrite H in E.
  rewrite Z.mul_1_r. rewrite Z.add_0_r in E. rewrite Z.mul_comm. exact E.
Qed.

(** An induction principle that reaches the elements of an array. *)
Lemma value_rect_elems (P : Js.value -> Prop) :
  P Js.Null -> (forall b, P (Js.Bool b)) -> (forall x, P (Js.Number x)) ->
  (forall s, P (Js.Str s)) ->
  (forall elems, Forall P elems -> P (Js.Array elems)) ->
  (forall fields, P (Js.Object fields)) ->
  forall v, P v.
Proof.
  intros HN HB HX HS HA HO.
  fix IH 1. intros v. destruct v as [ | b | x | s | elems | fields ].
  - exact HN.
  - apply HB.
  - apply HX.
  - apply HS.
  - apply HA. induction elems as [|e elems IHe]; constructor; [apply IH | exact IHe].
  - apply HO.
Qed.

(** A value that names the index [i] compares as the number [i]. *)
Lemma toNumber_of_index (v : Js.value) :
  forall i, Js.toPropertyKey v = Js.Index i ->
  exists q, Js.toNumber v = Js.Finite q /\ (q == inject_Z (Z.of_nat i))%Q.
Proof.
  induction v as [ | b | x | s | elems IH | fields ] using value_rect_elems;
    intros i H; try discriminate.
  - destruct x as [q| |]; try discriminate. simpl in H.
    destruct (Js.isInteger q) eqn:I; [|discriminate].
    destruct (0 <=? Qfloor q)%Z eqn:F; [|discriminate].
    injection H as <-. exists q. split; [reflexivity|].
    rewrite Z2Nat.id by (apply Z.leb_le; exact F). now apply isInteger_floor.
  - simpl in H. destruct (Js.arrayIndex s) as [j|] eqn:A; [|discriminate].
    injection H as <-. exists (inject_Z (Z.of_nat j)). split; [|reflexivity].
    simpl. now rewrite (stringToNumber_arrayIndex _ _ A).
  - destruct elems as [|e [|e' rest]]; try discriminate.
    inversion IH as [|? ? He _]; subst.
    destruct e; try discriminate; simpl in H |- *; apply He; exact H.
Qed.

Lemma bounds_of_index (v : Js.value) (i n : nat) :
  Js.toPropertyKey v = Js.Index i ->
  Js.lt (Js.toNumber v) (Js.ofZ 0) = false /\
  Js.le (Js.ofNat n) (Js.toNumber v) = (n <=? i)%nat.
Proof.
  intros H. destruct (toNumber_of_index _ _ H) as (q & -> & E).
  unfold Js.ofNat, Js.ofZ. simpl. split.
  - apply negb_false_iff. apply Qle_bool_iff. rewrite E.
    rewrite <- Zle_Qle. lia.
  - apply eq_true_iff_eq. rewrite Qle_bool_iff, E, <- Zle_Qle, Nat.leb_le. lia.
Qed.

(** ** rerankMatches *)

Lemma fold_pushValid (matches : list Match.t) (entries : list Js.value) :
  forall acc,
  fold_left (Gemini.pushValid matches) entries acc =
  acc ++ flat_map (fun idx => match Gemini.validate matches idx with
                              | Some r => [r] | None => [] end) entries.
Proof.
  induction entries as [|idx entries IH]; intros acc; simpl.
  - now rewrite app_nil_r.
  - rewrite IH. unfold Gemini.pushValid.
    destruct (Gemini.validate matches idx); [now rewrite <- app_assoc | reflexivity].
Qed.

(** One turn of the loop pushes exactly when the entry names the index of
    a candidate that has its attendee. *)
Lemma validate_chosen (matches : list Match.t) (idx : Js.value) :
  Gemini.validate matches idx =
  match chosen matches idx with
  | Some (m, a) => Some (Gemini.finalResult m a)
  | None => None
  end.
Proof.
  unfold Gemini.validate, chosen, Js.get.
  destruct (Js.toPropertyKey idx) as [i|] eqn:K.
  - destruct (bounds_of_index idx i (List.length matches) K) as [-> ->]. cbn [orb].
    destruct (List.length matches <=? i)%nat eqn:B.
    + apply Nat.leb_le in B. apply nth_error_None in B. now rewrite B.
    + destruct (nth_error matches i) as [m|]; [|reflexivity].
      now destruct (Match.attendee m).
  - now destruct (_ || _)%bool.
Qed.

Lemma slice0_firstn {A : Type} (xs : list A) (k : Z) :
  (0 <= k)%Z -> Js.slice0 xs k = firstn (Z.to_nat k) xs.
Proof.
  intros H. unfold Js.slice0. now replace (k <? 0)%Z with false by (symmetry; apply Z.ltb_ge; lia).
Qed.

Lemma slice0_incl {A : Type} (xs : list A) (k : Z) (x : A) :
  In x (Js.slice0 xs k) -> In x xs.
Proof.
  unfold Js.slice0. intros H.
  rewrite <- (firstn_skipn (Z.to_nat (if (k <? 0)%Z then Z.of_nat (List.length xs) + k else k)) xs).
  apply in_or_app. now left.
Qed.

Lemma matchDescriptionsFrom_complete (matches : list Match.t) :
  Forall (fun m => Match.attendee m <> None) matches ->
  forall idx, exists ds, Gemini.matchDescriptionsFrom idx matches = Normal ds.
Proof.
  induction 1 as [|m matches Hm _ IH]; intros idx; simpl; [eauto|].
  destruct (Match.attendee m); [|congruence].
  destruct (IH (S idx)) as [ds ->]. simpl. eauto.
Qed.

Lemma matchDescriptionsFrom_missing (matches : list Match.t) (m : Match.t) :
  In m matches -> Match.attendee m = None ->
  forall idx, Gemini.matchDescriptionsFrom idx matches = Throw TypeError.
Proof.
  induction matches as [|m' matches IH]; intros Hin Hm idx; [destruct Hin|].
  simpl. destruct Hin as [->|Hin].
  - now rewrite Hm.
  - destruct (Match.attendee m'); [|reflexivity]. now rewrite (IH Hin Hm).
Qed.

(** How a call of [rerankMatches] runs: nothing is sent when building the
    descriptions throws; otherwise one request is sent and its response
    decides. *)
Lemma rerankMatches_run (w : World) (query : string) (queryType : QueryType.t)
  (matches : list Match.t) (topK : Z) (log : list Event) :
  Gemini.rerankMatches w query queryType matches topK log =
  match Gemini.matchDescriptions matches with
  | Throw e => (Throw e, log)
  | Normal ds =>
      let prompt := RerankPrompt.mk queryType query (List.length matches) topK ds in
      (Gemini.rerankResponse (JSON_parse w) matches topK
         (generateRerank w (List.length log) prompt),
       log ++ [GenerateRerank prompt])
  end.
Proof.
  unfold Gemini.rerankMatches, bind, lift, call.
  now destruct (Gemini.matchDescriptions matches).
Qed.

Lemma rerankResponse_parsed (parse : string -> option Js.value) (matches : list Match.t)
  (topK : Z) (response : Fetched GenerateResponse) (text resultText : string) (v : Js.value) :
  resultTextOf response = Some text ->
  Gemini.cleanResultText text = Normal resultText ->
  parse resultText = Some v ->
  Gemini.rerankResponse parse matches topK response = Gemini.selectMatches matches topK v.
Proof.
  intros T C P. unfold resultTextOf in T.
  destruct response as [ | | | [data|]]; try discriminate.
  unfold Gemini.rerankResponse.
  destruct (candidates data) as [[|[t|] rest]|]; try discriminate.
  injection T as ->. rewrite C. simpl. now rewrite P.
Qed.

(** C1 (code defect).  A candidate without its attendee makes the whole
    call throw, whatever the upstream would have answered and whatever
    [topK] is: the descriptions of lines 164-171 read
    [match.attendee.first_name] before any request is sent, so the guard of
    lines 265-268, which would skip such a candidate, is never reached.
    Here the list holds one resolved candidate and one unresolved. *)
Theorem rerankMatches_throws_on_unresolved_attendee :
  forall (w : World) (query : string) (queryType : QueryType.t) (topK : Z)
         (log : list Event),
  Gemini.rerankMatches w query queryType [resolved; orphan] topK log
  = (Throw TypeError, log).
Proof. intros. now rewrite rerankMatches_run. Qed.

(** The same, for any list that holds an unresolved candidate. *)
Lemma rerankMatches_unresolved (w : World) (query : string) (queryType : QueryType.t)
  (matches : list Match.t) (topK : Z) (log : list Event) (m : Match.t) :
  In m matches -> Match.attendee m = None ->
  Gemini.rerankMatches w query queryType matches topK log = (Throw TypeError, log).
Proof.
  intros Hin Hm. rewrite rerankMatches_run. unfold Gemini.matchDescriptions.
  now rewrite (matchDescriptionsFrom_missing _ _ Hin Hm).
Qed.

Lemma rerankMatches_parsed (w : World) (query : string) (queryType : QueryType.t)
  (matches : list Match.t) (topK : Z) (log : list Event) (v : Js.value) :
  Forall (fun m => Match.attendee m <> None) matches ->
  answerParsesTo w (List.length log) v ->
  fst (Gemini.rerankMatches w query queryType matches topK log)
  = Gemini.selectMatches matches topK v.
Proof.
  intros Hall Hans. rewrite rerankMatches_run. unfold Gemini.matchDescriptions.
  destruct (matchDescriptionsFrom_complete _ Hall 0) as [ds ->]. cbv zeta. cbn [fst].
  destruct (Hans (RerankPrompt.mk queryType query (List.length matches) topK ds))
    as (text & resultText & T & C & P).
  exact (rerankResponse_parsed _ _ _ _ _ _ _ T C P).
Qed.

Lemma chosen_inv (matches : list Match.t) (idx : Js.value) (m : Match.t) (a : Attendee.t) :
  chosen matches idx = Some (m, a) ->
  exists i, Js.toPropertyKey idx = Js.Index i /\ nth_error matches i = Some m /\
            Match.attendee m = Some a.
Proof.
  unfold chosen. destruct (Js.toPropertyKey idx) as [i|]; [|discriminate].
  destruct (nth_error matches i) as [m'|] eqn:N; [|discriminate].
  destruct (Match.attendee m') as [a'|] eqn:A; [|discriminate].
  intros [= <- <-]. eauto.
Qed.

(** What the loop returns on a list of entries, each candidate resolved. *)
Lemma selected_results (matches : list Match.t) (entries : list Js.value) :
  Forall (fun m => Match.attendee m <> None) matches ->
  Forall2 (fun i r => exists m a, nth_error matches i = Some m /\
                                  Match.attendee m = Some a /\
                                  r = Gemini.finalResult m a)
          (selectedIndices matches entries)
          (flat_map (fun idx => match Gemini.validate matches idx with
                                | Some r => [r] | None => [] end) entries).
Proof.
  intros Hall. induction entries as [|idx entries IH]; simpl; [constructor|].
  apply Forall2_app; [|exact IH]. clear IH.
  rewrite validate_chosen. unfold chosen.
  destruct (Js.toPropertyKey idx) as [i|]; [|constructor].
  destruct (i <? List.length matches)%nat eqn:B.
  - apply Nat.ltb_lt in B. destruct (nth_error matches i) as [m|] eqn:N.
    + destruct (Match.attendee m) as [a|] eqn:A.
      * repeat constructor. eauto.
      * rewrite Forall_forall in Hall. exfalso. apply (Hall m); [|exact A].
        eapply nth_error_In; eassumption.
    + apply nth_error_None in N. lia.
  - apply Nat.ltb_ge in B. apply nth_error_None in B. rewrite B. constructor.
Qed.

Lemma toPropertyKey_indexEntry (i : nat) : Js.toPropertyKey (indexEntry i) = Js.Index i.
Proof.
  unfold indexEntry, Js.ofNat, Js.ofZ. cbn [Js.toPropertyKey].
  unfold Js.isInteger. cbn [Qnum Qden inject_Z]. rewrite Z.mod_1_r, Qfloor_Z.
  cbn [Z.eqb andb].
  replace (0 <=? Z.of_nat i)%Z with true by (symmetry; apply Z.leb_le; lia).
  now rewrite Nat2Z.id.
Qed.

Lemma selectedIndices_indexEntries (matches : list Match.t) (indices : list nat) :
  selectedIndices matches (map indexEntry indices)
  = filter (fun i => (i <? List.length matches)%nat) indices.
Proof.
  induction indices as [|i indices IH]; [reflexivity|].
  cbn [map selectedIndices flat_map filter]. rewrite toPropertyKey_indexEntry.
  fold (selectedIndices matches (map indexEntry indices)). rewrite IH.
  now destruct (i <? List.length matches)%nat.
Qed.

Lemma slice0_map {A B : Type} (f : A -> B) (xs : list A) (k : Z) :
  Js.slice0 (map f xs) k = map f (Js.slice0 xs k).
Proof. unfold Js.slice0. now rewrite length_map, firstn_map. Qed.

Lemma finalResult_shows (m : Match.t) (a : Attendee.t) : shows m a (Gemini.finalResult m a).
Proof. repeat split. Qed.


(** [rerankMatches] does not deduplicate.  When every candidate has its
    attendee and the upstream's text parses to an array of indices, the
    call returns one result per index in bounds among those
    [slice(0, topK)] keeps, in their order, repeated as often as the index
    is: the result at each position shows the candidate at that index and
    its attendee. *)
Theorem rerankMatches_keeps_repeats :
  forall (w : World) (query : string) (queryType : QueryType.t)
         (matches : list Match.t) (topK : Z) (log : list Event)
         (indices : list nat),
  Forall (fun m => Match.attendee m <> None) matches ->
  answerParsesTo w (List.length log) (Js.Array (map indexEntry indices)) ->
  exists out,
    fst (Gemini.rerankMatches w query queryType matches topK log) = Normal out /\
    Forall2 (fun i r => exists m a, nth_error matches i = Some m /\
                                    Match.attendee m = Some a /\
                                    shows m a r)
            (filter (fun i => (i <? List.length matches)%nat) (Js.slice0 indices topK))
            out.
Proof.
  intros w query queryType matches topK log indices Hall Hans.
  rewrite (rerankMatches_parsed _ _ _ _ _ _ _ Hall Hans). simpl.
  rewrite fold_pushValid. simpl. eexists. split; [reflexivity|].
  rewrite slice0_map, <- selectedIndices_indexEntries.
  eapply Forall2_impl; [|now apply selected_results].
  intros i r (m & a & N & A & ->). exists m, a. repeat split; assumption.
Qed.

(** In the example both entries 1 are kept, and entry 0 after them. *)
Lemma rerankMatches_keeps_repeats_witness :
  exists out,
    fst (Gemini.rerankMatches (world "[1, 1, 0]") "compilers" QueryType.request
                              [resolved; second] 25 []) = Normal out /\
    Forall2 (fun i r => exists m a, nth_error [resolved; second] i = Some m /\
                                    Match.attendee m = Some a /\
                                    shows m a r)
            (filter (fun i => (i <? List.length [resolved; second])%nat)
                    (Js.slice0 [1; 1; 0] 25))
            out.
Proof.
  apply (rerankMatches_keeps_repeats (world "[1, 1, 0]") "compilers" QueryType.request
           [resolved; second] 25 [] [1; 1; 0]).
  - repeat constructor; discriminate.
  - intros prompt. exists "[1, 1, 0]", "[1, 1, 0]". repeat split; reflexivity.
Defined.

Example repeats_ex :
  fst (Gemini.rerankMatches (world "[1, 1, 0]") "compilers" QueryType.request
                            [resolved; second] 25 [])
  = Normal [Gemini.finalResult second jane; Gemini.finalResult second jane;
            Gemini.finalResult resolved grace].
Proof. reflexivity. Qed.

(** ** The code fence *)

Lemma hasBacktick_cons (c : ascii) (s : string) :
  hasBacktick (String c s) = false ->
  c <> "`"%char /\ hasBacktick s = false.
Proof.
  unfold hasBacktick. simpl. rewrite orb_false_iff, Nat.eqb_neq.
  intros [Hc Hs]. split; [|exact Hs]. intros ->. now apply Hc.
Qed.

Lemma hasBacktick_app (s t : string) :
  hasBacktick (s ++ t) = hasBacktick s || hasBacktick t.
Proof.
  unfold hasBacktick. induction s as [|c s IH]; simpl; [reflexivity|].
  now rewrite IH, orb_assoc.
Qed.

Lemma append_assoc (s t u : string) : ((s ++ t) ++ u = s ++ (t ++ u))%string.
Proof. induction s as [|c s IH]; simpl; [reflexivity | now rewrite IH]. Qed.

Lemma append_empty_r (s : string) : (s ++ "" = s)%string.
Proof. induction s as [|c s IH]; simpl; [reflexivity | now rewrite IH]. Qed.

Lemma split_from_step (sep cur : string) (c : ascii) (s : string) :
  JsString.split_from sep 0 cur (String c s)
  = if String.prefix sep (String c s)
    then cur :: JsString.split_from sep (String.length sep - 1) "" s
    else JsString.split_from sep 0 (cur ++ String c "") s.
Proof. reflexivity. Qed.

Lemma split_from_skip (sep cur : string) (k : nat) (c : ascii) (s : string) :
  JsString.split_from sep (S k) cur (String c s) = JsString.split_from sep k cur s.
Proof. reflexivity. Qed.

Lemma prefix_fence (s : string) :
  String.prefix Gemini.fence (Gemini.fence ++ s) = true.
Proof.
  change (Gemini.fence ++ s)%string with (String "`" (String "`" (String "`" s))).
  unfold Gemini.fence. cbn [String.prefix].
  destruct (ascii_dec "`" "`"); [now destruct s|congruence].
Qed.

Lemma prefix_fence_other (c : ascii) (s : string) :
  c <> "`"%char -> String.prefix Gemini.fence (String c s) = false.
Proof.
  intros H. unfold Gemini.fence. cbn [String.prefix].
  destruct (ascii_dec "`" c); [congruence|reflexivity].
Qed.

(** Up to the next fence, [split] collects a text without backticks in
    one piece. *)
Lemma split_from_plain (s : string) :
  forall cur tail, hasBacktick s = false ->
  JsString.split_from Gemini.fence 0 cur (s ++ Gemini.fence ++ tail)
  = (cur ++ s)%string :: JsString.split_from Gemini.fence 2 "" ("``" ++ tail).
Proof.
  induction s as [|c s IH]; intros cur tail H.
  - rewrite append_empty_r.
    change (("" ++ Gemini.fence ++ tail)%string) with (String "`" ("``" ++ tail)).
    rewrite split_from_step.
    change (String "`" ("``" ++ tail)) with ((Gemini.fence ++ tail)%string).
    now rewrite prefix_fence.
  - apply hasBacktick_cons in H as [Hc Hs].
    change ((String c s ++ Gemini.fence ++ tail)%string)
      with (String c (s ++ Gemini.fence ++ tail)).
    rewrite split_from_step, (prefix_fence_other _ _ Hc), (IH _ _ Hs).
    now rewrite append_assoc.
Qed.

Lemma split_fenced (inner tail : string) :
  hasBacktick inner = false ->
  nth_error (JsString.split (Gemini.fence ++ inner ++ Gemini.fence ++ tail) Gemini.fence) 1
  = Some inner.
Proof.
  intros H. unfold JsString.split.
  pose proof (prefix_fence (inner ++ Gemini.fence ++ tail)) as P.
  change ((Gemini.fence ++ inner ++ Gemini.fence ++ tail)%string)
    with (String "`" (String "`" (String "`" (inner ++ Gemini.fence ++ tail)))) in *.
  rewrite split_from_step, P.
  change (String.length Gemini.fence - 1) with 2.
  rewrite !split_from_skip, (split_from_plain inner "" tail H).
  reflexivity.
Qed.

(** C9.  When the trimmed text opens with a code fence, what lies between
    that fence and the next one is taken, a leading [json] tag is removed
    and the rest is trimmed; [JSON.parse] then sees the bare body, so a
    fenced index array is parsed and the call returns the selection made
    from it.  (A body free of backticks; without a tag, a body that does
    not itself begin with [json].) *)
Theorem fenced_array_is_parsed :
  forall (parse : string -> option Js.value) (matches : list Match.t) (topK : Z)
         (text tag body tail : string) (entries : list Js.value),
  JsString.trim text = (Gemini.fence ++ tag ++ body ++ Gemini.fence ++ tail)%string ->
  tag = "json" \/ (tag = "" /\ JsString.startsWith body "json" = false) ->
  hasBacktick body = false ->
  parse (JsString.trim body) = Some (Js.Array entries) ->
  Gemini.cleanResultText text = Normal (JsString.trim body) /\
  Gemini.rerankResponse parse matches topK (saying text)
  = Normal (fold_left (Gemini.pushValid matches) (Js.slice0 entries topK) []).
Proof.
  intros parse matches topK text tag body tail entries Htrim Htag Hbody Hparse.
  assert (C : Gemini.cleanResultText text = Normal (JsString.trim body)).
  { unfold Gemini.cleanResultText. rewrite Htrim.
    unfold JsString.startsWith at 1. rewrite prefix_fence.
    replace (tag ++ body ++ Gemini.fence ++ tail)%string
      with ((tag ++ body) ++ Gemini.fence ++ tail)%string by apply append_assoc.
    rewrite split_fenced.
    - destruct Htag as [->|[-> Hno]].
      + replace (JsString.startsWith ("json" ++ body) "json") with true
          by (unfold JsString.startsWith; simpl; now destruct body).
        reflexivity.
      + change (("" ++ body)%string) with body. now rewrite Hno.
    - rewrite hasBacktick_app, Hbody. now destruct Htag as [->|[-> _]]. }
  split; [exact C|].
  rewrite (rerankResponse_parsed parse matches topK (saying text) text
             (JsString.trim body) (Js.Array entries));
    [reflexivity | reflexivity | exact C | exact Hparse].
Qed.

Lemma fenced_array_is_parsed_witness :
  Gemini.cleanResultText fencedAnswer
  = Normal (JsString.trim (newline ++ "[1, 0]" ++ newline)) /\
  Gemini.rerankResponse Json.parse [resolved; second] 25 (saying fencedAnswer)
  = Normal (fold_left (Gemini.pushValid [resolved; second])
                      (Js.slice0 [Js.Number (Js.Finite 1); Js.Number (Js.Finite 0)] 25) []).
Proof.
  apply (fenced_array_is_parsed Json.parse [resolved; second] 25 fencedAnswer "json"
           (newline ++ "[1, 0]" ++ newline) ""
           [Js.Number (Js.Finite 1); Js.Number (Js.Finite 0)]).
  - reflexivity.
  - left. reflexivity.
  - reflexivity.
  - reflexivity.
Defined.

Example fenced_ex :
  Gemini.rerankResponse Json.parse [resolved; second] 25 (saying fencedAnswer)
  = Normal [Gemini.finalResult second jane; Gemini.finalResult resolved grace].
Proof. reflexivity. Qed.

Example unfenced_prose_ex :
  Gemini.rerankResponse Json.parse [resolved; second] 25
    (saying "Here are the best matches: [1, 0]") = Throw SyntaxError.
Proof. reflexivity. Qed.



Example out_of_bounds_ex :
  fst (Gemini.rerankMatches (world "[1, 7, 0]") "compilers" QueryType.request
                            [resolved; second] 2 [])
  = Normal [Gemini.finalResult second jane].
Proof. reflexivity. Qed.

(** ** The similarity search *)

Section SearchFacts.

Variable cosine_distance : list float -> list float -> Q.

Lemma insertByDistance_In (x y : Sql.Scored) (sorted : list Sql.Scored) :
  In y (Sql.insertByDistance x sorted) <-> y = x \/ In y sorted.
Proof.
  induction sorted as [|z sorted IH]; simpl.
  - intuition congruence.
  - destruct (Qle_bool (fst z) (fst x)); simpl; rewrite ?IH; intuition congruence.
Qed.

Lemma insertByDistance_sorted (x : Sql.Scored) (sorted : list Sql.Scored) :
  StronglySorted byDistance sorted ->
  StronglySorted byDistance (Sql.insertByDistance x sorted).
Proof.
  induction 1 as [|z sorted Hs IH Hz]; simpl.
  - repeat constructor.
  - destruct (Qle_bool (fst z) (fst x)) eqn:E.
    + constructor; [exact IH|]. apply Forall_forall. intros y Hy.
      apply insertByDistance_In in Hy as [->|Hy].
      * apply Qle_bool_iff. exact E.
      * rewrite Forall_forall in Hz. now apply Hz.
    + assert (L : (fst x <= fst z)%Q).
      { apply Qlt_le_weak. apply Qnot_le_lt. intros C.
        apply Qle_bool_iff in C. congruence. }
      constructor; [now constructor|]. constructor; [exact L|].
      apply Forall_forall. intros y Hy. rewrite Forall_forall in Hz.
      unfold byDistance in *. eapply Qle_trans; [exact L|]. now apply Hz.
Qed.

Lemma orderByDistance_from (rows : list Sql.Scored) :
  forall acc, StronglySorted byDistance acc ->
  StronglySorted byDistance (fold_left (fun sorted x => Sql.insertByDistance x sorted) rows acc)
  /\ forall y, In y (fold_left (fun sorted x => Sql.insertByDistance x sorted) rows acc)
               <-> In y rows \/ In y acc.
Proof.
  induction rows as [|x rows IH]; intros acc Hacc; simpl.
  - split; [exact Hacc | intuition].
  - destruct (IH _ (insertByDistance_sorted x acc Hacc)) as [S I]. split; [exact S|].
    intros y. rewrite I, insertByDistance_In. intuition.
Qed.

Lemma orderByDistance_sorted (rows : list Sql.Scored) :
  StronglySorted byDistance (Sql.orderByDistance rows).
Proof. apply orderByDistance_from. constructor. Qed.

Lemma orderByDistance_In (rows : list Sql.Scored) (y : Sql.Scored) :
  In y (Sql.orderByDistance rows) <-> In y rows.
Proof.
  unfold Sql.orderByDistance.
  destruct (orderByDistance_from rows [] (SSorted_nil _)) as [_ I].
  rewrite I. simpl. tauto.
Qed.

Lemma firstn_sorted {A : Type} (R : A -> A -> Prop) (n : nat) (l : list A) :
  StronglySorted R l -> StronglySorted R (firstn n l).
Proof.
  intros H. revert n. induction H as [|x l Hs IH Hx]; intros [|n]; simpl; try constructor.
  - apply IH.
  - apply Forall_forall. intros y Hy. rewrite Forall_forall in Hx. apply Hx.
    rewrite <- (firstn_skipn n l). apply in_or_app. now left.
Qed.

Lemma map_sorted {A B : Type} (R : A -> A -> Prop) (R' : B -> B -> Prop) (f : A -> B)
  (l : list A) :
  (forall x y, R x y -> R' (f x) (f y)) ->
  StronglySorted R l -> StronglySorted R' (map f l).
Proof.
  intros Hf. induction 1 as [|x l Hs IH Hx]; simpl; constructor; [exact IH|].
  apply Forall_forall. intros y Hy. apply in_map_iff in Hy as (z & <- & Hz).
  rewrite Forall_forall in Hx. auto.
Qed.

(** A row that reaches ORDER BY passed the WHERE clause, with its
    distance. *)
Lemma scored_kept (rows : list Item.t) (query_embedding : list float)
  (match_threshold : Q) (exclude_attendee_id : option Z) (x : Sql.Scored) :
  In x (flat_map (Sql.score cosine_distance query_embedding)
          (filter (fun it => Sql.isTrue (Sql.whereClause cosine_distance query_embedding
                                           match_threshold exclude_attendee_id it)) rows)) ->
  In (snd x) rows /\
  (exists e, Item.embedding (snd x) = Some e /\ fst x = cosine_distance e query_embedding) /\
  Sql.whereClause cosine_distance query_embedding match_threshold exclude_attendee_id (snd x)
  = Some true.
Proof.
  intros H. apply in_flat_map in H as (it & Hit & Hx).
  apply filter_In in Hit as [Hin Hw]. unfold Sql.score in Hx.
  destruct (Item.embedding it) as [e|] eqn:E; [|destruct Hx].
  destruct Hx as [<-|[]]. simpl. repeat split; [exact Hin|eauto|].
  unfold Sql.isTrue in Hw.
  destruct (Sql.whereClause _ _ _ _ it) as [[|]|]; [reflexivity|discriminate|discriminate].
Qed.

Lemma whereClause_true (query_embedding : list float) (match_threshold : Q)
  (exclude_attendee_id : option Z) (it : Item.t) :
  Sql.whereClause cosine_distance query_embedding match_threshold exclude_attendee_id it
  = Some true ->
  (exists e, Item.embedding it = Some e /\
             (match_threshold < 1 - cosine_distance e query_embedding)%Q) /\
  (forall id, exclude_attendee_id = Some id -> Item.attendee_id it <> Some id).
Proof.
  unfold Sql.whereClause, Sql.similarityOf, Sql.gt3. intros H. split.
  - destruct (Item.embedding it) as [e|].
    + exists e. split; [reflexivity|].
      destruct (Qle_bool (1 - cosine_distance e query_embedding) match_threshold) eqn:L.
      * simpl in H. now destruct (Sql.or3 _ _) as [[|]|].
      * apply Qnot_le_lt. intros C. apply Qle_bool_iff in C. congruence.
    + now destruct (Sql.or3 _ _) as [[|]|].
  - intros id -> E. rewrite E in H. simpl in H. rewrite Z.eqb_refl in H.
    simpl in H. discriminate H.
Qed.

Lemma match_rows_searchResult (rows : list Item.t) (query_embedding : list float)
  (match_threshold : Q) (match_count : Z) (exclude_attendee_id : option Z) :
  (0 <= match_count)%Z ->
  exists out,
    Sql.match_rows cosine_distance rows query_embedding match_threshold match_count
                   exclude_attendee_id = Postgrest.ok out /\
    searchResult cosine_distance rows query_embedding match_threshold match_count out /\
    forall id, exclude_attendee_id = Some id ->
               Forall (fun r => Row.attendee_id r <> Some id) out.
Proof.
  intros Hk. unfold Sql.match_rows.
  replace (match_count <? 0)%Z with false by (symmetry; apply Z.ltb_ge; exact Hk).
  eexists. split; [reflexivity|].
  set (scored := flat_map _ _).
  assert (K : forall r, In r (map Sql.project (firstn (Z.to_nat match_count)
                                                     (Sql.orderByDistance scored))) ->
              exists x, r = Sql.project x /\ In x scored).
  { intros r Hr. apply in_map_iff in Hr as (x & <- & Hx). exists x. split; [reflexivity|].
    apply orderByDistance_In. rewrite <- (firstn_skipn (Z.to_nat match_count) _).
    apply in_or_app. now left. }
  split; [repeat split|].
  - apply map_sorted with (R := byDistance).
    + intros x y L. unfold descending, byDistance in *. simpl.
      apply Qplus_le_r. now apply Qopp_le_compat.
    + apply firstn_sorted, orderByDistance_sorted.
  - apply Forall_forall. intros r Hr. destruct (K r Hr) as (x & -> & Hx).
    apply scored_kept in Hx as (_ & (e & E & D) & W).
    apply whereClause_true in W as [(e' & E' & T) _].
    simpl. rewrite D. congruence.
  - apply Forall_forall. intros r Hr. destruct (K r Hr) as (x & -> & Hx).
    apply scored_kept in Hx as (Hin & (e & E & D) & _).
    exists (snd x), e. simpl. rewrite D. auto.
  - rewrite length_map. pose proof (firstn_le_length (Z.to_nat match_count)
                                      (Sql.orderByDistance scored)). lia.
  - intros id Hid. apply Forall_forall. intros r Hr. destruct (K r Hr) as (x & -> & Hx).
    apply scored_kept in Hx as (_ & _ & W).
    apply whereClause_true in W as [_ X]. simpl. now apply X.
Qed.

End SearchFacts.

(** C4.  For a non-negative [match_count], match_offerings and
    match_requests return rows ordered by descending similarity, where the
    similarity of a row is one minus the cosine distance between the stored
    embedding and the query embedding; every row lies strictly above
    [match_threshold]; and there are at most [match_count] of them. *)
Theorem vector_search_is_ordered_filtered_and_limited :
  forall (cosine_distance : list float -> list float -> Q) (db : Sql.Database)
         (query_embedding : list float) (match_threshold : Q) (match_count : Z)
         (exclude_attendee_id : option Z),
  (0 <= match_count)%Z ->
  (exists out,
     Sql.match_offerings cosine_distance db query_embedding match_threshold match_count
                         exclude_attendee_id = Postgrest.ok out /\
     searchResult cosine_distance (Sql.offerings db) query_embedding match_threshold
                  match_count out) /\
  (exists out,
     Sql.match_requests cosine_distance db query_embedding match_threshold match_count
                        exclude_attendee_id = Postgrest.ok out /\
     searchResult cosine_distance (Sql.requests db) query_embedding match_threshold
                  match_count out).
Proof.
  intros cd db q th k ex Hk. split.
  - destruct (match_rows_searchResult cd (Sql.offerings db) q th k ex Hk) as (out & E & S & _).
    exists out. split; assumption.
  - destruct (match_rows_searchResult cd (Sql.requests db) q th k ex Hk) as (out & E & S & _).
    exists out. split; assumption.
Qed.

Lemma vector_search_witness :
  (exists out,
     Sql.match_offerings toyDistance store [1%float] (1 # 2)%Q 50 None = Postgrest.ok out /\
     searchResult toyDistance (Sql.offerings store) [1%float] (1 # 2)%Q 50 out) /\
  (exists out,
     Sql.match_requests toyDistance store [1%float] (1 # 2)%Q 50 None = Postgrest.ok out /\
     searchResult toyDistance (Sql.requests store) [1%float] (1 # 2)%Q 50 out).
Proof.
  apply (vector_search_is_ordered_filtered_and_limited toyDistance store [1%float]
           (1 # 2)%Q 50 None).
  lia.
Defined.

Example match_offerings_ex :
  Sql.match_offerings toyDistance store [1%float] (1 # 2)%Q 50 (Some 1%Z)
  = Postgrest.ok [Row.mk (Some 2%Z) "Happy to mentor on compilers" (1 - (1 # 10))%Q].
Proof. reflexivity. Qed.

(** ** generateEmbedding *)

(** C8 (code defect).  The function guards against a missing and against
    an empty vector, not against one whose norm is zero: on the vector
    (0, 0, 0) line 74 computes the norm 0 and line 75 divides by it, so the
    call succeeds and returns three NaNs, whose norm is not 1. *)
Theorem generateEmbedding_of_zero_vector :
  forall (log : list Event),
  fst (Gemini.generateEmbedding
         (worldOver store [0%float; 0%float; 0%float] "[]") "mentoring" log)
  = Normal [nan; nan; nan]
  /\ PrimFloat.eqb (Gemini.l2norm [nan; nan; nan]) 1%float = false.
Proof. intros log. split; reflexivity. Qed.

(** Away from zero the quotient is taken as computed in binary64, so the
    norm of the result is 1 only up to rounding: on (1, 1) it is the
    double just below 1. *)
Example generateEmbedding_rounds :
  fst (Gemini.generateEmbedding (worldOver store [1%float; 1%float] "[]") "mentoring" [])
  = Normal [0x1.6a09e667f3bccp-1%float; 0x1.6a09e667f3bccp-1%float]
  /\ Gemini.l2norm [0x1.6a09e667f3bccp-1%float; 0x1.6a09e667f3bccp-1%float]
     = 0x1.fffffffffffffp-1%float.
Proof. split; reflexivity. Qed.

Example generateEmbedding_exact :
  fst (Gemini.generateEmbedding (world "[]") "mentoring" [])
  = Normal [0x1.3333333333333p-1%float; 0x1.999999999999ap-1%float].
Proof. reflexivity. Qed.

(** ** Rules for runs *)

Lemma triple_ret {A : Type} (Pre : list Event -> Prop) (a : A)
  (N : A -> list Event -> Prop) (E : Exn -> list Event -> Prop) :
  (forall log, Pre log -> N a log) -> triple Pre (ret a) N E.
Proof. intros H log P. simpl. auto. Qed.

Lemma triple_throw {A : Type} (Pre : list Event -> Prop) (e : Exn)
  (N : A -> list Event -> Prop) (E : Exn -> list Event -> Prop) :
  (forall log, Pre log -> E e log) -> triple Pre (throw e) N E.
Proof. intros H log P. simpl. auto. Qed.

Lemma triple_lift {A : Type} (Pre : list Event -> Prop) (c : Completion A)
  (N : A -> list Event -> Prop) (E : Exn -> list Event -> Prop) :
  (forall log, Pre log -> match c with Normal a => N a log | Throw e => E e log end) ->
  triple Pre (lift c) N E.
Proof. intros H log P. unfold lift. specialize (H log P). now destruct c. Qed.

Lemma triple_bind {A B : Type} (Pre : list Event -> Prop) (m : M A) (k : A -> M B)
  (Mid : A -> list Event -> Prop)
  (N : B -> list Event -> Prop) (E : Exn -> list Event -> Prop) :
  triple Pre m Mid E ->
  (forall a, triple (Mid a) (k a) N E) ->
  triple Pre (bind m k) N E.
Proof.
  intros Hm Hk log P. unfold bind. specialize (Hm log P).
  destruct (m log) as [[a|e] log']; [|exact Hm]. exact (Hk a log' Hm).
Qed.

Lemma triple_catch {A : Type} (Pre : list Event -> Prop) (m : M A) (h : Exn -> M A)
  (Mid : Exn -> list Event -> Prop)
  (N : A -> list Event -> Prop) (E : Exn -> list Event -> Prop) :
  triple Pre m N Mid ->
  (forall e, triple (Mid e) (h e) N E) ->
  triple Pre (catch m h) N E.
Proof.
  intros Hm Hh log P. unfold catch. specialize (Hm log P).
  destruct (m log) as [[a|e] log']; [exact Hm|]. exact (Hh e log' Hm).
Qed.

Lemma triple_call {A : Type} (Pre : list Event -> Prop) (ev : Event) (answer : nat -> A)
  (N : A -> list Event -> Prop) (E : Exn -> list Event -> Prop) :
  (forall log, Pre log -> N (answer (List.length log)) (log ++ [ev])) ->
  triple Pre (call ev answer) N E.
Proof. intros H log P. unfold call. auto. Qed.

Lemma triple_weaken {A : Type} (Pre Pre' : list Event -> Prop) (m : M A)
  (N N' : A -> list Event -> Prop) (E E' : Exn -> list Event -> Prop) :
  triple Pre' m N' E' ->
  (forall log, Pre log -> Pre' log) ->
  (forall a log, N' a log -> N a log) ->
  (forall e log, E' e log -> E e log) ->
  triple Pre m N E.
Proof.
  intros H HP HN HE log P. specialize (H log (HP log P)).
  destruct (m log) as [[a|e] log']; auto.
Qed.

Lemma triple_forEach {A S : Type} (I : S -> list Event -> Prop)
  (E : Exn -> list Event -> Prop) (body : S -> A -> M S) (xs : list A) :
  (forall acc x, In x xs -> triple (I acc) (body acc x) I E) ->
  forall acc, triple (I acc) (forEach xs body acc) I E.
Proof.
  induction xs as [|x xs IH]; intros Hbody acc; simpl.
  - now apply triple_ret.
  - eapply triple_bind.
    + apply Hbody. now left.
    + intros acc'. apply IH. intros acc'' y Hy. apply Hbody. now right.
Qed.

Lemma triple_mapAll {A B : Type} (I : list Event -> Prop) (R : A -> B -> Prop)
  (E : Exn -> list Event -> Prop) (f : A -> M B) (xs : list A) :
  (forall x, In x xs -> triple I (f x) (fun y log => R x y /\ I log) E) ->
  triple I (mapAll f xs) (fun ys log => Forall2 R xs ys /\ I log) E.
Proof.
  induction xs as [|x xs IH]; intros Hf; simpl.
  - apply triple_ret. auto.
  - eapply triple_bind; [apply Hf; now left|]. intros y. simpl.
    intros log [Hy HI]. unfold bind.
    assert (T : triple I (mapAll f xs) (fun ys log => Forall2 R xs ys /\ I log) E).
    { apply IH. intros z Hz. apply Hf. now right. }
    specialize (T log HI). destruct (mapAll f xs log) as [[ys|e] log']; [|exact T].
    simpl. destruct T as [F HI']. auto.
Qed.

(** ** A rejected re-rank answer ends the request *)

Lemma rerankRejected_snoc (w : World) (log : list Event) (ev : Event) :
  rerankRejected w (log ++ [ev]) ->
  rerankRejected w log \/
  exists prompt, ev = GenerateRerank prompt /\
    unparsable (JSON_parse w) (generateRerank w (List.length log) prompt) = true.
Proof.
  intros (before & prompt & after & E & U).
  destruct after as [|x after _] using rev_ind.
  - apply app_inj_tail in E as [-> ->]. right. eauto.
  - left. rewrite app_comm_cons, app_assoc in E. apply app_inj_tail in E as [-> _].
    exists before, prompt, after. auto.
Qed.

(** [safe]: as long as no re-rank answer has been rejected, the
    computation either keeps it so or throws.  [quiet]: it keeps it so
    even when it throws. *)
Lemma safe_call {A : Type} (w : World) (ev : Event) (answer : nat -> A)
  (E : Exn -> list Event -> Prop) :
  isRerank ev = false ->
  triple (fun log => ~ rerankRejected w log) (call ev answer)
         (fun _ log => ~ rerankRejected w log) E.
Proof.
  intros Hev. apply triple_call. intros log Hlog R.
  apply rerankRejected_snoc in R as [R|(prompt & -> & _)]; [auto|discriminate].
Qed.

Lemma unparsable_throws (parse : string -> option Js.value) (matches : list Match.t)
  (topK : Z) (response : Fetched GenerateResponse) :
  unparsable parse response = true ->
  exists e, Gemini.rerankResponse parse matches topK response = Throw e.
Proof.
  unfold unparsable, resultTextOf, Gemini.rerankResponse.
  destruct response as [ | | | [data|]]; try discriminate.
  destruct (candidates data) as [[|[text|] rest]|]; try discriminate.
  destruct (Gemini.cleanResultText text) as [resultText|e]; simpl; [|eauto].
  destruct (parse resultText) as [[ | | | | | ]|]; simpl; try discriminate; eauto.
Qed.

Lemma safe_rerankMatches (w : World) (query : string) (queryType : QueryType.t)
  (matches : list Match.t) (topK : Z) :
  triple (fun log => ~ rerankRejected w log)
         (Gemini.rerankMatches w query queryType matches topK)
         (fun _ log => ~ rerankRejected w log) (fun _ _ => True).
Proof.
  intros log Hlog. rewrite rerankMatches_run.
  destruct (Gemini.matchDescriptions matches) as [ds|e]; [|exact I]. cbv zeta.
  destruct (Gemini.rerankResponse _ _ _ _) as [out|e] eqn:R; [|exact I].
  intros Rej. apply rerankRejected_snoc in Rej as [Rej|(prompt & [= <-] & U)]; [auto|].
  destruct (unparsable_throws _ matches topK _ U) as [e E]. congruence.
Qed.

Lemma quiet_query {A : Type} (w : World) (ev : Event) (answer : Postgrest.Result A)
  (E : Exn -> list Event -> Prop) :
  isRerank ev = false ->
  triple (fun log => ~ rerankRejected w log) (query w ev answer)
         (fun _ log => ~ rerankRejected w log) E.
Proof. intros H. unfold query. now apply safe_call. Qed.

Lemma quiet_lookupAttendee (w : World) (match_ : Row.t) (E : Exn -> list Event -> Prop) :
  triple (fun log => ~ rerankRejected w log) (lookupAttendee w match_)
         (fun _ log => ~ rerankRejected w log) E.
Proof.
  unfold lookupAttendee. eapply triple_bind; [now apply quiet_query|].
  intros response.
  destruct (Postgrest.error response), (Postgrest.data response); apply triple_ret; auto.
Qed.

Lemma safe_generateEmbedding (w : World) (text : string) :
  triple (fun log => ~ rerankRejected w log) (Gemini.generateEmbedding w text)
         (fun _ log => ~ rerankRejected w log) (fun _ _ => True).
Proof.
  unfold Gemini.generateEmbedding. destruct (text =? "")%string.
  - now apply triple_throw.
  - eapply triple_bind; [now apply safe_call|]. intros r. apply triple_lift.
    intros log H. now destruct (Gemini.embeddingOfResponse r).
Qed.

Lemma safe_generateSyntheticOffering (w : World) (request : string) :
  triple (fun log => ~ rerankRejected w log) (Gemini.generateSyntheticOffering w request)
         (fun _ log => ~ rerankRejected w log) (fun _ _ => True).
Proof.
  unfold Gemini.generateSyntheticOffering. destruct (request =? "")%string.
  - now apply triple_throw.
  - eapply triple_bind; [now apply safe_call|]. intros r. apply triple_lift.
    intros log H. now destruct (Gemini.syntheticOfferingOfResponse r).
Qed.

Lemma safe_rpc (w : World) (c : Collection) (q : list float) (th : Q) (k : Z)
  (ex : option Z) :
  triple (fun log => ~ rerankRejected w log) (rpc w c q th k ex)
         (fun _ log => ~ rerankRejected w log) (fun _ _ => True).
Proof. unfold rpc. now apply quiet_query. Qed.

Lemma safe_mapAll_lookup (w : World) (rows : list Row.t) (E : Exn -> list Event -> Prop) :
  triple (fun log => ~ rerankRejected w log) (mapAll (lookupAttendee w) rows)
         (fun _ log => ~ rerankRejected w log) E.
Proof.
  eapply triple_weaken.
  - apply (triple_mapAll (fun log => ~ rerankRejected w log) (fun _ _ => True) E).
    intros x _. eapply triple_weaken; [apply (quiet_lookupAttendee w x E)| | |]; auto.
  - auto.
  - intros a log [_ H]. exact H.
  - auto.
Qed.

(** The last step of every handler: its [catch] turns a throw into a 500. *)
Lemma caught_is_500 {A : Type} (w : World) (body : M (Response A)) :
  triple (fun log => ~ rerankRejected w log) body
         (fun _ log => ~ rerankRejected w log) (fun _ _ => True) ->
  rerankRejected w (snd (catch body (fun error => ret (Failure 500 (message error))) [])) ->
  exists msg,
    fst (catch body (fun error => ret (Failure 500 (message error))) [])
    = Normal (Failure 500 msg).
Proof.
  intros T. unfold catch.
  assert (G : ~ rerankRejected w []).
  { intros (before & prompt & after & E & _). now destruct before. }
  specialize (T [] G). destruct (body []) as [[a|e] log']; simpl.
  - intros R. contradiction.
  - eauto.
Qed.

Lemma rejected_nil (w : World) : ~ rerankRejected w [].
Proof. intros (before & prompt & after & E & _). now destruct before. Qed.

Lemma search_by_request_500 (w : World) (req : Incoming) :
  rerankRejected w (snd (search_by_request w req [])) ->
  exists msg, fst (search_by_request w req []) = Normal (Failure 500 msg).
Proof.
  destruct req as [ |thrown|field]; simpl.
  - intros R. now apply rejected_nil in R.
  - eauto.
  - apply caught_is_500.
    destruct field as [[ | | |request| | ]|];
      try (now apply triple_ret); try (now apply triple_throw).
    destruct request as [|c request]; [now apply triple_ret|].
    eapply triple_bind; [apply safe_generateSyntheticOffering|]. intros s.
    eapply triple_bind; [apply safe_generateEmbedding|]. intros q.
    eapply triple_bind; [apply safe_rpc|]. intros r.
    destruct (Postgrest.error r); [now apply triple_throw|].
    destruct (isEmpty (Postgrest.data r)); [now apply triple_ret|]. cbv zeta.
    eapply triple_bind.
    + apply (triple_weaken (fun log => ~ rerankRejected w log)
               (fun log => ~ rerankRejected w log) _
               (fun _ log => ~ rerankRejected w log)
               (fun ys log => Forall2 (fun _ _ => True)
                                match Postgrest.data r with Some rows => rows | None => [] end
                                ys /\ ~ rerankRejected w log)
               (fun _ _ => True) (fun _ _ => True)); auto; [|tauto].
      apply triple_mapAll. intros x _.
      apply triple_catch with (Mid := fun _ log => ~ rerankRejected w log).
      * apply (triple_weaken (fun log => ~ rerankRejected w log)
                 (fun log => ~ rerankRejected w log) _
                 (fun _ log => True /\ ~ rerankRejected w log)
                 (fun _ log => ~ rerankRejected w log)
                 (fun _ log => ~ rerankRejected w log)
                 (fun _ log => ~ rerankRejected w log)); auto.
        apply quiet_lookupAttendee.
      * intros e. apply triple_ret. auto.
    + intros ms. eapply triple_bind; [apply safe_rerankMatches|].
      intros out. now apply triple_ret.
Qed.

Lemma search_by_offering_500 (w : World) (req : Incoming) :
  rerankRejected w (snd (search_by_offering w req [])) ->
  exists msg, fst (search_by_offering w req []) = Normal (Failure 500 msg).
Proof.
  destruct req as [ |thrown|field]; simpl.
  - intros R. now apply rejected_nil in R.
  - eauto.
  - apply caught_is_500.
    destruct field as [[ | | |offering| | ]|];
      try (now apply triple_ret); try (now apply triple_throw).
    destruct offering as [|c offering]; [now apply triple_ret|].
    eapply triple_bind; [apply safe_generateEmbedding|]. intros q.
    eapply triple_bind; [apply safe_rpc|]. intros r.
    destruct (Postgrest.error r); [now apply triple_throw|].
    destruct (isEmpty (Postgrest.data r)); [now apply triple_ret|]. cbv zeta.
    eapply triple_bind; [apply safe_mapAll_lookup|].
    intros ms. eapply triple_bind; [apply safe_rerankMatches|].
    intros out. now apply triple_ret.
Qed.

Lemma safe_pushGroup (w : World) (queryType : QueryType.t) (text : string)
  (groups : list Group.t) (response : Postgrest.Result (list Row.t)) :
  triple (fun log => ~ rerankRejected w log) (pushGroup w queryType text groups response)
         (fun _ log => ~ rerankRejected w log) (fun _ _ => True).
Proof.
  unfold pushGroup.
  destruct (Postgrest.error response); [now apply triple_ret|].
  destruct (isEmpty (Postgrest.data response)); [now apply triple_ret|].
  eapply triple_bind; [apply safe_mapAll_lookup|]. intros ms. cbv zeta.
  destruct (nonNull ms) as [|m valid]; [now apply triple_ret|].
  eapply triple_bind; [apply safe_rerankMatches|].
  intros out. now apply triple_ret.
Qed.

Lemma safe_findAttendee (w : World) (name : string) :
  triple (fun log => ~ rerankRejected w log) (findAttendee w name)
         (fun _ log => ~ rerankRejected w log) (fun _ _ => True).
Proof.
  unfold findAttendee. cbv zeta.
  apply triple_bind with (Mid := fun _ log => ~ rerankRejected w log).
  { destruct (2 <=? _)%nat; [|now apply triple_ret].
    eapply triple_bind; [now apply quiet_query|]. intros r. now apply triple_ret. }
  intros s1. apply triple_bind with (Mid := fun _ log => ~ rerankRejected w log).
  { destruct (isEmpty (fst s1)); [|now apply triple_ret].
    eapply triple_bind; [now apply quiet_query|]. intros r. now apply triple_ret. }
  intros s2. apply triple_bind with (Mid := fun _ log => ~ rerankRejected w log).
  { destruct (isEmpty (fst s2) && _)%bool; [|now apply triple_ret].
    eapply triple_bind; [now apply quiet_query|]. intros r. now apply triple_ret. }
  intros s3. destruct (snd s3); [now apply triple_throw|].
  destruct (fst s3) as [[|a l]|]; now apply triple_ret.
Qed.

Lemma safe_bidirectional (w : World) (attendee : Attendee.t) :
  triple (fun log => ~ rerankRejected w log) (bidirectional w attendee)
         (fun _ log => ~ rerankRejected w log) (fun _ _ => True).
Proof.
  unfold bidirectional. cbv zeta.
  eapply triple_bind; [now apply quiet_query|]. intros os.
  destruct (Postgrest.error os); [now apply triple_throw|].
  eapply triple_bind; [now apply quiet_query|]. intros rs.
  destruct (Postgrest.error rs); [now apply triple_throw|].
  apply triple_bind with (Mid := fun _ log => ~ rerankRejected w log).
  { apply (triple_forEach (fun _ log => ~ rerankRejected w log)).
    intros acc x _. unfold requestStep.
    eapply triple_bind; [apply safe_generateSyntheticOffering|]. intros s.
    eapply triple_bind; [apply safe_generateEmbedding|]. intros q.
    eapply triple_bind; [apply safe_rpc|]. intros r. apply safe_pushGroup. }
  intros helpers. apply triple_bind with (Mid := fun _ log => ~ rerankRejected w log).
  { apply (triple_forEach (fun _ log => ~ rerankRejected w log)).
    intros acc x _. unfold offeringStep.
    eapply triple_bind; [apply safe_generateEmbedding|]. intros q.
    eapply triple_bind; [apply safe_rpc|]. intros r. apply safe_pushGroup. }
  intros helped. now apply triple_ret.
Qed.

Lemma search_by_username_500 (w : World) (req : Incoming) :
  rerankRejected w (snd (search_by_username w req [])) ->
  exists msg, fst (search_by_username w req []) = Normal (Failure 500 msg).
Proof.
  destruct req as [ |thrown|field]; simpl.
  - intros R. now apply rejected_nil in R.
  - eauto.
  - apply caught_is_500.
    destruct field as [[ | | |name| | ]|]; try (now apply triple_ret).
    destruct name as [|c name]; [now apply triple_ret|].
    eapply triple_bind; [apply safe_findAttendee|].
    intros [attendee|]; [apply safe_bidirectional | now apply triple_ret].
Qed.

(** C2, as the code has it.  Whenever the text the re-ranker's upstream
    returned is rejected by [JSON.parse], or is read as a value that is
    neither an array nor a string, [rerankMatches] throws and each of the
    three entry points answers with status 500 and the error's message:
    none of them falls back to the similarity order. *)
Theorem rejected_rerank_is_answered_500 :
  forall (w : World) (req : Incoming),
  (rerankRejected w (snd (search_by_request w req [])) ->
   exists msg, fst (search_by_request w req []) = Normal (Failure 500 msg)) /\
  (rerankRejected w (snd (search_by_offering w req [])) ->
   exists msg, fst (search_by_offering w req []) = Normal (Failure 500 msg)) /\
  (rerankRejected w (snd (search_by_username w req [])) ->
   exists msg, fst (search_by_username w req []) = Normal (Failure 500 msg)).
Proof.
  intros w req. split; [|split].
  - apply search_by_request_500.
  - apply search_by_offering_500.
  - apply search_by_username_500.
Qed.

(** C2, as stated, fails: the vector search found two candidates, the
    re-ranker answered in prose, and the request is answered with an
    error instead of those candidates. *)
Lemma rejected_rerank_is_no_fallback :
  Postgrest.data (Sql.match_offerings toyDistance store
                    [0x1.3333333333333p-1%float; 0x1.999999999999ap-1%float]
                    threshold 50 None)
  = Some [Row.mk (Some 2%Z) "Happy to mentor on compilers" (1 - (1 # 10))%Q;
          Row.mk (Some 1%Z) "I can teach analysis" (1 - (1 # 10))%Q]
  /\ Json.parse prose = None
  /\ fst (search_by_request (world prose) mentorRequest [])
     = Normal (Failure 500 "SyntaxError").
Proof. repeat split; reflexivity. Qed.

Lemma rejected_rerank_is_answered_500_witness :
  exists msg, fst (search_by_request (world prose) mentorRequest []) = Normal (Failure 500 msg).
Proof.
  apply (proj1 (rejected_rerank_is_answered_500 (world prose) mentorRequest)).
  exists (firstn 5 (snd (search_by_request (world prose) mentorRequest []))).
  eexists. exists []. split; reflexivity.
Defined.

(** ** How the calls of a handler run *)

Lemma run_generateSyntheticOffering (w : World) (request s : string) (log : list Event) :
  request <> "" ->
  Gemini.syntheticOfferingOfResponse (generateSynthetic w (List.length log) request)
  = Normal s ->
  Gemini.generateSyntheticOffering w request log
  = (Normal s, log ++ [GenerateSynthetic request]).
Proof.
  intros Hne Hs. unfold Gemini.generateSyntheticOffering.
  apply String.eqb_neq in Hne. rewrite Hne. unfold bind, call, lift. now rewrite Hs.
Qed.

Lemma run_generateEmbedding (w : World) (text : string) (e : list float)
  (log : list Event) :
  text <> "" ->
  Gemini.embeddingOfResponse (embedContent w (List.length log) text) = Normal e ->
  Gemini.generateEmbedding w text log = (Normal e, log ++ [EmbedContent text]).
Proof.
  intros Hne He. unfold Gemini.generateEmbedding.
  apply String.eqb_neq in Hne. rewrite Hne. unfold bind, call, lift. now rewrite He.
Qed.

Lemma run_query {A : Type} (w : World) (ev : Event) (answer : Postgrest.Result A)
  (log : list Event) :
  dbFault w (List.length log) = None ->
  query w ev answer log = (Normal answer, log ++ [ev]).
Proof. intros H. unfold query, call. now rewrite H. Qed.

Lemma run_rpc (w : World) (c : Collection) (q : list float) (th : Q) (k : Z)
  (ex : option Z) (log : list Event) :
  dbFault w (List.length log) = None ->
  rpc w c q th k ex log
  = (Normal (Sql.match_rows (cosine_distance w) (Sql.table (db w) c) q th k ex),
     log ++ [RpcMatch c q th k ex]).
Proof. intros H. unfold rpc. now apply run_query. Qed.

(** C7.  In free-text request mode and in free-text offering mode, when
    the vector search answers with no rows the entry point returns
    [{ query, matches: [] }] at once: the trace of the request ends with
    the search, and holds no call to the re-ranker. *)
Theorem empty_search_short_circuits :
  (forall (w : World) (request syntheticOffering : string) (queryEmbedding : list float),
     request <> "" ->
     Gemini.syntheticOfferingOfResponse (generateSynthetic w 0 request)
     = Normal syntheticOffering ->
     syntheticOffering <> "" ->
     Gemini.embeddingOfResponse (embedContent w 1 syntheticOffering)
     = Normal queryEmbedding ->
     dbFault w 2 = None ->
     Sql.match_offerings (cosine_distance w) (db w) queryEmbedding threshold 50 None
     = Postgrest.ok [] ->
     search_by_request w (Post (Some (Js.Str request))) []
     = (Normal (Success (Flat.mk request [])),
        [GenerateSynthetic request; EmbedContent syntheticOffering;
         RpcMatch Offerings queryEmbedding threshold 50 None])
     /\ rerankCalls (snd (search_by_request w (Post (Some (Js.Str request))) [])) = [])
  /\
  (forall (w : World) (offering : string) (queryEmbedding : list float),
     offering <> "" ->
     Gemini.embeddingOfResponse (embedContent w 0 offering) = Normal queryEmbedding ->
     dbFault w 1 = None ->
     Sql.match_requests (cosine_distance w) (db w) queryEmbedding threshold 50 None
     = Postgrest.ok [] ->
     search_by_offering w (Post (Some (Js.Str offering))) []
     = (Normal (Success (Flat.mk offering [])),
        [EmbedContent offering; RpcMatch Requests queryEmbedding threshold 50 None])
     /\ rerankCalls (snd (search_by_offering w (Post (Some (Js.Str offering))) [])) = []).
Proof.
  split.
  - intros w request s q Hreq Hs Hne Hq Hf Hrows.
    assert (R : search_by_request w (Post (Some (Js.Str request))) []
                = (Normal (Success (Flat.mk request [])),
                   [GenerateSynthetic request; EmbedContent s;
                    RpcMatch Offerings q threshold 50 None])).
    { destruct request as [|c request]; [congruence|].
      unfold search_by_request, catch, bind.
      rewrite (run_generateSyntheticOffering w _ s [] Hreq Hs).
      rewrite (run_generateEmbedding w s q
                 ([] ++ [GenerateSynthetic (String c request)]) Hne Hq).
      rewrite (run_rpc w Offerings q threshold 50 None
                 (([] ++ [GenerateSynthetic (String c request)]) ++ [EmbedContent s]) Hf).
      unfold Sql.match_offerings in Hrows.
      change (Sql.table (db w) Offerings) with (Sql.offerings (db w)).
      rewrite Hrows. reflexivity. }
    split; [exact R|]. now rewrite R.
  - intros w offering q Hreq Hq Hf Hrows.
    assert (R : search_by_offering w (Post (Some (Js.Str offering))) []
                = (Normal (Success (Flat.mk offering [])),
                   [EmbedContent offering; RpcMatch Requests q threshold 50 None])).
    { destruct offering as [|c offering]; [congruence|].
      unfold search_by_offering, catch, bind.
      rewrite (run_generateEmbedding w _ q [] Hreq Hq).
      rewrite (run_rpc w Requests q threshold 50 None
                 ([] ++ [EmbedContent (String c offering)]) Hf).
      unfold Sql.match_requests in Hrows.
      change (Sql.table (db w) Requests) with (Sql.requests (db w)).
      rewrite Hrows. reflexivity. }
    split; [exact R|]. now rewrite R.
Qed.

Lemma empty_search_short_circuits_witness :
  search_by_request (worldOver bare [3%float; 4%float] "[]")
                    (Post (Some (Js.Str "Looking for a compilers mentor"))) []
  = (Normal (Success (Flat.mk "Looking for a compilers mentor" [])),
     [GenerateSynthetic "Looking for a compilers mentor";
      EmbedContent "Happy to help. Looking for a compilers mentor";
      RpcMatch Offerings [0x1.3333333333333p-1%float; 0x1.999999999999ap-1%float]
               threshold 50 None])
  /\ rerankCalls (snd (search_by_request (worldOver bare [3%float; 4%float] "[]")
                         (Post (Some (Js.Str "Looking for a compilers mentor"))) [])) = [].
Proof.
  apply (proj1 empty_search_short_circuits (worldOver bare [3%float; 4%float] "[]")
           "Looking for a compilers mentor"
           "Happy to help. Looking for a compilers mentor"
           [0x1.3333333333333p-1%float; 0x1.999999999999ap-1%float]).
  - discriminate.
  - reflexivity.
  - discriminate.
  - reflexivity.
  - reflexivity.
  - reflexivity.
Defined.

(** ** Which groups an identity lookup returns *)

Lemma rerankCalls_app (l1 l2 : list Event) :
  rerankCalls (l1 ++ l2) = rerankCalls l1 ++ rerankCalls l2.
Proof. unfold rerankCalls. apply flat_map_app. Qed.

Lemma rerankCalls_snoc (log : list Event) (ev : Event) :
  isRerank ev = false -> rerankCalls (log ++ [ev]) = rerankCalls log.
Proof.
  intros H. rewrite rerankCalls_app. destruct ev; try discriminate; simpl; apply app_nil_r.
Qed.

Section Unchanged.

(** A property of the trace that a call other than a re-rank request
    leaves as it is. *)
Variable I : list Event -> Prop.
Hypothesis I_quiet : forall log ev, isRerank ev = false -> I log -> I (log ++ [ev]).

Lemma same_call {A : Type} (ev : Event) (answer : nat -> A)
  (E : Exn -> list Event -> Prop) :
  isRerank ev = false -> triple I (call ev answer) (fun _ log => I log) E.
Proof.
  intros H. apply triple_call. intros log HI. now apply I_quiet.
Qed.

Lemma same_query {A : Type} (w : World) (ev : Event) (answer : Postgrest.Result A)
  (E : Exn -> list Event -> Prop) :
  isRerank ev = false -> triple I (query w ev answer) (fun _ log => I log) E.
Proof. intros H. unfold query. now apply same_call. Qed.

Lemma same_generateEmbedding (w : World) (text : string) :
  triple I (Gemini.generateEmbedding w text) (fun _ log => I log) (fun _ _ => True).
Proof.
  unfold Gemini.generateEmbedding. destruct (text =? "")%string.
  - now apply triple_throw.
  - apply triple_bind with (Mid := fun _ log => I log); [now apply same_call|].
    intros r. apply triple_lift. intros log H. now destruct (Gemini.embeddingOfResponse r).
Qed.

Lemma same_generateSyntheticOffering (w : World) (request : string) :
  triple I (Gemini.generateSyntheticOffering w request) (fun _ log => I log)
         (fun _ _ => True).
Proof.
  unfold Gemini.generateSyntheticOffering. destruct (request =? "")%string.
  - now apply triple_throw.
  - apply triple_bind with (Mid := fun _ log => I log); [now apply same_call|].
    intros r. apply triple_lift. intros log H.
    now destruct (Gemini.syntheticOfferingOfResponse r).
Qed.

Lemma same_rpc (w : World) (c : Collection) (q : list float) (th : Q) (k : Z)
  (ex : option Z) :
  triple I (rpc w c q th k ex) (fun _ log => I log) (fun _ _ => True).
Proof. unfold rpc. now apply same_query. Qed.

Lemma same_lookupAttendee (w : World) (match_ : Row.t) (E : Exn -> list Event -> Prop) :
  triple I (lookupAttendee w match_) (fun _ log => I log) E.
Proof.
  unfold lookupAttendee.
  apply triple_bind with (Mid := fun _ log => I log); [now apply same_query|].
  intros response.
  destruct (Postgrest.error response), (Postgrest.data response); apply triple_ret; auto.
Qed.

Lemma same_mapAll_lookup (w : World) (rows : list Row.t) (E : Exn -> list Event -> Prop) :
  triple I (mapAll (lookupAttendee w) rows) (fun _ log => I log) E.
Proof.
  apply (triple_weaken I I _ (fun _ log => I log)
           (fun ys log => Forall2 (fun _ _ => True) rows ys /\ I log) E E); auto; [|tauto].
  apply triple_mapAll. intros x _.
  apply (triple_weaken I I _ (fun _ log => True /\ I log) (fun _ log => I log) E E); auto.
  apply same_lookupAttendee.
Qed.

Lemma same_findAttendee (w : World) (name : string) :
  triple I (findAttendee w name) (fun _ log => I log) (fun _ _ => True).
Proof.
  unfold findAttendee. cbv zeta.
  apply triple_bind with (Mid := fun _ log => I log).
  { destruct (2 <=? _)%nat; [|now apply triple_ret].
    apply triple_bind with (Mid := fun _ log => I log); [now apply same_query|].
    intros r. now apply triple_ret. }
  intros s1. apply triple_bind with (Mid := fun _ log => I log).
  { destruct (isEmpty (fst s1)); [|now apply triple_ret].
    apply triple_bind with (Mid := fun _ log => I log); [now apply same_query|].
    intros r. now apply triple_ret. }
  intros s2. apply triple_bind with (Mid := fun _ log => I log).
  { destruct (isEmpty (fst s2) && _)%bool; [|now apply triple_ret].
    apply triple_bind with (Mid := fun _ log => I log); [now apply same_query|].
    intros r. now apply triple_ret. }
  intros s3. destruct (snd s3); [now apply triple_throw|].
  destruct (fst s3) as [[|a l]|]; now apply triple_ret.
Qed.

End Unchanged.

(** Such is a property that only looks at the re-rank requests of the
    trace. *)
Lemma calls_quiet (I : list Event -> Prop) :
  (forall log log', rerankCalls log' = rerankCalls log -> I log -> I log') ->
  forall log ev, isRerank ev = false -> I log -> I (log ++ [ev]).
Proof.
  intros H log ev Q HI. apply (H log); [now apply rerankCalls_snoc | exact HI].
Qed.

Lemma groupsMatchCalls_calls (before : list string) (groups : list Group.t)
  (log log' : list Event) :
  rerankCalls log' = rerankCalls log ->
  groupsMatchCalls before groups log -> groupsMatchCalls before groups log'.
Proof. unfold groupsMatchCalls. now intros ->. Qed.

Lemma pushGroup_groups (w : World) (queryType : QueryType.t) (text : string)
  (before : list string) (groups : list Group.t)
  (response : Postgrest.Result (list Row.t)) :
  triple (groupsMatchCalls before groups) (pushGroup w queryType text groups response)
         (groupsMatchCalls before) (fun _ _ => True).
Proof.
  unfold pushGroup.
  destruct (Postgrest.error response); [now apply triple_ret|].
  destruct (isEmpty (Postgrest.data response)); [now apply triple_ret|].
  apply triple_bind with (Mid := fun _ log => groupsMatchCalls before groups log).
  { apply same_mapAll_lookup. apply calls_quiet, groupsMatchCalls_calls. }
  intros ms. cbv zeta. destruct (nonNull ms) as [|m valid] eqn:V; [now apply triple_ret|].
  intros log [Hq Hc]. unfold bind. rewrite rerankMatches_run.
  destruct (Gemini.matchDescriptions (m :: valid)) as [ds|e]; [|exact I]. cbv zeta.
  destruct (Gemini.rerankResponse _ _ _ _) as [out|e]; [|exact I].
  simpl. unfold groupsMatchCalls. rewrite rerankCalls_app. simpl.
  rewrite !map_app, Hq, <- app_assoc. split; [reflexivity|].
  apply Forall_app. split; [exact Hc|]. constructor; [simpl; lia | constructor].
Qed.

Lemma steps_groups (w : World) (attendee : Attendee.t) (before : list string) :
  (forall groups req, triple (groupsMatchCalls before groups)
                             (requestStep w attendee groups req)
                             (groupsMatchCalls before) (fun _ _ => True)) /\
  (forall groups offer, triple (groupsMatchCalls before groups)
                               (offeringStep w attendee groups offer)
                               (groupsMatchCalls before) (fun _ _ => True)).
Proof.
  split; intros groups x.
  - unfold requestStep.
    apply triple_bind with (Mid := fun _ log => groupsMatchCalls before groups log);
      [apply same_generateSyntheticOffering; apply calls_quiet, groupsMatchCalls_calls|]. intros s.
    apply triple_bind with (Mid := fun _ log => groupsMatchCalls before groups log);
      [apply same_generateEmbedding; apply calls_quiet, groupsMatchCalls_calls|]. intros q.
    apply triple_bind with (Mid := fun _ log => groupsMatchCalls before groups log);
      [apply same_rpc; apply calls_quiet, groupsMatchCalls_calls|]. intros r.
    apply pushGroup_groups.
  - unfold offeringStep.
    apply triple_bind with (Mid := fun _ log => groupsMatchCalls before groups log);
      [apply same_generateEmbedding; apply calls_quiet, groupsMatchCalls_calls|]. intros q.
    apply triple_bind with (Mid := fun _ log => groupsMatchCalls before groups log);
      [apply same_rpc; apply calls_quiet, groupsMatchCalls_calls|]. intros r.
    apply pushGroup_groups.
Qed.

Lemma bidirectional_groups (w : World) (attendee : Attendee.t) :
  triple (fun log => rerankCalls log = [])
    (bidirectional w attendee)
    (fun response log =>
       match response with
       | Success body =>
           groupsMatchCalls [] (Bidirectional.people_who_can_help_you body
                                ++ Bidirectional.people_you_can_help body) log
       | _ => True
       end)
    (fun _ _ => True).
Proof.
  unfold bidirectional. cbv zeta.
  assert (S : forall log ev, isRerank ev = false ->
                             rerankCalls log = [] -> rerankCalls (log ++ [ev]) = [])
    by (intros log ev Q E; now rewrite rerankCalls_snoc).
  apply triple_bind with (Mid := fun _ log => rerankCalls log = []);
    [now apply same_query|]. intros os.
  destruct (Postgrest.error os); [now apply triple_throw|].
  apply triple_bind with (Mid := fun _ log => rerankCalls log = []);
    [now apply same_query|]. intros rs.
  destruct (Postgrest.error rs); [now apply triple_throw|].
  apply triple_bind with (Mid := fun helpers log => groupsMatchCalls [] helpers log).
  { apply (triple_weaken _ (groupsMatchCalls [] []) _ _ (groupsMatchCalls [])
             _ (fun _ _ => True)); auto.
    - apply triple_forEach. intros acc x _. apply steps_groups.
    - intros log H. unfold groupsMatchCalls. rewrite H. simpl. auto. }
  intros helpers.
  apply triple_bind
    with (Mid := fun helped log => groupsMatchCalls (map Group.yours helpers) helped log).
  { apply (triple_weaken _ (groupsMatchCalls (map Group.yours helpers) []) _ _
             (groupsMatchCalls (map Group.yours helpers)) _ (fun _ _ => True)); auto.
    - apply triple_forEach. intros acc x _. apply steps_groups.
    - intros log [H1 H2]. split; [|exact H2]. simpl. rewrite H1. simpl.
      now rewrite app_nil_r. }
  intros helped. apply triple_ret. intros log [H1 H2]. simpl.
  split; [|exact H2]. rewrite H1, map_app. reflexivity.
Qed.

Lemma rerankCallsFrom_app (l1 l2 : list Event) :
  forall tick,
  rerankCallsFrom tick (l1 ++ l2)
  = rerankCallsFrom tick l1 ++ rerankCallsFrom (tick + List.length l1) l2.
Proof.
  induction l1 as [|ev l1 IH]; intros tick.
  - simpl. now rewrite Nat.add_0_r.
  - cbn [app List.length]. rewrite Nat.add_succ_r, <- Nat.add_succ_l.
    destruct ev; cbn [rerankCallsFrom]; rewrite (IH (S tick)); reflexivity.
Qed.

Lemma rerankCallsFrom_quiet (log : list Event) (ev : Event) (tick : nat) :
  isRerank ev = false -> rerankCallsFrom tick (log ++ [ev]) = rerankCallsFrom tick log.
Proof.
  intros Q. rewrite rerankCallsFrom_app.
  destruct ev; try discriminate; simpl; apply app_nil_r.
Qed.

Lemma groupsAnswer_quiet (w : World) (before groups : list Group.t) :
  forall log ev, isRerank ev = false ->
  groupsAnswer w before groups log -> groupsAnswer w before groups (log ++ [ev]).
Proof. intros log ev Q. unfold groupsAnswer. now rewrite rerankCallsFrom_quiet. Qed.

Lemma pushGroup_answers (w : World) (queryType : QueryType.t) (text : string)
  (before groups : list Group.t) (response : Postgrest.Result (list Row.t)) :
  triple (groupsAnswer w before groups) (pushGroup w queryType text groups response)
         (groupsAnswer w before) (fun _ _ => True).
Proof.
  unfold pushGroup.
  destruct (Postgrest.error response); [now apply triple_ret|].
  destruct (isEmpty (Postgrest.data response)); [now apply triple_ret|].
  apply triple_bind with (Mid := fun _ log => groupsAnswer w before groups log).
  { apply same_mapAll_lookup. apply groupsAnswer_quiet. }
  intros ms. cbv zeta. destruct (nonNull ms) as [|m valid] eqn:V; [now apply triple_ret|].
  intros log HJ. unfold bind. rewrite rerankMatches_run.
  destruct (Gemini.matchDescriptions (m :: valid)) as [ds|e] eqn:D; [|exact I]. cbv zeta.
  destruct (Gemini.rerankResponse _ _ _ _) as [out|e] eqn:R; [|exact I].
  cbn [ret]. unfold groupsAnswer. rewrite rerankCallsFrom_app, app_assoc.
  apply Forall2_app; [exact HJ|]. cbn [rerankCallsFrom Nat.add].
  constructor; [|constructor].
  unfold groupOfCall. cbn [fst snd Group.yours Group.matches RerankPrompt.queryType].
  exists (m :: valid). split; [discriminate|]. intros earlier L.
  rewrite rerankMatches_run, D. cbv zeta. now rewrite L, R.
Qed.

Lemma steps_answers (w : World) (attendee : Attendee.t) (before : list Group.t) :
  (forall groups req, triple (groupsAnswer w before groups)
                             (requestStep w attendee groups req)
                             (groupsAnswer w before) (fun _ _ => True)) /\
  (forall groups offer, triple (groupsAnswer w before groups)
                               (offeringStep w attendee groups offer)
                               (groupsAnswer w before) (fun _ _ => True)).
Proof.
  split; intros groups x.
  - unfold requestStep.
    apply triple_bind with (Mid := fun _ log => groupsAnswer w before groups log);
      [apply same_generateSyntheticOffering; apply groupsAnswer_quiet|]. intros s.
    apply triple_bind with (Mid := fun _ log => groupsAnswer w before groups log);
      [apply same_generateEmbedding; apply groupsAnswer_quiet|]. intros q.
    apply triple_bind with (Mid := fun _ log => groupsAnswer w before groups log);
      [apply same_rpc; apply groupsAnswer_quiet|]. intros r.
    apply pushGroup_answers.
  - unfold offeringStep.
    apply triple_bind with (Mid := fun _ log => groupsAnswer w before groups log);
      [apply same_generateEmbedding; apply groupsAnswer_quiet|]. intros q.
    apply triple_bind with (Mid := fun _ log => groupsAnswer w before groups log);
      [apply same_rpc; apply groupsAnswer_quiet|]. intros r.
    apply pushGroup_answers.
Qed.

Lemma bidirectional_answers (w : World) (attendee : Attendee.t) :
  triple (fun log => rerankCallsFrom 0 log = [])
    (bidirectional w attendee)
    (fun response log =>
       match response with
       | Success body =>
           groupsAnswer w [] (Bidirectional.people_who_can_help_you body
                              ++ Bidirectional.people_you_can_help body) log
       | _ => True
       end)
    (fun _ _ => True).
Proof.
  unfold bidirectional. cbv zeta.
  assert (S : forall log ev, isRerank ev = false ->
                             rerankCallsFrom 0 log = [] ->
                             rerankCallsFrom 0 (log ++ [ev]) = [])
    by (intros log ev Q E; now rewrite rerankCallsFrom_quiet).
  apply triple_bind with (Mid := fun _ log => rerankCallsFrom 0 log = []);
    [now apply same_query|]. intros os.
  destruct (Postgrest.error os); [now apply triple_throw|].
  apply triple_bind with (Mid := fun _ log => rerankCallsFrom 0 log = []);
    [now apply same_query|]. intros rs.
  destruct (Postgrest.error rs); [now apply triple_throw|].
  apply triple_bind with (Mid := fun helpers log => groupsAnswer w [] helpers log).
  { apply (triple_weaken _ (groupsAnswer w [] []) _ _ (groupsAnswer w [])
             _ (fun _ _ => True)); auto.
    - apply triple_forEach. intros acc x _. apply steps_answers.
    - intros log H. unfold groupsAnswer. rewrite H. constructor. }
  intros helpers.
  apply triple_bind with (Mid := fun helped log => groupsAnswer w helpers helped log).
  { apply (triple_weaken _ (groupsAnswer w helpers []) _ _ (groupsAnswer w helpers)
             _ (fun _ _ => True)); auto.
    - apply triple_forEach. intros acc x _. apply steps_answers.
    - intros log H. unfold groupsAnswer in *. simpl in H. now rewrite app_nil_r. }
  intros helped. apply triple_ret. intros log H. exact H.
Qed.

Lemma search_by_username_answers (w : World) (req : Incoming) :
  triple (fun log => rerankCallsFrom 0 log = [])
    (search_by_username w req)
    (fun response log =>
       match response with
       | Success body =>
           groupsAnswer w [] (Bidirectional.people_who_can_help_you body
                              ++ Bidirectional.people_you_can_help body) log
       | _ => True
       end)
    (fun _ _ => True).
Proof.
  destruct req as [ |thrown|field]; simpl; try (now apply triple_ret).
  apply triple_catch with (Mid := fun _ _ => True); [|intros e; now apply triple_ret].
  destruct field as [[ | | |name| | ]|]; try (now apply triple_ret).
  destruct name as [|c name]; [now apply triple_ret|].
  apply triple_bind with (Mid := fun _ log => rerankCallsFrom 0 log = []).
  - apply same_findAttendee. intros log ev Q E. now rewrite rerankCallsFrom_quiet.
  - intros [attendee|]; [apply bidirectional_answers | now apply triple_ret].
Qed.

(** C3, as the code has it.  In an identity-mode result the groups are, in
    order, the requests and then the offerings for which the re-ranker was
    called, and it is called only with at least one candidate whose
    attendee was resolved: an item with no such candidate contributes no
    group.  The [matches] of a group are what [rerankMatches] returned on
    the answer to the request made for it, as they are, empty or not. *)
Theorem groups_are_the_reranked_items :
  forall (w : World) (req : Incoming) (body : Bidirectional.t),
  fst (search_by_username w req []) = Normal (Success body) ->
  map Group.yours (Bidirectional.people_who_can_help_you body
                   ++ Bidirectional.people_you_can_help body)
  = map RerankPrompt.query (rerankCalls (snd (search_by_username w req [])))
  /\ Forall (fun p => (1 <= RerankPrompt.count p)%nat)
            (rerankCalls (snd (search_by_username w req [])))
  /\ Forall2 (groupOfCall w)
             (Bidirectional.people_who_can_help_you body
              ++ Bidirectional.people_you_can_help body)
             (rerankCallsFrom 0 (snd (search_by_username w req []))).
Proof.
  intros w req body.
  assert (T : triple (fun log => rerankCalls log = [])
                (search_by_username w req)
                (fun response log =>
                   match response with
                   | Success body =>
                       groupsMatchCalls [] (Bidirectional.people_who_can_help_you body
                                            ++ Bidirectional.people_you_can_help body) log
                   | _ => True
                   end)
                (fun _ _ => True)).
  { destruct req as [ |thrown|field]; simpl; try (now apply triple_ret).
    apply triple_catch with (Mid := fun _ _ => True); [|intros e; now apply triple_ret].
    destruct field as [[ | | |name| | ]|]; try (now apply triple_ret).
    destruct name as [|c name]; [now apply triple_ret|].
    apply triple_bind with (Mid := fun _ log => rerankCalls log = []).
    - apply same_findAttendee. intros log ev Q E. now rewrite rerankCalls_snoc.
    - intros [attendee|]; [apply bidirectional_groups | now apply triple_ret]. }
  specialize (T [] eq_refl).
  pose proof (search_by_username_answers w req [] eq_refl) as A.
  destruct (search_by_username w req []) as [[response|e] log]; simpl; [|discriminate].
  intros [= ->]. destruct T as [H1 H2].
  split; [now rewrite H1|]. split; [exact H2 | exact A].
Qed.

(** C3, as stated, fails: the re-ranker answers with the empty array, and
    both groups are returned with no match in them. *)
Lemma group_with_no_matches :
  fst (search_by_username (world "[]") adaByron [])
  = Normal (Success (Bidirectional.mk
              (Summary.mk "Ada Byron" (Some "Analytical Engines") None (Some "UK"))
              [Group.mk "Looking for a compilers mentor" []]
              [Group.mk "I can teach analysis" []])).
Proof. reflexivity. Qed.

Lemma groups_are_the_reranked_items_witness :
  map Group.yours [Group.mk "Looking for a compilers mentor" [];
                   Group.mk "I can teach analysis" []]
  = map RerankPrompt.query (rerankCalls (snd (search_by_username (world "[]") adaByron [])))
  /\ Forall (fun p => (1 <= RerankPrompt.count p)%nat)
            (rerankCalls (snd (search_by_username (world "[]") adaByron [])))
  /\ Forall2 (groupOfCall (world "[]"))
             [Group.mk "Looking for a compilers mentor" [];
              Group.mk "I can teach analysis" []]
             (rerankCallsFrom 0 (snd (search_by_username (world "[]") adaByron []))).
Proof.
  apply (groups_are_the_reranked_items (world "[]") adaByron
           (Bidirectional.mk
              (Summary.mk "Ada Byron" (Some "Analytical Engines") None (Some "UK"))
              [Group.mk "Looking for a compilers mentor" []]
              [Group.mk "I can teach analysis" []])).
  reflexivity.
Defined.

(** With a re-ranker that answers [0, 0], the group of Ada Byron's request
    holds its one candidate twice. *)
Example group_as_the_reranker_answers :
  exists body,
    fst (search_by_username (world "[0, 0]") adaByron []) = Normal (Success body) /\
    map (fun g => map FinalMatch.name (Group.matches g))
        (Bidirectional.people_who_can_help_you body)
    = [["Grace Hopper"; "Grace Hopper"]].
Proof. eexists. split; reflexivity. Qed.

(** ** Self-exclusion in identity mode *)

Lemma triple_both {A : Type} (P1 P2 : list Event -> Prop) (m : M A)
  (N1 N2 : A -> list Event -> Prop) (E1 E2 : Exn -> list Event -> Prop) :
  triple P1 m N1 E1 -> triple P2 m N2 E2 ->
  triple (fun log => P1 log /\ P2 log) m
         (fun a log => N1 a log /\ N2 a log) (fun e log => E1 e log /\ E2 e log).
Proof.
  intros H1 H2 log [Q1 Q2]. specialize (H1 log Q1). specialize (H2 log Q2).
  destruct (m log) as [[a|e] log']; auto.
Qed.

(** The descriptions follow the candidates one by one. *)
Lemma matchDescriptionsFrom_each (matches : list Match.t) :
  forall idx ds, Gemini.matchDescriptionsFrom idx matches = Normal ds ->
  Forall2 (fun m d =>
             MatchDescription.attendee_id d = Match.attendee_id m /\
             forall a, Match.attendee m = Some a -> describes d (Gemini.finalResult m a))
          matches ds.
Proof.
  induction matches as [|m matches IH]; intros idx ds; simpl.
  - intros [= <-]. constructor.
  - destruct (Match.attendee m) as [a|] eqn:A; [|discriminate].
    destruct (Gemini.matchDescriptionsFrom (S idx) matches) as [ds'|e] eqn:D;
      [|discriminate].
    simpl. intros [= <-]. constructor; [|now apply (IH (S idx))].
    simpl. split; [reflexivity|]. intros a' Ha. rewrite A in Ha. injection Ha as <-.
    repeat split.
Qed.

Lemma selectMatches_chosen (matches : list Match.t) (topK : Z) (v : Js.value)
  (out : list FinalMatch.t) :
  Gemini.selectMatches matches topK v = Normal out ->
  Forall (fun r => exists m a, In m matches /\ Match.attendee m = Some a /\
                               r = Gemini.finalResult m a) out.
Proof.
  assert (F : forall entries,
             Forall (fun r => exists m a, In m matches /\ Match.attendee m = Some a /\
                                          r = Gemini.finalResult m a)
                    (fold_left (Gemini.pushValid matches) entries [])).
  { intros entries. rewrite fold_pushValid. simpl. apply Forall_forall. intros r Hr.
    apply in_flat_map in Hr as (idx & _ & Hr). rewrite validate_chosen in Hr.
    destruct (chosen matches idx) as [[m a]|] eqn:C; [|destruct Hr].
    destruct Hr as [<-|[]]. apply chosen_inv in C as (i & _ & N & A).
    exists m, a. repeat split; [eapply nth_error_In; eassumption | exact A]. }
  destruct v; simpl; try discriminate; intros [= <-]; apply F.
Qed.

Lemma rerankResponse_chosen (parse : string -> option Js.value) (matches : list Match.t)
  (topK : Z) (response : Fetched GenerateResponse) (out : list FinalMatch.t) :
  Gemini.rerankResponse parse matches topK response = Normal out ->
  Forall (fun r => exists m a, In m matches /\ Match.attendee m = Some a /\
                               r = Gemini.finalResult m a) out.
Proof.
  unfold Gemini.rerankResponse.
  destruct response as [ | | | [data|]]; try discriminate.
  destruct (candidates data) as [[|[text|] rest]|]; try discriminate.
  destruct (Gemini.cleanResultText text) as [resultText|e]; [|discriminate]. simpl.
  destruct (parse resultText) as [v|]; [|discriminate].
  apply selectMatches_chosen.
Qed.

Lemma builtFrom_more (log ext : list Event) (r : FinalMatch.t) :
  builtFrom log r -> builtFrom (log ++ ext) r.
Proof.
  intros (p & d & Hp & Hd & D). exists p, d. rewrite rerankCalls_app.
  split; [apply in_or_app; now left | auto].
Qed.

Lemma built_calls (groups : list Group.t) (log log' : list Event) :
  rerankCalls log' = rerankCalls log -> built groups log -> built groups log'.
Proof.
  intros E. unfold built, builtFrom. now rewrite E.
Qed.

Lemma Forall2_In_left {A B : Type} (R : A -> B -> Prop) (l : list A) (l' : list B)
  (x : A) :
  Forall2 R l l' -> In x l -> exists y, In y l' /\ R x y.
Proof.
  induction 1 as [|a b l l' Hab _ IH]; intros Hin; [destruct Hin|].
  destruct Hin as [->|Hin].
  - exists b. simpl. auto.
  - destruct (IH Hin) as (y & Hy & Ry). exists y. simpl. auto.
Qed.

Lemma pushGroup_built (w : World) (queryType : QueryType.t) (text : string)
  (before groups : list Group.t) (response : Postgrest.Result (list Row.t)) :
  triple (built (before ++ groups)) (pushGroup w queryType text groups response)
         (fun groups' log => built (before ++ groups') log) (fun _ _ => True).
Proof.
  unfold pushGroup.
  destruct (Postgrest.error response); [now apply triple_ret|].
  destruct (isEmpty (Postgrest.data response)); [now apply triple_ret|].
  apply triple_bind with (Mid := fun _ log => built (before ++ groups) log).
  { apply same_mapAll_lookup. apply calls_quiet, built_calls. }
  intros ms. cbv zeta. destruct (nonNull ms) as [|m valid] eqn:V; [now apply triple_ret|].
  intros log B. unfold bind. rewrite rerankMatches_run.
  destruct (Gemini.matchDescriptions (m :: valid)) as [ds|e] eqn:D; [|exact I]. cbv zeta.
  destruct (Gemini.rerankResponse _ _ _ _) as [out|e] eqn:R; [|exact I].
  simpl. unfold built. rewrite app_assoc. apply Forall_app. split.
  - eapply Forall_impl; [|exact B]. intros g Hg.
    eapply Forall_impl; [|exact Hg]. intros r. apply builtFrom_more.
  - constructor; [|constructor]. simpl.
    apply rerankResponse_chosen in R. eapply Forall_impl; [|exact R].
    intros r (m' & a & Hin & A & ->).
    pose proof (matchDescriptionsFrom_each _ _ _ D) as F.
    destruct (Forall2_In_left _ _ _ m' F Hin) as (d & Hd & _ & Hdesc).
    exists (RerankPrompt.mk queryType text (List.length (m :: valid)) 25 ds), d.
    rewrite rerankCalls_app. split; [apply in_or_app; right; simpl; auto|].
    split; [exact Hd | now apply Hdesc].
Qed.

Section Avoiding.

Variable w : World.
Variable id : Z.

Lemma avoids_call {A : Type} (ev : Event) (answer : nat -> A)
  (N : A -> Prop) :
  avoids id ev -> (forall n, N (answer n)) ->
  triple (Forall (avoids id)) (call ev answer)
         (fun a log => Forall (avoids id) log /\ N a) (fun _ log => Forall (avoids id) log).
Proof.
  intros Hev HN. apply triple_call. intros log H. split; [|apply HN].
  apply Forall_app. split; [exact H | now constructor].
Qed.

Lemma avoids_generateEmbedding (text : string) :
  triple (Forall (avoids id)) (Gemini.generateEmbedding w text)
         (fun _ log => Forall (avoids id) log) (fun _ log => Forall (avoids id) log).
Proof.
  unfold Gemini.generateEmbedding. destruct (text =? "")%string.
  - now apply triple_throw.
  - apply triple_bind with (Mid := fun _ log => Forall (avoids id) log /\ True).
    + apply avoids_call; simpl; auto.
    + intros r. apply triple_lift. intros log [H _].
      now destruct (Gemini.embeddingOfResponse r).
Qed.

Lemma avoids_generateSyntheticOffering (request : string) :
  triple (Forall (avoids id)) (Gemini.generateSyntheticOffering w request)
         (fun _ log => Forall (avoids id) log) (fun _ log => Forall (avoids id) log).
Proof.
  unfold Gemini.generateSyntheticOffering. destruct (request =? "")%string.
  - now apply triple_throw.
  - apply triple_bind with (Mid := fun _ log => Forall (avoids id) log /\ True).
    + apply avoids_call; simpl; auto.
    + intros r. apply triple_lift. intros log [H _].
      now destruct (Gemini.syntheticOfferingOfResponse r).
Qed.

Lemma avoids_query {A : Type} (ev : Event) (answer : Postgrest.Result A) :
  avoids id ev ->
  triple (Forall (avoids id)) (query w ev answer)
         (fun _ log => Forall (avoids id) log) (fun _ log => Forall (avoids id) log).
Proof.
  intros Hev. unfold query.
  apply (triple_weaken _ (Forall (avoids id)) _ _
           (fun _ log => Forall (avoids id) log /\ True) _
           (fun _ log => Forall (avoids id) log)); auto; [|tauto].
  apply avoids_call; auto.
Qed.

Lemma avoids_rpc (c : Collection) (q : list float) :
  triple (Forall (avoids id)) (rpc w c q threshold 50 (Some id))
         (fun r log => Forall (avoids id) log /\ rowsAvoid id r)
         (fun _ log => Forall (avoids id) log).
Proof.
  unfold rpc, query. apply avoids_call; [reflexivity|].
  intros n rows. destruct (dbFault w n); [discriminate|].
  destruct (match_rows_searchResult (cosine_distance w) (Sql.table (db w) c) q threshold
              50 (Some id) ltac:(lia)) as (out & -> & _ & X).
  intros [= <-]. now apply X.
Qed.

Lemma avoids_lookupAttendee (match_ : Row.t) :
  triple (Forall (avoids id)) (lookupAttendee w match_)
         (fun found log =>
            (forall m, found = Some m ->
                       Match.attendee_id m = Row.attendee_id match_) /\
            Forall (avoids id) log)
         (fun _ log => Forall (avoids id) log).
Proof.
  unfold lookupAttendee.
  apply triple_bind with (Mid := fun _ log => Forall (avoids id) log);
    [now apply avoids_query|].
  intros response.
  destruct (Postgrest.error response), (Postgrest.data response); apply triple_ret;
    intros log H; (split; [|exact H]); try discriminate.
  now intros m [= <-].
Qed.

Lemma nonNull_avoid (rows : list Row.t) (found : list (option Match.t)) :
  Forall (fun r => Row.attendee_id r <> Some id) rows ->
  Forall2 (fun row o => forall m, o = Some m ->
                                  Match.attendee_id m = Row.attendee_id row) rows found ->
  Forall (fun m => Match.attendee_id m <> Some id) (nonNull found).
Proof.
  intros Hrows F. induction F as [|row o rows found Ho _ IH]; simpl; [constructor|].
  inversion Hrows as [|? ? Hrow Hrest]; subst.
  apply Forall_app. split; [|now apply IH].
  destruct o as [m|]; constructor; [|constructor]. now rewrite (Ho m eq_refl).
Qed.

Lemma pushGroup_avoids (queryType : QueryType.t) (text : string)
  (groups : list Group.t) (response : Postgrest.Result (list Row.t)) :
  rowsAvoid id response ->
  triple (Forall (avoids id)) (pushGroup w queryType text groups response)
         (fun _ log => Forall (avoids id) log) (fun _ log => Forall (avoids id) log).
Proof.
  intros Hrows. unfold pushGroup.
  destruct (Postgrest.error response); [now apply triple_ret|].
  destruct (Postgrest.data response) as [rows|] eqn:D; [|now apply triple_ret].
  assert (NE : isEmpty (Some rows) = true \/ isEmpty (Some rows) = false)
    by (destruct rows; simpl; auto).
  destruct NE as [-> | ->]; [now apply triple_ret|].
  apply triple_bind
    with (Mid := fun found log =>
            Forall2 (fun row o => forall m, o = Some m ->
                       Match.attendee_id m = Row.attendee_id row) rows found /\
            Forall (avoids id) log).
  { apply triple_mapAll. intros x _. apply avoids_lookupAttendee. }
  intros found. cbv zeta. simpl orNil.
  destruct (nonNull found) as [|m valid] eqn:V;
    [apply triple_ret; now intros log [_ H]|].
  intros log [F H]. unfold bind. rewrite rerankMatches_run.
  destruct (Gemini.matchDescriptions (m :: valid)) as [ds|e] eqn:Ds; [|exact H].
  cbv zeta.
  assert (G : Forall (avoids id)
                (log ++ [GenerateRerank (RerankPrompt.mk queryType text
                                           (List.length (m :: valid)) 25 ds)])).
  { apply Forall_app. split; [exact H|]. constructor; [|constructor]. simpl.
    pose proof (nonNull_avoid rows found (Hrows rows D) F) as NA. rewrite V in NA.
    pose proof (matchDescriptionsFrom_each _ _ _ Ds) as Each.
    clear - NA Each. induction Each as [|m' d ms' ds' [Hid _] _ IH]; constructor.
    - rewrite Hid. now inversion NA.
    - apply IH. now inversion NA. }
  destruct (Gemini.rerankResponse _ _ _ _) as [out|e]; exact G.
Qed.

Lemma steps_avoid (attendee : Attendee.t) :
  Attendee.id attendee = id ->
  (forall groups req, triple (Forall (avoids id)) (requestStep w attendee groups req)
                             (fun _ log => Forall (avoids id) log)
                             (fun _ log => Forall (avoids id) log)) /\
  (forall groups offer, triple (Forall (avoids id)) (offeringStep w attendee groups offer)
                               (fun _ log => Forall (avoids id) log)
                               (fun _ log => Forall (avoids id) log)).
Proof.
  intros Hid. split; intros groups x.
  - unfold requestStep. rewrite Hid.
    apply triple_bind with (Mid := fun _ log => Forall (avoids id) log);
      [apply avoids_generateSyntheticOffering|]. intros s.
    apply triple_bind with (Mid := fun _ log => Forall (avoids id) log);
      [apply avoids_generateEmbedding|]. intros q.
    apply triple_bind with (Mid := fun r log => Forall (avoids id) log /\ rowsAvoid id r);
      [apply avoids_rpc|]. intros r log [H Hr]. revert log H.
    now apply pushGroup_avoids.
  - unfold offeringStep. rewrite Hid.
    apply triple_bind with (Mid := fun _ log => Forall (avoids id) log);
      [apply avoids_generateEmbedding|]. intros q.
    apply triple_bind with (Mid := fun r log => Forall (avoids id) log /\ rowsAvoid id r);
      [apply avoids_rpc|]. intros r log [H Hr]. revert log H.
    now apply pushGroup_avoids.
Qed.

End Avoiding.

Lemma findAttendee_avoids (w : World) (id : Z) (name : string) :
  triple (Forall (avoids id)) (findAttendee w name)
         (fun _ log => Forall (avoids id) log) (fun _ log => Forall (avoids id) log).
Proof.
  unfold findAttendee. cbv zeta.
  apply triple_bind with (Mid := fun _ log => Forall (avoids id) log).
  { destruct (2 <=? _)%nat; [|now apply triple_ret].
    apply triple_bind with (Mid := fun _ log => Forall (avoids id) log);
      [now apply avoids_query|]. intros r. now apply triple_ret. }
  intros s1. apply triple_bind with (Mid := fun _ log => Forall (avoids id) log).
  { destruct (isEmpty (fst s1)); [|now apply triple_ret].
    apply triple_bind with (Mid := fun _ log => Forall (avoids id) log);
      [now apply avoids_query|]. intros r. now apply triple_ret. }
  intros s2. apply triple_bind with (Mid := fun _ log => Forall (avoids id) log).
  { destruct (isEmpty (fst s2) && _)%bool; [|now apply triple_ret].
    apply triple_bind with (Mid := fun _ log => Forall (avoids id) log);
      [now apply avoids_query|]. intros r. now apply triple_ret. }
  intros s3. destruct (snd s3); [now apply triple_throw|].
  destruct (fst s3) as [[|a l]|]; now apply triple_ret.
Qed.

Lemma bidirectional_avoids (w : World) (attendee : Attendee.t) :
  triple (Forall (avoids (Attendee.id attendee))) (bidirectional w attendee)
         (fun _ log => Forall (avoids (Attendee.id attendee)) log)
         (fun _ log => Forall (avoids (Attendee.id attendee)) log).
Proof.
  unfold bidirectional. cbv zeta. set (id := Attendee.id attendee).
  apply triple_bind with (Mid := fun _ log => Forall (avoids id) log);
    [now apply avoids_query|]. intros os.
  destruct (Postgrest.error os); [now apply triple_throw|].
  apply triple_bind with (Mid := fun _ log => Forall (avoids id) log);
    [now apply avoids_query|]. intros rs.
  destruct (Postgrest.error rs); [now apply triple_throw|].
  apply triple_bind with (Mid := fun _ log => Forall (avoids id) log).
  { apply (triple_forEach (fun _ log => Forall (avoids id) log)).
    intros acc x _. now apply steps_avoid. }
  intros helpers. apply triple_bind with (Mid := fun _ log => Forall (avoids id) log).
  { apply (triple_forEach (fun _ log => Forall (avoids id) log)).
    intros acc x _. now apply steps_avoid. }
  intros helped. now apply triple_ret.
Qed.

Lemma steps_built (w : World) (attendee : Attendee.t) (before : list Group.t) :
  (forall groups req, triple (built (before ++ groups))
                             (requestStep w attendee groups req)
                             (fun groups' log => built (before ++ groups') log)
                             (fun _ _ => True)) /\
  (forall groups offer, triple (built (before ++ groups))
                               (offeringStep w attendee groups offer)
                               (fun groups' log => built (before ++ groups') log)
                               (fun _ _ => True)).
Proof.
  split; intros groups x.
  - unfold requestStep.
    apply triple_bind with (Mid := fun _ log => built (before ++ groups) log);
      [apply same_generateSyntheticOffering; apply calls_quiet, built_calls|]. intros s.
    apply triple_bind with (Mid := fun _ log => built (before ++ groups) log);
      [apply same_generateEmbedding; apply calls_quiet, built_calls|]. intros q.
    apply triple_bind with (Mid := fun _ log => built (before ++ groups) log);
      [apply same_rpc; apply calls_quiet, built_calls|]. intros r.
    apply pushGroup_built.
  - unfold offeringStep.
    apply triple_bind with (Mid := fun _ log => built (before ++ groups) log);
      [apply same_generateEmbedding; apply calls_quiet, built_calls|]. intros q.
    apply triple_bind with (Mid := fun _ log => built (before ++ groups) log);
      [apply same_rpc; apply calls_quiet, built_calls|]. intros r.
    apply pushGroup_built.
Qed.

Lemma bidirectional_built (w : World) (attendee : Attendee.t) :
  triple (fun _ => True) (bidirectional w attendee)
    (fun response log =>
       match response with
       | Success body =>
           built (Bidirectional.people_who_can_help_you body
                  ++ Bidirectional.people_you_can_help body) log
       | _ => True
       end)
    (fun _ _ => True).
Proof.
  unfold bidirectional. cbv zeta.
  apply triple_bind with (Mid := fun _ _ => True); [now apply triple_call|]. intros os.
  destruct (Postgrest.error os); [now apply triple_throw|].
  apply triple_bind with (Mid := fun _ _ => True); [now apply triple_call|]. intros rs.
  destruct (Postgrest.error rs); [now apply triple_throw|].
  apply triple_bind with (Mid := fun helpers log => built ([] ++ helpers) log).
  { apply (triple_weaken _ (built ([] ++ [])) _ _ (fun groups log => built ([] ++ groups) log)
             _ (fun _ _ => True)); auto.
    - apply (triple_forEach (fun groups log => built ([] ++ groups) log)).
      intros acc x _. apply steps_built.
    - intros log _. constructor. }
  intros helpers.
  apply triple_bind with (Mid := fun helped log => built (helpers ++ helped) log).
  { apply (triple_weaken _ (built (helpers ++ [])) _ _
             (fun groups log => built (helpers ++ groups) log) _ (fun _ _ => True)); auto.
    - apply (triple_forEach (fun groups log => built (helpers ++ groups) log)).
      intros acc x _. apply steps_built.
    - intros log H. now rewrite app_nil_r. }
  intros helped. now apply triple_ret.
Qed.

(** C6.  Both search functions, given an attendee to exclude, return no
    row of that attendee.  And in identity mode, once the name has resolved
    to an attendee, every vector search of the request carries that
    attendee's id as its exclusion, no candidate handed to the re-ranker
    belongs to that attendee, and every match of every group of the result
    shows one of those candidates. *)
Theorem identity_mode_excludes_self :
  (forall (cosine_distance : list float -> list float -> Q) (db : Sql.Database)
          (query_embedding : list float) (match_threshold : Q) (match_count : Z)
          (id : Z) (out : list Row.t),
     Sql.match_offerings cosine_distance db query_embedding match_threshold match_count
                         (Some id) = Postgrest.ok out \/
     Sql.match_requests cosine_distance db query_embedding match_threshold match_count
                        (Some id) = Postgrest.ok out ->
     Forall (fun r => Row.attendee_id r <> Some id) out)
  /\
  (forall (w : World) (name : string) (attendee : Attendee.t) (log0 : list Event),
     findAttendee w name [] = (Normal (Some attendee), log0) ->
     Forall (avoids (Attendee.id attendee))
            (snd (search_by_username w (Post (Some (Js.Str name))) [])) /\
     forall body,
       fst (search_by_username w (Post (Some (Js.Str name))) []) = Normal (Success body) ->
       built (Bidirectional.people_who_can_help_you body
              ++ Bidirectional.people_you_can_help body)
             (snd (search_by_username w (Post (Some (Js.Str name))) []))).
Proof.
  split.
  - intros cd db q th k id out H.
    assert (K : forall rows, Sql.match_rows cd rows q th k (Some id) = Postgrest.ok out ->
                             Forall (fun r => Row.attendee_id r <> Some id) out).
    { intros rows E. destruct (Z.ltb_spec k 0) as [Hk|Hk].
      - unfold Sql.match_rows in E.
        replace (k <? 0)%Z with true in E by (symmetry; now apply Z.ltb_lt).
        discriminate E.
      - destruct (match_rows_searchResult cd rows q th k (Some id) Hk)
          as (out' & E' & _ & X).
        rewrite E in E'. injection E' as <-. now apply X. }
    destruct H as [H|H]; eapply K; exact H.
  - intros w name attendee log0 Hfound.
    destruct name as [|c name]; [split; [constructor | discriminate]|].
    pose proof (findAttendee_avoids w (Attendee.id attendee) (String c name) [] (Forall_nil _))
      as A0.
    rewrite Hfound in A0.
    pose proof (bidirectional_avoids w attendee log0 A0) as A1.
    pose proof (bidirectional_built w attendee log0 I) as B1.
    unfold search_by_username, catch, bind. rewrite Hfound.
    destruct (bidirectional w attendee log0) as [[response|e] log]; simpl.
    + split; [exact A1|]. intros body [= ->]. exact B1.
    + split; [exact A1|]. discriminate.
Qed.

Lemma identity_mode_excludes_self_witness :
  Forall (avoids (Attendee.id ada)) (snd (search_by_username (world "[0]") adaByron [])) /\
  forall body,
    fst (search_by_username (world "[0]") adaByron []) = Normal (Success body) ->
    built (Bidirectional.people_who_can_help_you body
           ++ Bidirectional.people_you_can_help body)
          (snd (search_by_username (world "[0]") adaByron [])).
Proof.
  apply (proj2 identity_mode_excludes_self (world "[0]") "Ada Byron" ada
           [SelectIlikeBoth "Ada" "Byron"]).
  reflexivity.
Defined.

Example identity_ex :
  fst (search_by_username (world "[0]") adaByron [])
  = Normal (Success (Bidirectional.mk
              (Summary.mk "Ada Byron" (Some "Analytical Engines") None (Some "UK"))
              [Group.mk "Looking for a compilers mentor"
                        [Gemini.finalResult
                           (Match.mk (Some 2%Z) "Happy to mentor on compilers"
                                     (1 - (1 # 10))%Q (Some grace)) grace]]
              [Group.mk "I can teach analysis"
                        [Gemini.finalResult
                           (Match.mk (Some 3%Z) "Need help with analysis"
                                     (1 - (1 # 10))%Q (Some jane)) jane]])).
Proof. reflexivity. Qed.

(** ** Identity resolution *)

Lemma patternFree_cons (c : ascii) (s : string) :
  patternFree (String c s) = true ->
  Ascii.eqb c Sql.percent = false /\ Ascii.eqb c Sql.underscore = false /\
  Ascii.eqb c Sql.backslash = false /\ patternFree s = true.
Proof.
  unfold patternFree, isPatternChar. simpl.
  rewrite andb_true_iff, negb_true_iff, !orb_false_iff. tauto.
Qed.

Lemma plain_patternFree (s : string) : plain s = true -> patternFree s = true.
Proof.
  unfold plain, patternFree. induction s as [|c s IH]; simpl; [reflexivity|].
  rewrite !andb_true_iff. intros [Hc Hs]. split; [|now apply IH].
  unfold plainChar in Hc. unfold isPatternChar.
  rewrite !andb_true_iff, !negb_true_iff in Hc. destruct Hc as [[[H1 H2] H3] _].
  now rewrite H1, H2, H3.
Qed.

Lemma like_step (c : ascii) (p t : string) :
  Ascii.eqb c Sql.percent = false -> Ascii.eqb c Sql.underscore = false ->
  Ascii.eqb c Sql.backslash = false ->
  Sql.like (String c p) t
  = match t with
    | String d t' => Ascii.eqb d c && Sql.like p t'
    | EmptyString => false
    end.
Proof. intros H1 H2 H3. simpl. now rewrite H1, H2, H3. Qed.

(** A pattern without metacharacters matches only itself. *)
Lemma like_plain (p : string) :
  forall t, patternFree p = true -> Sql.like p t = String.eqb p t.
Proof.
  induction p as [|c p IH]; intros t H.
  - now destruct t.
  - apply patternFree_cons in H as (H1 & H2 & H3 & H).
    rewrite (like_step _ _ _ H1 H2 H3). destruct t as [|d t]; [reflexivity|].
    simpl. rewrite (IH t H), (Ascii.eqb_sym d c). reflexivity.
Qed.

Lemma like_percent_step (q t : string) :
  Sql.like (String Sql.percent q) t
  = Sql.like q t
    || match t with
       | String _ t' => Sql.like (String Sql.percent q) t'
       | EmptyString => false
       end.
Proof. now destruct t. Qed.

Lemma like_percent_only (t : string) : Sql.like (String Sql.percent "") t = true.
Proof.
  induction t as [|d t IH]; [reflexivity|].
  rewrite like_percent_step, IH. apply orb_true_r.
Qed.

Lemma like_plain_then_percent (p : string) :
  forall t, patternFree p = true ->
  Sql.like (p ++ String Sql.percent "") t = String.prefix p t.
Proof.
  induction p as [|c p IH]; intros t H.
  - simpl append. rewrite like_percent_only. now destruct t.
  - apply patternFree_cons in H as (H1 & H2 & H3 & H).
    change ((String c p ++ String Sql.percent "")%string)
      with (String c (p ++ String Sql.percent "")).
    rewrite (like_step _ _ _ H1 H2 H3). destruct t as [|d t]; [reflexivity|].
    rewrite (IH t H). simpl. destruct (ascii_dec c d) as [->|N].
    + now rewrite Ascii.eqb_refl.
    + replace (Ascii.eqb d c) with false; [reflexivity|].
      symmetry. apply Ascii.eqb_neq. congruence.
Qed.

(** Between two [%], a pattern without metacharacters matches the texts
    that contain it. *)
Lemma like_contains (p : string) (t : string) :
  patternFree p = true ->
  Sql.like (String Sql.percent (p ++ String Sql.percent "")) t = Claim.isSubstring p t.
Proof.
  intros H. induction t as [|d t IH].
  - rewrite like_percent_step, (like_plain_then_percent p "" H). simpl.
    now destruct (String.prefix p "").
  - rewrite like_percent_step, IH, (like_plain_then_percent p _ H). reflexivity.
Qed.

(** Folding a text. *)
Lemma folded_patternFree (db : Sql.Database) (s : string) :
  keepsPatterns db -> patternFree s = true -> patternFree (Sql.folded db s) = true.
Proof.
  intros K. unfold patternFree, Sql.folded.
  induction s as [|c s IH]; simpl; [reflexivity|].
  rewrite !andb_true_iff, !negb_true_iff. intros [Hc Hs]. split; [|now apply IH].
  now apply (K c).
Qed.

Lemma folded_app (db : Sql.Database) (s t : string) :
  Sql.folded db (s ++ t) = (Sql.folded db s ++ Sql.folded db t)%string.
Proof.
  unfold Sql.folded. induction s as [|c s IH]; simpl; [reflexivity | now rewrite IH].
Qed.

Lemma folded_percent (db : Sql.Database) :
  keepsPatterns db -> Sql.folded db "%" = String Sql.percent "".
Proof.
  intros K. unfold Sql.folded. simpl. f_equal. now apply (K "%"%char).
Qed.

(** The folding of the letters A to Z is one that keeps the patterns and
    the white space. *)
Lemma lowerChar_keepsPatterns (db : Sql.Database) :
  Sql.folding db = Sql.lowerChar -> keepsPatterns db.
Proof.
  intros E c. rewrite E.
  destruct c as [[] [] [] [] [] [] [] []]; vm_compute;
    (split; intros H; try discriminate H; reflexivity).
Qed.

Lemma lowerChar_keepsSpaces (db : Sql.Database) :
  Sql.folding db = Sql.lowerChar -> keepsSpaces db.
Proof.
  intros E c. rewrite E.
  destruct c as [[] [] [] [] [] [] [] []]; vm_compute;
    (split; intros H; try discriminate H; reflexivity).
Qed.

Lemma isSpace_folding (db : Sql.Database) (c : ascii) :
  keepsSpaces db -> JsString.isSpace (Sql.folding db c) = JsString.isSpace c.
Proof.
  intros K. destruct (K c) as [K1 K2].
  destruct (JsString.isSpace c) eqn:E; [now rewrite K1 | now apply K2].
Qed.

Lemma ilike_exact (db : Sql.Database) (x : string) (column : option string) :
  keepsPatterns db -> patternFree x = true ->
  Sql.isTrue (Sql.ilike db column x) = Claim.equalsIgnoringCase db x column.
Proof.
  intros K H. destruct column as [t|]; [|reflexivity]. simpl.
  rewrite like_plain by now apply folded_patternFree.
  now destruct (_ =? _)%string.
Qed.

Lemma ilike_contains (db : Sql.Database) (x : string) (column : option string) :
  keepsPatterns db -> patternFree x = true ->
  Sql.isTrue (Sql.ilike db column ("%" ++ x ++ "%"))
  = Claim.containsIgnoringCase db x column.
Proof.
  intros K H. destruct column as [t|]; [|reflexivity].
  unfold Sql.ilike, Sql.isTrue, Claim.containsIgnoringCase.
  rewrite !folded_app, (folded_percent db K).
  change (String Sql.percent "" ++ Sql.folded db x ++ String Sql.percent "")%string
    with (String Sql.percent (Sql.folded db x ++ String Sql.percent "")).
  rewrite like_contains by now apply folded_patternFree.
  now destruct (Claim.isSubstring _ _).
Qed.

Lemma plain_app (s t : string) : plain (s ++ t) = plain s && plain t.
Proof.
  unfold plain. induction s as [|c s IH]; simpl; [reflexivity|].
  now rewrite IH, andb_assoc.
Qed.

Lemma trimStart_plain (s : string) : plain s = true -> plain (JsString.trimStart s) = true.
Proof.
  induction s as [|c s IH]; simpl; [reflexivity|]. intros H.
  destruct (JsString.isSpace c); [|exact H].
  apply IH. unfold plain in *. simpl in H. apply andb_true_iff in H. tauto.
Qed.

Lemma trimEnd_plain (s : string) : plain s = true -> plain (JsString.trimEnd s) = true.
Proof.
  induction s as [|c s IH]; simpl; [reflexivity|]. intros H.
  unfold plain in H. simpl in H. apply andb_true_iff in H as [Hc Hs].
  specialize (IH Hs). destruct (JsString.trimEnd s) as [|d t].
  - destruct (JsString.isSpace c); [reflexivity|]. unfold plain. simpl. now rewrite Hc.
  - unfold plain in *. simpl in *. now rewrite Hc.
Qed.

Lemma splitSpaces_from_plain (s : string) :
  forall inSpace cur, plain cur = true -> plain s = true ->
  Forall (fun t => plain t = true) (JsString.splitSpaces_from inSpace cur s).
Proof.
  induction s as [|c s IH]; intros inSpace cur Hcur Hs; simpl.
  - now repeat constructor.
  - unfold plain in Hs. simpl in Hs. apply andb_true_iff in Hs as [Hc Hs].
    destruct (JsString.isSpace c).
    + destruct inSpace; [now apply IH|]. constructor; [exact Hcur | now apply IH].
    + apply IH; [|exact Hs]. rewrite plain_app, Hcur. unfold plain. simpl. now rewrite Hc.
Qed.

Lemma tokens_plain (name : string) :
  plain name = true ->
  Forall (fun t => plain t = true) (JsString.splitSpaces (JsString.trim name)).
Proof.
  intros H. apply splitSpaces_from_plain; [reflexivity|].
  now apply trimEnd_plain, trimStart_plain.
Qed.

Lemma join_plain (parts : list string) :
  Forall (fun t => plain t = true) parts -> plain (JsString.join " " parts) = true.
Proof.
  induction 1 as [|p parts Hp Hparts IH]; [reflexivity|].
  destruct parts as [|q parts]; [exact Hp|].
  change (JsString.join " " (p :: q :: parts))
    with (p ++ " " ++ JsString.join " " (q :: parts))%string.
  rewrite !plain_app, Hp, IH. reflexivity.
Qed.

Lemma nth_plain (parts : list string) (n : nat) :
  Forall (fun t => plain t = true) parts -> plain (nth n parts "") = true.
Proof.
  intros H. revert n. induction H as [|p parts Hp _ IH]; intros [|n]; simpl; auto.
Qed.

Lemma last_plain (parts : list string) :
  Forall (fun t => plain t = true) parts -> plain (last parts "") = true.
Proof.
  induction 1 as [|p parts Hp Hparts IH]; [reflexivity|]. simpl.
  now destruct parts.
Qed.

Lemma tl_plain (parts : list string) :
  Forall (fun t => plain t = true) parts -> Forall (fun t => plain t = true) (tl parts).
Proof. intros H. destruct H; simpl; auto. Qed.

Lemma head_of_limited {A B : Type} (k : nat) (l : list A) (some : A -> B) (none : B) :
  match firstn (S k) l with a :: _ => some a | [] => none end
  = match l with a :: _ => some a | [] => none end.
Proof. now destruct l. Qed.

Lemma bind_normal {A B : Type} (m : M A) (k : A -> M B) (log log' : list Event) (a : A) :
  m log = (Normal a, log') -> bind m k log = k a log'.
Proof. intros H. unfold bind. now rewrite H. Qed.

Lemma run_strategy (w : World) (ev : Event) (rows : list Attendee.t) (log : list Event) :
  (forall n, dbFault w n = None) ->
  (result <- query w ev (Postgrest.ok rows) ;; ret (assign result)) log
  = (Normal (Some rows, None), log ++ [ev]).
Proof. intros NF. unfold bind. now rewrite run_query by apply NF. Qed.

(** With a database that answers, the three strategies come to this:
    the attendee, and the queries sent. *)
Lemma findAttendee_run (w : World) (name : string) (log : list Event) :
  (forall n, dbFault w n = None) ->
  findAttendee w name log
  = (let tokens := JsString.splitSpaces (JsString.trim name) in
     let several := (2 <=? List.length tokens)%nat in
     let rows1 := if several
                  then Sql.selectIlikeBoth (db w) (nth 0 tokens "")
                                           (JsString.join " " (tl tokens)) 1
                  else [] in
     let rows2 := Sql.selectIlikeEither (db w) ("%" ++ name ++ "%") ("%" ++ name ++ "%") 5 in
     let rows3 := Sql.selectIlikeEither (db w) ("%" ++ nth 0 tokens "" ++ "%")
                                        ("%" ++ last tokens "" ++ "%") 5 in
     (Normal match rows1 with
             | a :: _ => Some a
             | [] =>
                 match rows2 with
                 | a :: _ => Some a
                 | [] => if several then hd_error rows3 else None
                 end
             end,
      log ++ (if several
              then [SelectIlikeBoth (nth 0 tokens "") (JsString.join " " (tl tokens))]
              else [])
          ++ match rows1 with
             | _ :: _ => []
             | [] =>
                 SelectIlikeEither ("%" ++ name ++ "%") ("%" ++ name ++ "%")
                 :: match rows2 with
                    | _ :: _ => []
                    | [] =>
                        if several
                        then [SelectIlikeEither ("%" ++ nth 0 tokens "" ++ "%")
                                                ("%" ++ last tokens "" ++ "%")]
                        else []
                    end
             end)).
Proof.
  intros NF. unfold findAttendee. cbv zeta.
  set (tokens := JsString.splitSpaces (JsString.trim name)).
  destruct (2 <=? List.length tokens)%nat eqn:Several.
  - erewrite bind_normal by (apply run_strategy; exact NF).
    destruct (Sql.selectIlikeBoth (db w) (nth 0 tokens "") (JsString.join " " (tl tokens)) 1)
      as [|a rows1] eqn:R1; cbn [fst isEmpty].
    + erewrite bind_normal by (apply run_strategy; exact NF).
      destruct (Sql.selectIlikeEither (db w) ("%" ++ name ++ "%") ("%" ++ name ++ "%") 5)
        as [|b rows2] eqn:R2; cbn [fst isEmpty andb].
      * erewrite bind_normal by (apply run_strategy; exact NF).
        destruct (Sql.selectIlikeEither (db w) ("%" ++ nth 0 tokens "" ++ "%")
                    ("%" ++ last tokens "" ++ "%") 5);
          cbn [snd fst ret hd_error]; rewrite <- !app_assoc; reflexivity.
      * erewrite bind_normal by reflexivity.
        cbn [snd fst ret]. rewrite <- !app_assoc. reflexivity.
    + erewrite bind_normal by reflexivity. cbn [fst isEmpty andb].
      erewrite bind_normal by reflexivity. cbn [snd fst ret]. reflexivity.
  - erewrite bind_normal by reflexivity. cbn [fst isEmpty].
    erewrite bind_normal by (apply run_strategy; exact NF).
    destruct (Sql.selectIlikeEither (db w) ("%" ++ name ++ "%") ("%" ++ name ++ "%") 5)
      as [|b rows2] eqn:R2; cbn [fst isEmpty andb].
    + erewrite bind_normal by reflexivity. cbn [snd fst ret]. reflexivity.
    + erewrite bind_normal by reflexivity. cbn [snd fst ret]. reflexivity.
Qed.

Lemma findAttendee_answers (w : World) (name : string) (log : list Event) :
  (forall n, dbFault w n = None) ->
  fst (findAttendee w name log)
  = Normal
      (let tokens := JsString.splitSpaces (JsString.trim name) in
       let several := (2 <=? List.length tokens)%nat in
       match (if several
              then Sql.selectIlikeBoth (db w) (nth 0 tokens "")
                                       (JsString.join " " (tl tokens)) 1
              else []) with
       | a :: _ => Some a
       | [] =>
           match Sql.selectIlikeEither (db w) ("%" ++ name ++ "%") ("%" ++ name ++ "%") 5 with
           | a :: _ => Some a
           | [] =>
               if several
               then hd_error (Sql.selectIlikeEither (db w)
                                ("%" ++ nth 0 tokens "" ++ "%")
                                ("%" ++ last tokens "" ++ "%") 5)
               else None
           end
       end).
Proof. intros NF. now rewrite (findAttendee_run w name log NF). Qed.

Lemma isTrue_and3 (a b : option bool) : Sql.isTrue (Sql.and3 a b) = Sql.isTrue a && Sql.isTrue b.
Proof. now destruct a as [[|]|], b as [[|]|]. Qed.

Lemma isTrue_or3 (a b : option bool) : Sql.isTrue (Sql.or3 a b) = Sql.isTrue a || Sql.isTrue b.
Proof. now destruct a as [[|]|], b as [[|]|]. Qed.

Lemma selectIlikeBoth_plain (db : Sql.Database) (f l : string) (k : nat) :
  keepsPatterns db -> patternFree f = true -> patternFree l = true ->
  Sql.selectIlikeBoth db f l k
  = firstn k (filter (fun a => Claim.equalsIgnoringCase db f (Attendee.first_name a)
                               && Claim.equalsIgnoringCase db l (Attendee.last_name a))
                     (Sql.attendees db)).
Proof.
  intros K Hf Hl. unfold Sql.selectIlikeBoth. f_equal. apply filter_ext. intros a.
  now rewrite isTrue_and3, (ilike_exact db f _ K Hf), (ilike_exact db l _ K Hl).
Qed.

Lemma selectIlikeEither_plain (db : Sql.Database) (f l : string) (k : nat) :
  keepsPatterns db -> patternFree f = true -> patternFree l = true ->
  Sql.selectIlikeEither db ("%" ++ f ++ "%") ("%" ++ l ++ "%") k
  = firstn k (filter (fun a => Claim.containsIgnoringCase db f (Attendee.first_name a)
                               || Claim.containsIgnoringCase db l (Attendee.last_name a))
                     (Sql.attendees db)).
Proof.
  intros K Hf Hl. unfold Sql.selectIlikeEither. f_equal. apply filter_ext. intros a.
  now rewrite isTrue_or3, (ilike_contains db f _ K Hf), (ilike_contains db l _ K Hl).
Qed.

(** C5 (code defect).  A name that holds a metacharacter of LIKE.
    Nobody's name contains the text J_ne, so no tier of the claim yields a
    row and the claim has the request answered 404; the code sends the name
    as a pattern, in which the underscore stands for any one character,
    finds Jane Doe by its partial match, and answers 200 with her matches.
    (The comments of the strategies, an exact match and a name containing
    the input, say what the claim says.) *)
Theorem wildcard_resolves :
  Claim.resolve store "J_ne" = None /\
  Claim.tiersRun store "J_ne" = [Claim.WholeInput] /\
  findAttendee (world "[]") "J_ne" []
  = (Normal (Some jane), [SelectIlikeEither "%J_ne%" "%J_ne%"]) /\
  exists body,
    fst (search_by_username (world "[]") (Post (Some (Js.Str "J_ne"))) [])
    = Normal (Success body) /\
    Summary.name (Bidirectional.attendee body) = "Jane Doe".
Proof.
  split; [reflexivity|]. split; [reflexivity|]. split; [reflexivity|].
  eexists. split; [vm_compute; reflexivity | reflexivity].
Qed.

Example tier1_ex : Claim.resolve store "grace  HOPPER" = Some grace.
Proof. reflexivity. Qed.

Example tier2_ex : fst (findAttendee (world "[]") "yro" []) = Normal (Some ada).
Proof. reflexivity. Qed.

Example tier3_ex : fst (findAttendee (world "[]") "Gra Quincy Hop" []) = Normal (Some grace).
Proof. reflexivity. Qed.

Example not_found_ex :
  fst (search_by_username (world "[]") (Post (Some (Js.Str "Zed"))) [])
  = Normal (Failure 404 "No attendee found matching 'Zed'").
Proof. reflexivity. Qed.

(** ** Further behaviour of the re-rank loop, by example *)

(** An entry need not be a number to select a candidate: the loop has no
    integer check of its own, and a string that spells an index reads as
    that index. *)
Example string_index_ex :
  Json.parse ("[" ++ Json.quoted "1" ++ ", 0.5, -1, null]")
  = Some (Js.Array [Js.Str "1"; Js.Number (Js.Finite (1 # 2));
                    Js.Number (Js.Finite (-1)); Js.Null])
  /\ Gemini.rerankResponse Json.parse [resolved; second] 25
       (saying ("[" ++ Json.quoted "1" ++ ", 0.5, -1, null]"))
     = Normal [Gemini.finalResult second jane].
Proof. split; reflexivity. Qed.

(** The reader follows the grammar of JSON numbers: no leading zero, and
    digits after a point and after an exponent mark. *)
Example number_grammar_ex :
  Json.parse "[01]" = None /\ Json.parse "[1.]" = None /\ Json.parse "[1e]" = None
  /\ Json.parse "[0, 10, -0.5, 2e1]"
     = Some (Js.Array [Js.Number (Js.Finite 0); Js.Number (Js.Finite 10);
                       Js.Number (Js.Finite (- (1 # 2))); Js.Number (Js.Finite 20)]).
Proof. repeat split. Qed.

(** An answer that is JSON, but no array, is a [TypeError]. *)
Example object_answer_ex :
  Gemini.rerankResponse Json.parse [resolved; second] 25
    (saying ("{" ++ Json.quoted "indices" ++ ": [0]}")) = Throw TypeError.
Proof. reflexivity. Qed.

(* ================================================================== *)
(** * Further properties of the code *)
(* ================================================================== *)

(** ** White space *)

Lemma trimEnd_idempotent (s : string) :
  JsString.trimEnd (JsString.trimEnd s) = JsString.trimEnd s.
Proof.
  induction s as [|c s IH]; [reflexivity|].
  cbn [JsString.trimEnd]. destruct (JsString.trimEnd s) as [|d t] eqn:E.
  - destruct (JsString.isSpace c) eqn:Sp; [reflexivity|].
    cbn [JsString.trimEnd]. now rewrite Sp.
  - change (JsString.trimEnd (String c (String d t)))
      with (match JsString.trimEnd (String d t) with
            | EmptyString => if JsString.isSpace c then EmptyString else String c EmptyString
            | u => String c u
            end).
    now rewrite IH.
Qed.

Lemma trimStart_startsClean (s : string) : startsClean (JsString.trimStart s).
Proof.
  induction s as [|c s IH]; simpl; [exact I|].
  destruct (JsString.isSpace c) eqn:Sp; [exact IH | exact Sp].
Qed.

Lemma trimEnd_startsClean (s : string) : startsClean s -> startsClean (JsString.trimEnd s).
Proof.
  destruct s as [|c s]; [trivial|]. simpl. intros Sp.
  destruct (JsString.trimEnd s); [now rewrite Sp | exact Sp].
Qed.

Lemma trimStart_of_clean (s : string) : startsClean s -> JsString.trimStart s = s.
Proof. destruct s as [|c s]; simpl; [reflexivity|]. now intros ->. Qed.

Lemma trim_idempotent (s : string) : JsString.trim (JsString.trim s) = JsString.trim s.
Proof.
  unfold JsString.trim.
  rewrite (trimStart_of_clean (JsString.trimEnd (JsString.trimStart s))).
  - apply trimEnd_idempotent.
  - apply trimEnd_startsClean, trimStart_startsClean.
Qed.

(** ** generateEmbedding and generateSyntheticOffering, on success *)

(** A successful call of [generateEmbedding] was given a non-empty text,
    sent exactly one request, for that text, and returns as many
    components as the service sent, at least one. *)
Theorem generateEmbedding_keeps_the_dimension :
  forall (w : World) (text : string) (log : list Event) (out : list float),
  fst (Gemini.generateEmbedding w text log) = Normal out ->
  text <> "" /\
  snd (Gemini.generateEmbedding w text log) = log ++ [EmbedContent text] /\
  exists raw,
    embedContent w (List.length log) text = Json (Some {| values := Some raw |}) /\
    raw <> [] /\ List.length out = List.length raw.
Proof.
  intros w text log out. unfold Gemini.generateEmbedding.
  destruct (String.eqb_spec text "") as [->|Hne]; [discriminate|].
  unfold bind, call, lift. cbn [fst snd].
  destruct (embedContent w (List.length log) text) as [ | | st et | [[[raw|]]|]] eqn:R;
    try discriminate.
  destruct raw as [|x raw]; [discriminate|].
  cbn [Gemini.embeddingOfResponse values]. intros [= <-].
  split; [exact Hne|]. split; [reflexivity|].
  exists (x :: raw). split; [reflexivity|]. split; [discriminate|].
  unfold Gemini.normalizeOver. now rewrite length_map.
Qed.

Lemma generateEmbedding_keeps_the_dimension_witness :
  "mentoring" <> "" /\
  snd (Gemini.generateEmbedding (world "[]") "mentoring" []) = [] ++ [EmbedContent "mentoring"] /\
  exists raw,
    embedContent (world "[]") (List.length (@nil Event)) "mentoring"
    = Json (Some {| values := Some raw |}) /\
    raw <> [] /\
    List.length [0x1.3333333333333p-1%float; 0x1.999999999999ap-1%float] = List.length raw.
Proof.
  apply (generateEmbedding_keeps_the_dimension (world "[]") "mentoring" []
           [0x1.3333333333333p-1%float; 0x1.999999999999ap-1%float]).
  reflexivity.
Defined.

(** What [generateSyntheticOffering] returns is the trimmed text of the
    first candidate, a text that was not empty; so it neither begins nor
    ends with white space. *)
Theorem synthetic_offering_is_trimmed :
  forall (w : World) (request : string) (log : list Event) (out : string),
  fst (Gemini.generateSyntheticOffering w request log) = Normal out ->
  JsString.trim out = out /\
  exists text,
    resultTextOf (generateSynthetic w (List.length log) request) = Some text /\
    text <> "" /\ out = JsString.trim text.
Proof.
  intros w request log out. unfold Gemini.generateSyntheticOffering.
  destruct (String.eqb request ""); [discriminate|].
  unfold bind, call, lift. cbn [fst snd].
  destruct (generateSynthetic w (List.length log) request) as [ | | st et | [[cs]|]];
    try discriminate.
  destruct cs as [[|[text|] rest]|]; try discriminate.
  destruct text as [|c text]; [discriminate|].
  cbn [Gemini.syntheticOfferingOfResponse candidates]. intros [= <-].
  split; [apply trim_idempotent|].
  exists (String c text). repeat split. discriminate.
Qed.

Lemma synthetic_offering_is_trimmed_witness :
  JsString.trim "Happy to help. mentoring" = "Happy to help. mentoring" /\
  exists text,
    resultTextOf (generateSynthetic (world "[]") (List.length (@nil Event)) "mentoring")
    = Some text /\
    text <> "" /\ "Happy to help. mentoring" = JsString.trim text.
Proof.
  apply (synthetic_offering_is_trimmed (world "[]") "mentoring" []).
  reflexivity.
Defined.

(** A candidate text of white space only passes the check of line 146 and
    is trimmed to the empty string; [generateEmbedding] then refuses it, so
    a free-text request is answered 500 after the one generative call, with
    no embedding request and no search. *)
Theorem blank_synthetic_offering_is_answered_500 :
  forall (w : World) (request text : string),
  request <> "" ->
  resultTextOf (generateSynthetic w 0 request) = Some text ->
  text <> "" ->
  JsString.trim text = "" ->
  search_by_request w (Post (Some (Js.Str request))) []
  = (Normal (Failure 500 "generateEmbedding: text parameter is required"),
     [GenerateSynthetic request]).
Proof.
  intros w request text Hreq Htext Hne Hblank.
  destruct request as [|c request]; [congruence|].
  unfold search_by_request, catch, bind.
  rewrite (run_generateSyntheticOffering w (String c request) "" []); [reflexivity|discriminate|].
  cbn [List.length]. unfold resultTextOf in Htext.
  destruct (generateSynthetic w 0 (String c request)) as [ | | st et | [[cs]|]];
    try discriminate.
  destruct cs as [[|[t|] rest]|]; try discriminate.
  injection Htext as ->. destruct text as [|d text]; [congruence|].
  cbn [Gemini.syntheticOfferingOfResponse candidates]. now rewrite Hblank.
Qed.

Lemma blank_synthetic_offering_is_answered_500_witness :
  search_by_request
    {| JSON_parse := Json.parse; cosine_distance := toyDistance; db := store;
       embedContent := fun _ _ => Json (Some {| values := Some [3%float; 4%float] |});
       generateSynthetic := fun _ _ => saying "   ";
       generateRerank := fun _ _ => saying "[]";
       dbFault := fun _ => None |}
    (Post (Some (Js.Str "mentoring"))) []
  = (Normal (Failure 500 "generateEmbedding: text parameter is required"),
     [GenerateSynthetic "mentoring"]).
Proof.
  apply (blank_synthetic_offering_is_answered_500 _ "mentoring" "   ").
  - discriminate.
  - reflexivity.
  - discriminate.
  - reflexivity.
Defined.

(** ** The code fence, further *)

Lemma split_from_nonempty (sep : string) (s : string) :
  forall skip cur, JsString.split_from sep skip cur s <> [].
Proof.
  induction s as [|c s IH]; intros skip cur; [discriminate|].
  destruct skip as [|k].
  - rewrite split_from_step. destruct (String.prefix sep (String c s)); [discriminate|apply IH].
  - rewrite split_from_skip. apply IH.
Qed.

Lemma split_second_exists (s : string) :
  JsString.startsWith s Gemini.fence = true ->
  exists inner, nth_error (JsString.split s Gemini.fence) 1 = Some inner.
Proof.
  unfold JsString.startsWith, JsString.split. intros P.
  destruct s as [|c s]; [discriminate|].
  rewrite split_from_step, P.
  destruct (JsString.split_from Gemini.fence (String.length Gemini.fence - 1) "" s)
    as [|inner rest] eqn:E.
  - now apply split_from_nonempty in E.
  - now exists inner.
Qed.

(** [cleanResultText] never throws: when the trimmed text begins with a
    fence, [split] has a second piece to take.  What it hands to
    [JSON.parse] is always trimmed. *)
Theorem cleanResultText_never_throws :
  forall (text : string),
  exists resultText,
    Gemini.cleanResultText text = Normal resultText /\
    JsString.trim resultText = resultText.
Proof.
  intros text. unfold Gemini.cleanResultText. cbv zeta.
  destruct (JsString.startsWith (JsString.trim text) Gemini.fence) eqn:F.
  - destruct (split_second_exists _ F) as (inner & ->).
    eexists. split; [reflexivity|]. apply trim_idempotent.
  - eexists. split; [reflexivity|]. apply trim_idempotent.
Qed.

Lemma split_from_no_fence (s : string) :
  forall cur, hasBacktick s = false ->
  JsString.split_from Gemini.fence 0 cur s = [(cur ++ s)%string].
Proof.
  induction s as [|c s IH]; intros cur H.
  - simpl. now rewrite append_empty_r.
  - apply hasBacktick_cons in H as [Hc Hs].
    rewrite split_from_step, (prefix_fence_other c s Hc), (IH _ Hs), append_assoc.
    reflexivity.
Qed.

(** A fence that is opened and never closed is accepted all the same:
    everything after the opening fence, less the [json] tag, is taken. *)
Theorem unclosed_fence_is_accepted :
  forall (text tag body : string),
  JsString.trim text = (Gemini.fence ++ tag ++ body)%string ->
  tag = "json" \/ (tag = "" /\ JsString.startsWith body "json" = false) ->
  hasBacktick body = false ->
  Gemini.cleanResultText text = Normal (JsString.trim body).
Proof.
  intros text tag body Htext Htag Hbody.
  assert (Hrest : hasBacktick (tag ++ body) = false).
  { rewrite hasBacktick_app, Hbody. now destruct Htag as [->|[-> _]]. }
  unfold Gemini.cleanResultText. cbv zeta. rewrite Htext.
  unfold JsString.startsWith at 1. rewrite prefix_fence.
  assert (S : JsString.split (Gemini.fence ++ tag ++ body) Gemini.fence
              = [""; (tag ++ body)%string]).
  { unfold JsString.split.
    change (Gemini.fence ++ tag ++ body)%string
      with (String "`" (String "`" (String "`" (tag ++ body)))).
    rewrite split_from_step.
    change (String "`" (String "`" (String "`" (tag ++ body))))
      with (Gemini.fence ++ (tag ++ body))%string.
    rewrite prefix_fence. cbn [String.length Gemini.fence Nat.sub].
    rewrite !split_from_skip, (split_from_no_fence _ "" Hrest). reflexivity. }
  rewrite S. cbn [nth_error].
  destruct Htag as [->|[-> Hj]].
  - replace (JsString.startsWith ("json" ++ body) "json") with true
      by (unfold JsString.startsWith; simpl; now destruct body).
    reflexivity.
  - change (("" ++ body)%string) with body. now rewrite Hj.
Qed.

Lemma unclosed_fence_is_accepted_witness :
  Gemini.cleanResultText (Gemini.fence ++ "json" ++ newline ++ "[1, 0]")
  = Normal (JsString.trim (newline ++ "[1, 0]")).
Proof.
  apply (unclosed_fence_is_accepted _ "json" (newline ++ "[1, 0]")).
  - reflexivity.
  - now left.
  - reflexivity.
Defined.

(** ** Looking the candidates' attendees up *)

Lemma lookupAttendee_run (w : World) (row : Row.t) (log : list Event) :
  lookupAttendee w row log
  = (Normal (lookedUp w (List.length log) row),
     log ++ [SelectSingle (Row.attendee_id row)]).
Proof.
  unfold lookupAttendee, bind, query, call, lookedUp.
  destruct (dbFault w (List.length log)); [reflexivity|]. cbv zeta.
  destruct (Postgrest.error (Sql.selectSingle (db w) (Row.attendee_id row))),
           (Postgrest.data (Sql.selectSingle (db w) (Row.attendee_id row))); reflexivity.
Qed.

Lemma mapAll_lookup_run (w : World) (rows : list Row.t) :
  forall log,
  mapAll (lookupAttendee w) rows log
  = (Normal (lookedUpFrom w (List.length log) rows), log ++ lookups rows).
Proof.
  induction rows as [|row rows IH]; intros log.
  - simpl. unfold ret, lookups. simpl. now rewrite app_nil_r.
  - cbn [mapAll]. unfold bind at 1. rewrite lookupAttendee_run.
    unfold bind at 1. rewrite IH. unfold ret, lookups.
    rewrite length_app, Nat.add_1_r, <- app_assoc. reflexivity.
Qed.

(** search-by-request wraps the callback in a [try]; nothing is thrown
    for it to catch. *)
Lemma mapAll_caught_lookup_run (w : World) (rows : list Row.t) :
  forall log,
  mapAll (fun match_ => catch (lookupAttendee w match_) (fun _ => ret None)) rows log
  = (Normal (lookedUpFrom w (List.length log) rows), log ++ lookups rows).
Proof.
  induction rows as [|row rows IH]; intros log.
  - simpl. unfold ret, lookups. simpl. now rewrite app_nil_r.
  - cbn [mapAll]. unfold bind at 1, catch. rewrite lookupAttendee_run.
    unfold bind at 1. rewrite IH. unfold ret, lookups.
    rewrite length_app, Nat.add_1_r, <- app_assoc. reflexivity.
Qed.

Lemma lookedUp_resolved (w : World) (tick : nat) (row : Row.t) (m : Match.t) :
  lookedUp w tick row = Some m -> resolvedFrom (db w) row m.
Proof.
  unfold lookedUp. destruct (dbFault w tick); [discriminate|]. cbv zeta.
  unfold Sql.selectSingle. destruct (Row.attendee_id row) as [i|] eqn:Id; [|discriminate].
  destruct (filter (fun a => (Attendee.id a =? i)%Z) (Sql.attendees (db w)))
    as [|a [|b rest]] eqn:F; try discriminate.
  cbn. intros [= <-]. exists a.
  assert (Hin : In a (filter (fun a => (Attendee.id a =? i)%Z) (Sql.attendees (db w))))
    by (rewrite F; now left).
  apply filter_In in Hin as [Hin Heq]. apply Z.eqb_eq in Heq.
  repeat split; [exact Hin | now rewrite Heq].
Qed.

Lemma lookedUpFrom_resolved (w : World) (rows : list Row.t) :
  forall tick,
  Forall2 (fun row o => forall m, o = Some m -> resolvedFrom (db w) row m)
          rows (lookedUpFrom w tick rows).
Proof.
  induction rows as [|row rows IH]; intros tick; constructor; [|apply IH].
  intros m. apply lookedUp_resolved.
Qed.

Lemma nonNull_length {A : Type} (xs : list (option A)) :
  (List.length (nonNull xs) <= List.length xs)%nat.
Proof.
  induction xs as [|[a|] xs IH]; simpl; lia.
Qed.

Lemma lookedUpFrom_length (w : World) (rows : list Row.t) :
  forall tick, List.length (lookedUpFrom w tick rows) = List.length rows.
Proof. induction rows as [|row rows IH]; intros tick; simpl; [reflexivity | now rewrite IH]. Qed.

Lemma nonNull_resolved (w : World) (rows : list Row.t) (found : list (option Match.t)) :
  Forall2 (fun row o => forall m, o = Some m -> resolvedFrom (db w) row m) rows found ->
  Forall (fun m => Match.attendee m <> None) (nonNull found).
Proof.
  induction 1 as [|row o rows found Ho _ IH]; simpl; [constructor|].
  apply Forall_app. split; [|exact IH].
  destruct o as [m|]; constructor; [|constructor].
  destruct (Ho m eq_refl) as (a & -> & _). discriminate.
Qed.

(** The step that looks the candidates' attendees up (search-by-offering
    lines 70-93, and its copies in the other two handlers) never throws:
    it makes one lookup per row of the search, in order, a failed lookup
    leaves [null], and every candidate that is kept is a row of the search
    with the attendee of the table that has the row's id.  So no candidate
    reaches [rerankMatches] without its attendee. *)
Theorem attendee_lookups_never_throw :
  forall (w : World) (rows : list Row.t) (log : list Event),
  exists found,
    mapAll (lookupAttendee w) rows log = (Normal found, log ++ lookups rows) /\
    Forall2 (fun row o => forall m, o = Some m -> resolvedFrom (db w) row m) rows found /\
    Forall (fun m => Match.attendee m <> None) (nonNull found) /\
    (List.length (nonNull found) <= List.length rows)%nat.
Proof.
  intros w rows log. exists (lookedUpFrom w (List.length log) rows).
  split; [apply mapAll_lookup_run|].
  pose proof (lookedUpFrom_resolved w rows (List.length log)) as R.
  split; [exact R|]. split; [now apply (nonNull_resolved w rows)|].
  rewrite <- (lookedUpFrom_length w rows (List.length log)). apply nonNull_length.
Qed.

(** ** The prompt of the re-ranker *)

Lemma matchDescriptionsFrom_fields (matches : list Match.t) :
  forall idx ds, Gemini.matchDescriptionsFrom idx matches = Normal ds ->
  map MatchDescription.index ds = seq idx (List.length matches) /\
  map MatchDescription.text ds = map Match.text matches /\
  map MatchDescription.attendee_id ds = map Match.attendee_id matches.
Proof.
  induction matches as [|m matches IH]; intros idx ds.
  - simpl. intros [= <-]. repeat split.
  - cbn [Gemini.matchDescriptionsFrom]. destruct (Match.attendee m) as [a|]; [|discriminate].
    destruct (Gemini.matchDescriptionsFrom (S idx) matches) as [ds'|e] eqn:D; [|discriminate].
    cbn [andThen]. intros [= <-]. destruct (IH _ _ D) as (I1 & I2 & I3).
    cbn [map List.length seq MatchDescription.index MatchDescription.text
         MatchDescription.attendee_id].
    now rewrite I1, I2, I3.
Qed.

(** When every candidate has its attendee, [rerankMatches] sends exactly
    one request, whose prompt announces the number of candidates and lists
    every one of them once, in the order given, numbered from 0, with its
    text and its attendee id. *)
Theorem rerank_prompt_lists_every_candidate :
  forall (w : World) (query : string) (queryType : QueryType.t)
         (matches : list Match.t) (topK : Z) (log : list Event),
  Forall (fun m => Match.attendee m <> None) matches ->
  exists ds,
    snd (Gemini.rerankMatches w query queryType matches topK log)
    = log ++ [GenerateRerank (RerankPrompt.mk queryType query (List.length matches) topK ds)] /\
    map MatchDescription.index ds = seq 0 (List.length matches) /\
    map MatchDescription.text ds = map Match.text matches /\
    map MatchDescription.attendee_id ds = map Match.attendee_id matches.
Proof.
  intros w query queryType matches topK log Hall.
  rewrite rerankMatches_run. unfold Gemini.matchDescriptions.
  destruct (matchDescriptionsFrom_complete _ Hall 0) as [ds D]. rewrite D. cbv zeta.
  exists ds. split; [reflexivity|]. now apply matchDescriptionsFrom_fields.
Qed.

Lemma rerank_prompt_lists_every_candidate_witness :
  exists ds,
    snd (Gemini.rerankMatches (world "[1, 0]") "compilers" QueryType.request
                              [resolved; second] 25 [])
    = [] ++ [GenerateRerank (RerankPrompt.mk QueryType.request "compilers"
                               (List.length [resolved; second]) 25 ds)] /\
    map MatchDescription.index ds = seq 0 (List.length [resolved; second]) /\
    map MatchDescription.text ds = map Match.text [resolved; second] /\
    map MatchDescription.attendee_id ds = map Match.attendee_id [resolved; second].
Proof.
  apply (rerank_prompt_lists_every_candidate (world "[1, 0]") "compilers" QueryType.request
           [resolved; second] 25 []).
  repeat constructor; discriminate.
Defined.

(** ** Re-ranking no candidates *)

Lemma rerankMatches_nil (w : World) (query : string) (queryType : QueryType.t) (topK : Z)
  (log : list Event) :
  snd (Gemini.rerankMatches w query queryType [] topK log)
  = log ++ [GenerateRerank (RerankPrompt.mk queryType query 0 topK [])]
  /\ forall out, fst (Gemini.rerankMatches w query queryType [] topK log) = Normal out ->
                 out = [].
Proof.
  rewrite rerankMatches_run. cbn. split; [reflexivity|].
  intros out R. apply rerankResponse_chosen in R.
  destruct out as [|r out]; [reflexivity|].
  inversion R as [|? ? (m & a & [] & _) _].
Qed.

Lemma lookedUpFrom_faults (w : World) (rows : list Row.t) :
  forall tick, (forall n, (tick <= n)%nat -> dbFault w n <> None) ->
  nonNull (lookedUpFrom w tick rows) = [].
Proof.
  induction rows as [|row rows IH]; intros tick F; [reflexivity|].
  cbn [lookedUpFrom nonNull flat_map]. unfold lookedUp.
  destruct (dbFault w tick) eqn:D; [|now apply F in D].
  apply IH. intros n Hn. apply F. lia.
Qed.

(** Free-text offering mode has no guard on the candidates that are left
    once the attendees were looked up.  If the search finds rows and the
    database fails from then on, every lookup is dropped and the re-ranker
    is still asked, about zero candidates; whatever it answers, a 200
    response then carries no match. *)
Theorem reranker_is_asked_about_no_candidates :
  forall (w : World) (offering : string) (queryEmbedding : list float) (rows : list Row.t),
  offering <> "" ->
  Gemini.embeddingOfResponse (embedContent w 0 offering) = Normal queryEmbedding ->
  dbFault w 1 = None ->
  Sql.match_requests (cosine_distance w) (db w) queryEmbedding threshold 50 None
  = Postgrest.ok rows ->
  rows <> [] ->
  (forall n, (2 <= n)%nat -> dbFault w n <> None) ->
  snd (search_by_offering w (Post (Some (Js.Str offering))) [])
  = [EmbedContent offering; RpcMatch Requests queryEmbedding threshold 50 None]
    ++ lookups rows
    ++ [GenerateRerank (RerankPrompt.mk QueryType.offering offering 0 25 [])]
  /\ forall body,
       fst (search_by_offering w (Post (Some (Js.Str offering))) []) = Normal (Success body) ->
       body = Flat.mk offering [].
Proof.
  intros w offering q rows Hne He Hf Hrows Hnil Hdown.
  destruct offering as [|c offering]; [congruence|].
  set (o := String c offering) in *.
  set (L := [EmbedContent o; RpcMatch Requests q threshold 50 None] ++ lookups rows).
  assert (Run : search_by_offering w (Post (Some (Js.Str o))) []
                = (match fst (Gemini.rerankMatches w o QueryType.offering [] 25 L) with
                   | Normal out => Normal (Success (Flat.mk o out))
                   | Throw e => Normal (Failure 500 (message e))
                   end,
                   snd (Gemini.rerankMatches w o QueryType.offering [] 25 L))).
  { subst o. unfold search_by_offering, catch, bind.
    rewrite (run_generateEmbedding w (String c offering) q []); [|discriminate|exact He].
    rewrite run_rpc by exact Hf.
    change (Sql.table (db w) Requests) with (Sql.requests (db w)).
    unfold Sql.match_requests in Hrows. rewrite Hrows.
    cbn [Postgrest.error Postgrest.ok Postgrest.data].
    destruct rows as [|row rows]; [congruence|]. cbn [isEmpty].
    rewrite mapAll_lookup_run, lookedUpFrom_faults by exact Hdown.
    change (([] ++ [EmbedContent (String c offering)])
            ++ [RpcMatch Requests q threshold 50 None])
      with [EmbedContent (String c offering); RpcMatch Requests q threshold 50 None].
    fold L.
    now destruct (Gemini.rerankMatches w (String c offering) QueryType.offering [] 25 L)
      as [[out|e] log']. }
  rewrite Run. cbn [fst snd].
  destruct (rerankMatches_nil w o QueryType.offering 25 L) as [T O].
  split.
  - rewrite T. unfold L. now rewrite <- app_assoc.
  - destruct (fst (Gemini.rerankMatches w o QueryType.offering [] 25 L)) as [out|e];
      [|discriminate].
    intros body [= <-]. now rewrite (O out eq_refl).
Qed.

Lemma reranker_is_asked_about_no_candidates_witness :
  snd (search_by_offering (worldFailing store (Nat.leb 2))
                          (Post (Some (Js.Str "I can teach analysis"))) [])
  = [EmbedContent "I can teach analysis"; RpcMatch Requests [1%float] threshold 50 None]
    ++ lookups [Row.mk (Some 1%Z) "Looking for a compilers mentor" (1 - (1 # 10))%Q;
                Row.mk (Some 3%Z) "Need help with analysis" (1 - (1 # 10))%Q]
    ++ [GenerateRerank (RerankPrompt.mk QueryType.offering "I can teach analysis" 0 25 [])]
  /\ forall body,
       fst (search_by_offering (worldFailing store (Nat.leb 2))
                               (Post (Some (Js.Str "I can teach analysis"))) [])
       = Normal (Success body) ->
       body = Flat.mk "I can teach analysis" [].
Proof.
  apply (reranker_is_asked_about_no_candidates _ "I can teach analysis" [1%float]).
  - discriminate.
  - reflexivity.
  - reflexivity.
  - reflexivity.
  - discriminate.
  - intros n Hn. cbn [dbFault worldFailing]. destruct (Nat.leb_spec 2 n); [discriminate|lia].
Defined.

(** ** How the handlers answer *)



Lemma caught_statuses {A : Type} (body : M (Response A)) (Allowed : nat -> Prop) :
  triple (fun _ => True) body (fun r _ => Allowed (status r)) (fun _ _ => True) ->
  forall log, exists r,
    fst (catch body (fun error => ret (Failure 500 (message error))) log) = Normal r /\
    (Allowed (status r) \/ status r = 500).
Proof.
  intros T log. specialize (T log I). unfold catch.
  destruct (body log) as [[r|e] log'].
  - exists r. auto.
  - eexists. split; [reflexivity|]. now right.
Qed.

Lemma any_outcome {A : Type} (m : M A) :
  triple (fun _ => True) m (fun _ _ => True) (fun _ _ => True).
Proof. intros log _. now destruct (m log) as [[a|e] log']. Qed.

Lemma bidirectional_succeeds (w : World) (attendee : Attendee.t) :
  triple (fun _ => True) (bidirectional w attendee)
         (fun r _ => status r = 200) (fun _ _ => True).
Proof.
  unfold bidirectional. cbv zeta.
  apply triple_bind with (Mid := fun _ _ => True); [apply any_outcome|]. intros r1.
  destruct (Postgrest.error r1); [now apply triple_throw|].
  apply triple_bind with (Mid := fun _ _ => True); [apply any_outcome|]. intros r2.
  destruct (Postgrest.error r2); [now apply triple_throw|].
  apply triple_bind with (Mid := fun _ _ => True); [apply any_outcome|]. intros helpers.
  apply triple_bind with (Mid := fun _ _ => True); [apply any_outcome|]. intros helped.
  now apply triple_ret.
Qed.

Lemma not_a_post (P : option Js.value -> bool) (r : Incoming) :
  (forall field, r <> Post field) ->
  ~ exists field, r = Post field /\ P field = true.
Proof. intros H (field & E & _). now apply (H field). Qed.

Lemma search_by_request_statuses (w : World) (req : Incoming) (log : list Event) :
  exists r, fst (search_by_request w req log) = Normal r /\
            (status r = 200 \/ status r = 400 \/ status r = 500) /\
            (status r = 400 <-> exists field, req = Post field /\ refusedText field = true).
Proof.
  destruct req as [|thrown|field].
  - eexists. split; [reflexivity|]. split; [now left|]. split; [discriminate|].
    intros H. now apply not_a_post in H.
  - eexists. split; [reflexivity|]. split; [now right; right|]. split; [discriminate|].
    intros H. now apply not_a_post in H.
  - destruct (refusedText field) eqn:Rf.
    + exists (Failure 400 "Request parameter is required and must be a string").
      split; [now destruct field as [[| | |[|c s]| |]|]|].
      split; [now right; left|]. split; [eauto | reflexivity].
    + assert (B : exists r, fst (search_by_request w (Post field) log) = Normal r /\
                            (status r = 200 \/ status r = 500)).
      { destruct field as [[| | |[|c s]| |]|]; try discriminate;
          try (eexists; split; [reflexivity|]; now right).
        unfold search_by_request. apply (caught_statuses _ (fun s => s = 200)).
        apply triple_bind with (Mid := fun _ _ => True); [apply any_outcome|]. intros so.
        apply triple_bind with (Mid := fun _ _ => True); [apply any_outcome|]. intros q.
        apply triple_bind with (Mid := fun _ _ => True); [apply any_outcome|]. intros r.
        destruct (Postgrest.error r); [now apply triple_throw|].
        destruct (isEmpty (Postgrest.data r)); [now apply triple_ret|]. cbv zeta.
        apply triple_bind with (Mid := fun _ _ => True); [apply any_outcome|]. intros ms.
        apply triple_bind with (Mid := fun _ _ => True); [apply any_outcome|]. intros fm.
        now apply triple_ret. }
      destruct B as (r & Hr & Hs). exists r. split; [exact Hr|].
      split; [tauto|]. split.
      * intros H. destruct Hs as [Hs|Hs]; rewrite Hs in H; discriminate.
      * intros (f & [= <-] & H). congruence.
Qed.

Lemma search_by_offering_statuses (w : World) (req : Incoming) (log : list Event) :
  exists r, fst (search_by_offering w req log) = Normal r /\
            (status r = 200 \/ status r = 400 \/ status r = 500) /\
            (status r = 400 <-> exists field, req = Post field /\ refusedText field = true).
Proof.
  destruct req as [|thrown|field].
  - eexists. split; [reflexivity|]. split; [now left|]. split; [discriminate|].
    intros H. now apply not_a_post in H.
  - eexists. split; [reflexivity|]. split; [now right; right|]. split; [discriminate|].
    intros H. now apply not_a_post in H.
  - destruct (refusedText field) eqn:Rf.
    + exists (Failure 400 "Offering parameter is required and must be a string").
      split; [now destruct field as [[| | |[|c s]| |]|]|].
      split; [now right; left|]. split; [eauto | reflexivity].
    + assert (B : exists r, fst (search_by_offering w (Post field) log) = Normal r /\
                            (status r = 200 \/ status r = 500)).
      { destruct field as [[| | |[|c s]| |]|]; try discriminate;
          try (eexists; split; [reflexivity|]; now right).
        unfold search_by_offering. apply (caught_statuses _ (fun s => s = 200)).
        apply triple_bind with (Mid := fun _ _ => True); [apply any_outcome|]. intros q.
        apply triple_bind with (Mid := fun _ _ => True); [apply any_outcome|]. intros r.
        destruct (Postgrest.error r); [now apply triple_throw|].
        destruct (isEmpty (Postgrest.data r)); [now apply triple_ret|]. cbv zeta.
        apply triple_bind with (Mid := fun _ _ => True); [apply any_outcome|]. intros ms.
        apply triple_bind with (Mid := fun _ _ => True); [apply any_outcome|]. intros fm.
        now apply triple_ret. }
      destruct B as (r & Hr & Hs). exists r. split; [exact Hr|].
      split; [tauto|]. split.
      * intros H. destruct Hs as [Hs|Hs]; rewrite Hs in H; discriminate.
      * intros (f & [= <-] & H). congruence.
Qed.

Lemma search_by_username_statuses (w : World) (req : Incoming) (log : list Event) :
  exists r, fst (search_by_username w req log) = Normal r /\
            (status r = 200 \/ status r = 400 \/ status r = 404 \/ status r = 500) /\
            (status r = 400 <-> exists field, req = Post field /\ refusedName field = true).
Proof.
  destruct req as [|thrown|field].
  - eexists. split; [reflexivity|]. split; [now left|]. split; [discriminate|].
    intros H. now apply not_a_post in H.
  - eexists. split; [reflexivity|]. split; [now right; right; right|].
    split; [discriminate|]. intros H. now apply not_a_post in H.
  - destruct (refusedName field) eqn:Rf.
    + exists (Failure 400 "Name parameter is required and must be a string").
      split; [now destruct field as [[| | |[|c s]| |]|]|].
      split; [now right; left|]. split; [eauto | reflexivity].
    + assert (B : exists r, fst (search_by_username w (Post field) log) = Normal r /\
                            ((status r = 200 \/ status r = 404) \/ status r = 500)).
      { destruct field as [[| | |[|c s]| |]|]; try discriminate.
        unfold search_by_username.
        apply (caught_statuses _ (fun s => s = 200 \/ s = 404)).
        apply triple_bind with (Mid := fun _ _ => True); [apply any_outcome|].
        intros [attendee|].
        - eapply triple_weaken; [apply bidirectional_succeeds | | |]; simpl; auto.
        - apply triple_ret. intros _ _. now right. }
      destruct B as (r & Hr & Hs). exists r. split; [exact Hr|].
      split; [tauto|]. split.
      * intros H. destruct Hs as [[Hs|Hs]|Hs]; rewrite Hs in H; discriminate.
      * intros (f & [= <-] & H). congruence.
Qed.


(** ** How many matches a response carries *)

Lemma validated_length (matches : list Match.t) (entries : list Js.value) :
  (List.length (flat_map (fun idx => match Gemini.validate matches idx with
                                     | Some r => [r] | None => [] end) entries)
   <= List.length entries)%nat.
Proof.
  induction entries as [|x l IH]; simpl; [lia|]. rewrite length_app.
  destruct (Gemini.validate matches x); simpl; lia.
Qed.

Lemma selectMatches_length (matches : list Match.t) (topK : Z) (v : Js.value)
  (out : list FinalMatch.t) :
  (0 <= topK)%Z ->
  Gemini.selectMatches matches topK v = Normal out ->
  (List.length out <= Z.to_nat topK)%nat.
Proof.
  intros Hk. unfold Gemini.selectMatches.
  destruct v as [| | |s|elems|]; try discriminate; intros [= <-];
    rewrite fold_pushValid, (slice0_firstn _ _ Hk); cbn [app];
    (eapply Nat.le_trans; [apply validated_length|]);
    rewrite length_firstn; lia.
Qed.

Lemma rerankResponse_length (parse : string -> option Js.value) (matches : list Match.t)
  (topK : Z) (response : Fetched GenerateResponse) (out : list FinalMatch.t) :
  (0 <= topK)%Z ->
  Gemini.rerankResponse parse matches topK response = Normal out ->
  (List.length out <= Z.to_nat topK)%nat.
Proof.
  intros Hk. unfold Gemini.rerankResponse.
  destruct response as [ | | | [data|]]; try discriminate.
  destruct (candidates data) as [[|[text|] rest]|]; try discriminate.
  destruct (Gemini.cleanResultText text) as [resultText|e]; [|discriminate]. simpl.
  destruct (parse resultText) as [v|]; [|discriminate].
  now apply selectMatches_length.
Qed.

Lemma rerankMatches_length (w : World) (query : string) (queryType : QueryType.t)
  (matches : list Match.t) :
  triple (fun _ => True) (Gemini.rerankMatches w query queryType matches 25)
         (fun out _ => (List.length out <= 25)%nat) (fun _ _ => True).
Proof.
  intros log _. rewrite rerankMatches_run.
  destruct (Gemini.matchDescriptions matches) as [ds|e]; [|exact I]. cbv zeta.
  destruct (Gemini.rerankResponse _ _ _ _) as [out|e] eqn:R; [|exact I].
  apply rerankResponse_length in R; [exact R | lia].
Qed.

Lemma caught_value {A : Type} (body : M (Response A)) (P : Response A -> Prop) :
  (forall error, P (Failure 500 error)) ->
  triple (fun _ => True) body (fun r _ => P r) (fun _ _ => True) ->
  forall log r,
    fst (catch body (fun error => ret (Failure 500 (message error))) log) = Normal r -> P r.
Proof.
  intros H5 T log r. specialize (T log I). unfold catch.
  destruct (body log) as [[r'|e] log']; cbn; intros [= <-]; auto.
Qed.

Lemma pushGroup_short (w : World) (queryType : QueryType.t) (text : string)
  (groups : list Group.t) (response : Postgrest.Result (list Row.t)) :
  triple (fun _ => Forall shortGroup groups) (pushGroup w queryType text groups response)
         (fun groups' _ => Forall shortGroup groups') (fun _ _ => True).
Proof.
  unfold pushGroup.
  destruct (Postgrest.error response); [now apply triple_ret|].
  destruct (isEmpty (Postgrest.data response)); [now apply triple_ret|].
  apply triple_bind with (Mid := fun _ _ => Forall shortGroup groups).
  { intros log H. now destruct (mapAll _ _ log) as [[ms|e] log']. }
  intros ms. cbv zeta. destruct (nonNull ms) as [|m valid]; [now apply triple_ret|].
  apply triple_bind
    with (Mid := fun out _ => Forall shortGroup groups /\ (List.length out <= 25)%nat).
  { intros log H. pose proof (rerankMatches_length w text queryType (m :: valid) log I) as L.
    now destruct (Gemini.rerankMatches _ _ _ _ _ log) as [[out|e] log']. }
  intros out. apply triple_ret. intros log [H L].
  apply Forall_app. split; [exact H|]. constructor; [exact L | constructor].
Qed.

Lemma bidirectional_short (w : World) (attendee : Attendee.t) :
  triple (fun _ => True) (bidirectional w attendee) (fun r _ => shortGroups r)
         (fun _ _ => True).
Proof.
  unfold bidirectional. cbv zeta.
  apply triple_bind with (Mid := fun _ _ => True); [apply any_outcome|]. intros r1.
  destruct (Postgrest.error r1); [now apply triple_throw|].
  apply triple_bind with (Mid := fun _ _ => True); [apply any_outcome|]. intros r2.
  destruct (Postgrest.error r2); [now apply triple_throw|].
  apply triple_bind with (Mid := fun helpers _ => Forall shortGroup helpers).
  { eapply triple_weaken;
      [apply (triple_forEach (fun acc _ => Forall shortGroup acc) (fun _ _ => True)) | | |];
      [|intros log _; constructor | auto | auto].
    intros acc req _. unfold requestStep.
    apply triple_bind with (Mid := fun _ _ => Forall shortGroup acc).
    { intros log H. now destruct (Gemini.generateSyntheticOffering _ _ log) as [[a|e] l]. }
    intros so. apply triple_bind with (Mid := fun _ _ => Forall shortGroup acc).
    { intros log H. now destruct (Gemini.generateEmbedding _ _ log) as [[a|e] l]. }
    intros q. apply triple_bind with (Mid := fun _ _ => Forall shortGroup acc).
    { intros log H. now destruct (rpc _ _ _ _ _ _ log) as [[a|e] l]. }
    intros r. apply pushGroup_short. }
  intros helpers.
  apply triple_bind
    with (Mid := fun helped _ => Forall shortGroup helpers /\ Forall shortGroup helped).
  { intros log H.
    pose proof (triple_forEach (fun acc _ => Forall shortGroup helpers /\ Forall shortGroup acc)
                  (fun _ _ => True) (offeringStep w attendee)
                  (orNil (Postgrest.data r1))) as T.
    apply T; [|split; [exact H | constructor]].
    intros acc offer _. unfold offeringStep.
    apply triple_bind
      with (Mid := fun _ _ => Forall shortGroup helpers /\ Forall shortGroup acc).
    { intros l G. now destruct (Gemini.generateEmbedding _ _ l) as [[a|e] l']. }
    intros q. apply triple_bind
      with (Mid := fun _ _ => Forall shortGroup helpers /\ Forall shortGroup acc).
    { intros l G. now destruct (rpc _ _ _ _ _ _ l) as [[a|e] l']. }
    intros r l [G1 G2].
    pose proof (pushGroup_short w QueryType.offering offer acc r l G2) as P.
    destruct (pushGroup _ _ _ _ _ l) as [[g|e] l']; [now split | exact I]. }
  intros helped. apply triple_ret. intros log [H1 H2]. simpl.
  apply Forall_app. now split.
Qed.

(** No response carries more than 25 matches: not the list of a free-text
    answer, and not any group of an identity answer, however many entries
    the re-ranker's answer holds. *)
Theorem at_most_25_matches :
  forall (w : World) (req : Incoming) (log : list Event),
  (forall r, fst (search_by_request w req log) = Normal r -> shortList r) /\
  (forall r, fst (search_by_offering w req log) = Normal r -> shortList r) /\
  (forall r, fst (search_by_username w req log) = Normal r -> shortGroups r).
Proof.
  intros w req log. split; [|split]; intros r.
  - destruct req as [|thrown|field]; try (intros [= <-]; exact I).
    unfold search_by_request. apply caught_value; [intros; exact I|].
    destruct field as [[| | |[|c s]| |]|];
      try (now apply triple_ret); try (now apply triple_throw).
    apply triple_bind with (Mid := fun _ _ => True); [apply any_outcome|]. intros so.
    apply triple_bind with (Mid := fun _ _ => True); [apply any_outcome|]. intros q.
    apply triple_bind with (Mid := fun _ _ => True); [apply any_outcome|]. intros resp.
    destruct (Postgrest.error resp); [now apply triple_throw|].
    destruct (isEmpty (Postgrest.data resp)); [apply triple_ret; intros; simpl; lia|].
    cbv zeta.
    apply triple_bind with (Mid := fun _ _ => True); [apply any_outcome|]. intros ms.
    apply triple_bind with (Mid := fun out _ => (List.length out <= 25)%nat);
      [apply rerankMatches_length|].
    intros out. now apply triple_ret.
  - destruct req as [|thrown|field]; try (intros [= <-]; exact I).
    unfold search_by_offering. apply caught_value; [intros; exact I|].
    destruct field as [[| | |[|c s]| |]|];
      try (now apply triple_ret); try (now apply triple_throw).
    apply triple_bind with (Mid := fun _ _ => True); [apply any_outcome|]. intros q.
    apply triple_bind with (Mid := fun _ _ => True); [apply any_outcome|]. intros resp.
    destruct (Postgrest.error resp); [now apply triple_throw|].
    destruct (isEmpty (Postgrest.data resp)); [apply triple_ret; intros; simpl; lia|].
    cbv zeta.
    apply triple_bind with (Mid := fun _ _ => True); [apply any_outcome|]. intros ms.
    apply triple_bind with (Mid := fun out _ => (List.length out <= 25)%nat);
      [apply rerankMatches_length|].
    intros out. now apply triple_ret.
  - destruct req as [|thrown|field]; try (intros [= <-]; exact I).
    unfold search_by_username. apply caught_value; [intros; exact I|].
    destruct field as [[| | |[|c s]| |]|]; try (now apply triple_ret).
    apply triple_bind with (Mid := fun _ _ => True); [apply any_outcome|].
    intros [attendee|]; [apply bidirectional_short | now apply triple_ret].
Qed.

(** ** How many candidates the re-ranker is shown *)

Section Kept.

(** A property of the trace that only looks at its re-rank calls, kept
    whether a step returns or throws. *)
Variable I : list Event -> Prop.
Hypothesis I_calls : forall log log', rerankCalls log' = rerankCalls log -> I log -> I log'.

Lemma kept_call {A : Type} (ev : Event) (answer : nat -> A) (R : A -> Prop) :
  isRerank ev = false -> (forall n, R (answer n)) ->
  triple I (call ev answer) (fun a log => I log /\ R a) (fun _ log => I log).
Proof.
  intros H HR. apply triple_call. intros log HI. split; [|apply HR].
  apply (I_calls log); [now apply rerankCalls_snoc | exact HI].
Qed.

Lemma kept_query {A : Type} (w : World) (ev : Event) (answer : Postgrest.Result A) :
  isRerank ev = false ->
  triple I (query w ev answer) (fun _ log => I log) (fun _ log => I log).
Proof.
  intros H. unfold query.
  apply (triple_weaken I I _ _ (fun _ log => I log /\ True) _ (fun _ log => I log));
    auto; [|tauto].
  now apply kept_call.
Qed.

Lemma kept_generateEmbedding (w : World) (text : string) :
  triple I (Gemini.generateEmbedding w text) (fun _ log => I log) (fun _ log => I log).
Proof.
  unfold Gemini.generateEmbedding. destruct (text =? "")%string.
  - now apply triple_throw.
  - apply triple_bind with (Mid := fun _ log => I log /\ True); [now apply kept_call|].
    intros r. apply triple_lift. intros log [H _].
    now destruct (Gemini.embeddingOfResponse r).
Qed.

Lemma kept_generateSyntheticOffering (w : World) (request : string) :
  triple I (Gemini.generateSyntheticOffering w request) (fun _ log => I log)
         (fun _ log => I log).
Proof.
  unfold Gemini.generateSyntheticOffering. destruct (request =? "")%string.
  - now apply triple_throw.
  - apply triple_bind with (Mid := fun _ log => I log /\ True); [now apply kept_call|].
    intros r. apply triple_lift. intros log [H _].
    now destruct (Gemini.syntheticOfferingOfResponse r).
Qed.

Lemma kept_rpc (w : World) (c : Collection) (q : list float) (ex : option Z) :
  triple I (rpc w c q threshold 50 ex) (fun r log => I log /\ rowsWithin r)
         (fun _ log => I log).
Proof.
  unfold rpc, query. apply kept_call; [reflexivity|].
  intros n rows. destruct (dbFault w n); [discriminate|].
  destruct (match_rows_searchResult (cosine_distance w) (Sql.table (db w) c) q threshold
              50 ex ltac:(lia)) as (out & -> & (_ & _ & _ & L) & _).
  intros [= <-]. lia.
Qed.

Lemma kept_mapAll_lookup (w : World) (rows : list Row.t) :
  triple I (mapAll (lookupAttendee w) rows)
         (fun found log => I log /\ List.length found = List.length rows)
         (fun _ log => I log).
Proof.
  intros log HI. rewrite mapAll_lookup_run. split; [|apply lookedUpFrom_length].
  apply (I_calls log); [|exact HI]. rewrite rerankCalls_app.
  assert (E : rerankCalls (lookups rows) = []).
  { unfold lookups. induction rows as [|row rows IH]; [reflexivity | exact IH]. }
  rewrite E. apply app_nil_r.
Qed.

Lemma kept_mapAll_caught_lookup (w : World) (rows : list Row.t) :
  triple I (mapAll (fun match_ => catch (lookupAttendee w match_) (fun _ => ret None)) rows)
         (fun found log => I log /\ List.length found = List.length rows)
         (fun _ log => I log).
Proof.
  intros log HI. rewrite mapAll_caught_lookup_run. split; [|apply lookedUpFrom_length].
  apply (I_calls log); [|exact HI]. rewrite rerankCalls_app.
  assert (E : rerankCalls (lookups rows) = []).
  { unfold lookups. induction rows as [|row rows IH]; [reflexivity | exact IH]. }
  rewrite E. apply app_nil_r.
Qed.

Lemma kept_findAttendee (w : World) (name : string) :
  triple I (findAttendee w name) (fun _ log => I log) (fun _ log => I log).
Proof.
  unfold findAttendee. cbv zeta.
  apply triple_bind with (Mid := fun _ log => I log).
  { destruct (2 <=? _)%nat; [|now apply triple_ret].
    apply triple_bind with (Mid := fun _ log => I log); [now apply kept_query|].
    intros r. now apply triple_ret. }
  intros s1. apply triple_bind with (Mid := fun _ log => I log).
  { destruct (isEmpty (fst s1)); [|now apply triple_ret].
    apply triple_bind with (Mid := fun _ log => I log); [now apply kept_query|].
    intros r. now apply triple_ret. }
  intros s2. apply triple_bind with (Mid := fun _ log => I log).
  { destruct (isEmpty (fst s2) && _)%bool; [|now apply triple_ret].
    apply triple_bind with (Mid := fun _ log => I log); [now apply kept_query|].
    intros r. now apply triple_ret. }
  intros s3. destruct (snd s3); [now apply triple_throw|].
  destruct (fst s3) as [[|a l]|]; now apply triple_ret.
Qed.

End Kept.

Lemma promptsWithin_calls (log log' : list Event) :
  rerankCalls log' = rerankCalls log -> promptsWithin log -> promptsWithin log'.
Proof. unfold promptsWithin. now intros ->. Qed.

Lemma matchDescriptionsFrom_length (matches : list Match.t) :
  forall idx ds, Gemini.matchDescriptionsFrom idx matches = Normal ds ->
  List.length ds = List.length matches.
Proof.
  intros idx ds D. destruct (matchDescriptionsFrom_fields _ _ _ D) as (_ & T & _).
  now rewrite <- (length_map MatchDescription.text), T, length_map.
Qed.

Lemma rerankMatches_within (w : World) (query : string) (queryType : QueryType.t)
  (matches : list Match.t) :
  (List.length matches <= 50)%nat ->
  triple promptsWithin (Gemini.rerankMatches w query queryType matches 25)
         (fun _ log => promptsWithin log) (fun _ log => promptsWithin log).
Proof.
  intros L log H. rewrite rerankMatches_run.
  destruct (Gemini.matchDescriptions matches) as [ds|e] eqn:D; [|exact H]. cbv zeta.
  assert (G : promptsWithin
                (log ++ [GenerateRerank (RerankPrompt.mk queryType query
                                           (List.length matches) 25 ds)])).
  { unfold promptsWithin. rewrite rerankCalls_app. apply Forall_app. split; [exact H|].
    constructor; [|constructor]. repeat split; [exact L|].
    apply (matchDescriptionsFrom_length _ _ _ D). }
  now destruct (Gemini.rerankResponse _ _ _ _).
Qed.

Lemma pushGroup_within (w : World) (queryType : QueryType.t) (text : string)
  (groups : list Group.t) (response : Postgrest.Result (list Row.t)) :
  rowsWithin response ->
  triple promptsWithin (pushGroup w queryType text groups response)
         (fun _ log => promptsWithin log) (fun _ log => promptsWithin log).
Proof.
  intros Hrows. unfold pushGroup.
  destruct (Postgrest.error response); [now apply triple_ret|].
  destruct (Postgrest.data response) as [rows|] eqn:D; [|now apply triple_ret].
  destruct (isEmpty (Some rows)); [now apply triple_ret|]. cbn [orNil].
  apply triple_bind
    with (Mid := fun found log => promptsWithin log /\ List.length found = List.length rows).
  { apply kept_mapAll_lookup, promptsWithin_calls. }
  intros found. cbv zeta.
  destruct (nonNull found) as [|m valid] eqn:V;
    [apply triple_ret; now intros log [H _]|].
  apply triple_bind with (Mid := fun _ log => promptsWithin log).
  - intros log [H L]. revert log H. apply rerankMatches_within.
    rewrite <- V. pose proof (nonNull_length found). specialize (Hrows rows D). lia.
  - intros out. now apply triple_ret.
Qed.

Lemma bidirectional_within (w : World) (attendee : Attendee.t) :
  triple promptsWithin (bidirectional w attendee)
         (fun _ log => promptsWithin log) (fun _ log => promptsWithin log).
Proof.
  unfold bidirectional. cbv zeta.
  apply triple_bind with (Mid := fun _ log => promptsWithin log);
    [now apply kept_query; [apply promptsWithin_calls|]|]. intros os.
  destruct (Postgrest.error os); [now apply triple_throw|].
  apply triple_bind with (Mid := fun _ log => promptsWithin log);
    [now apply kept_query; [apply promptsWithin_calls|]|]. intros rs.
  destruct (Postgrest.error rs); [now apply triple_throw|].
  apply triple_bind with (Mid := fun _ log => promptsWithin log).
  { apply (triple_forEach (fun _ log => promptsWithin log)).
    intros acc x _. unfold requestStep.
    apply triple_bind with (Mid := fun _ log => promptsWithin log);
      [apply kept_generateSyntheticOffering, promptsWithin_calls|]. intros so.
    apply triple_bind with (Mid := fun _ log => promptsWithin log);
      [apply kept_generateEmbedding, promptsWithin_calls|]. intros q.
    apply triple_bind with (Mid := fun r log => promptsWithin log /\ rowsWithin r);
      [apply kept_rpc, promptsWithin_calls|].
    intros r log [H Hr]. revert log H. now apply pushGroup_within. }
  intros helpers. apply triple_bind with (Mid := fun _ log => promptsWithin log).
  { apply (triple_forEach (fun _ log => promptsWithin log)).
    intros acc x _. unfold offeringStep.
    apply triple_bind with (Mid := fun _ log => promptsWithin log);
      [apply kept_generateEmbedding, promptsWithin_calls|]. intros q.
    apply triple_bind with (Mid := fun r log => promptsWithin log /\ rowsWithin r);
      [apply kept_rpc, promptsWithin_calls|].
    intros r log [H Hr]. revert log H. now apply pushGroup_within. }
  intros helped. now apply triple_ret.
Qed.

Lemma caught_trace {A : Type} (body : M (Response A)) (I : list Event -> Prop) :
  triple I body (fun _ log => I log) (fun _ log => I log) ->
  forall log, I log ->
  I (snd (catch body (fun error => ret (Failure 500 (message error))) log)).
Proof.
  intros T log H. specialize (T log H). unfold catch.
  now destruct (body log) as [[r|e] log'].
Qed.

(** Every request the three handlers send to the re-ranker lists exactly
    the candidates it announces, never more than the 50 rows a vector
    search returns, and asks for the best 25. *)
Theorem reranker_is_shown_at_most_50 :
  forall (w : World) (req : Incoming),
  promptsWithin (snd (search_by_request w req [])) /\
  promptsWithin (snd (search_by_offering w req [])) /\
  promptsWithin (snd (search_by_username w req [])).
Proof.
  intros w req.
  assert (Nil : promptsWithin []) by constructor.
  split; [|split].
  - destruct req as [|thrown|field]; try exact Nil.
    unfold search_by_request. apply caught_trace; [|exact Nil].
    destruct field as [[| | |[|c s]| |]|];
      try (now apply triple_ret); try (now apply triple_throw).
    apply triple_bind with (Mid := fun _ log => promptsWithin log);
      [apply kept_generateSyntheticOffering, promptsWithin_calls|]. intros so.
    apply triple_bind with (Mid := fun _ log => promptsWithin log);
      [apply kept_generateEmbedding, promptsWithin_calls|]. intros q.
    apply triple_bind with (Mid := fun r log => promptsWithin log /\ rowsWithin r);
      [apply kept_rpc, promptsWithin_calls|]. intros resp.
    destruct (Postgrest.error resp); [apply triple_throw; now intros log [H _]|].
    destruct (Postgrest.data resp) as [rows|] eqn:D;
      [|apply triple_ret; now intros log [H _]].
    destruct (isEmpty (Some rows)); [apply triple_ret; now intros log [H _]|]. cbv zeta.
    apply triple_bind
      with (Mid := fun found log => (promptsWithin log /\ rowsWithin resp)
                                    /\ List.length found = List.length rows).
    { intros log [H Hr].
      pose proof (kept_mapAll_caught_lookup promptsWithin promptsWithin_calls w rows log H)
        as K.
      destruct (mapAll _ rows log) as [[found|e] log']; [|exact K].
      destruct K as [K1 K2]. auto. }
    intros found.
    apply triple_bind with (Mid := fun _ log => promptsWithin log).
    + intros log [[H Hr] L]. revert log H. apply rerankMatches_within.
      pose proof (nonNull_length found). specialize (Hr rows D). lia.
    + intros out. now apply triple_ret.
  - destruct req as [|thrown|field]; try exact Nil.
    unfold search_by_offering. apply caught_trace; [|exact Nil].
    destruct field as [[| | |[|c s]| |]|];
      try (now apply triple_ret); try (now apply triple_throw).
    apply triple_bind with (Mid := fun _ log => promptsWithin log);
      [apply kept_generateEmbedding, promptsWithin_calls|]. intros q.
    apply triple_bind with (Mid := fun r log => promptsWithin log /\ rowsWithin r);
      [apply kept_rpc, promptsWithin_calls|]. intros resp.
    destruct (Postgrest.error resp); [apply triple_throw; now intros log [H _]|].
    destruct (Postgrest.data resp) as [rows|] eqn:D;
      [|apply triple_ret; now intros log [H _]].
    destruct (isEmpty (Some rows)); [apply triple_ret; now intros log [H _]|]. cbv zeta.
    apply triple_bind
      with (Mid := fun found log => (promptsWithin log /\ rowsWithin resp)
                                    /\ List.length found = List.length rows).
    { intros log [H Hr].
      pose proof (kept_mapAll_lookup promptsWithin promptsWithin_calls w rows log H) as K.
      destruct (mapAll _ rows log) as [[found|e] log']; [|exact K].
      destruct K as [K1 K2]. auto. }
    intros found.
    apply triple_bind with (Mid := fun _ log => promptsWithin log).
    + intros log [[H Hr] L]. revert log H. apply rerankMatches_within.
      pose proof (nonNull_length found). specialize (Hr rows D). lia.
    + intros out. now apply triple_ret.
  - destruct req as [|thrown|field]; try exact Nil.
    unfold search_by_username. apply caught_trace; [|exact Nil].
    destruct field as [[| | |[|c s]| |]|]; try (now apply triple_ret).
    apply triple_bind with (Mid := fun _ log => promptsWithin log);
      [apply kept_findAttendee, promptsWithin_calls|].
    intros [attendee|]; [apply bidirectional_within | now apply triple_ret].
Qed.

(** ** The calls of a free-text request *)

Lemma generateEmbedding_trace (w : World) (text : string) (log : list Event) :
  (snd (Gemini.generateEmbedding w text log) = log \/
   snd (Gemini.generateEmbedding w text log) = log ++ [EmbedContent text]) /\
  forall out, fst (Gemini.generateEmbedding w text log) = Normal out ->
              snd (Gemini.generateEmbedding w text log) = log ++ [EmbedContent text].
Proof.
  unfold Gemini.generateEmbedding. destruct (text =? "")%string.
  - split; [now left | discriminate].
  - unfold bind, call, lift. cbn. split; [now right | reflexivity].
Qed.

Lemma generateSyntheticOffering_trace (w : World) (request : string) (log : list Event) :
  (snd (Gemini.generateSyntheticOffering w request log) = log \/
   snd (Gemini.generateSyntheticOffering w request log) = log ++ [GenerateSynthetic request]) /\
  forall out, fst (Gemini.generateSyntheticOffering w request log) = Normal out ->
              snd (Gemini.generateSyntheticOffering w request log)
              = log ++ [GenerateSynthetic request].
Proof.
  unfold Gemini.generateSyntheticOffering. destruct (request =? "")%string.
  - split; [now left | discriminate].
  - unfold bind, call, lift. cbn. split; [now right | reflexivity].
Qed.

Lemma rpc_run_any (w : World) (c : Collection) (q : list float) (th : Q) (k : Z)
  (ex : option Z) (log : list Event) :
  exists answer, rpc w c q th k ex log = (Normal answer, log ++ [RpcMatch c q th k ex]) /\
                 (k = 50%Z -> th = threshold -> rowsWithin answer).
Proof.
  unfold rpc, query, call. eexists. split; [reflexivity|].
  intros -> -> rows. destruct (dbFault w (List.length log)); [discriminate|].
  destruct (match_rows_searchResult (cosine_distance w) (Sql.table (db w) c) q threshold
              50 ex ltac:(lia)) as (out & -> & (_ & _ & _ & L) & _).
  intros [= <-]. lia.
Qed.

Lemma rerankMatches_trace (w : World) (query : string) (queryType : QueryType.t)
  (matches : list Match.t) (topK : Z) (log : list Event) :
  snd (Gemini.rerankMatches w query queryType matches topK log) = log \/
  exists p, snd (Gemini.rerankMatches w query queryType matches topK log)
            = log ++ [GenerateRerank p].
Proof.
  rewrite rerankMatches_run. destruct (Gemini.matchDescriptions matches) as [ds|e].
  - right. eexists. reflexivity.
  - now left.
Qed.

Lemma prefixOf_length (log full : list Event) :
  prefixOf log full -> (List.length log <= List.length full)%nat.
Proof. intros [rest ->]. rewrite length_app. lia. Qed.

Lemma lookups_length (rows : list Row.t) : List.length (lookups rows) = List.length rows.
Proof. apply length_map. Qed.

(** After the vector search the two free-text handlers run the same
    steps: the lookups, then the re-rank request. *)
Lemma after_the_search (w : World) (text : string) (queryType : QueryType.t)
  (rows : list Row.t) (found : list (option Match.t)) (log : list Event) :
  exists p,
    prefixOf (snd (bind (Gemini.rerankMatches w text queryType (nonNull found) 25)
                        (fun finalMatches => ret (Success (Flat.mk text finalMatches)))
                        (log ++ lookups rows)))
             (log ++ lookups rows ++ [GenerateRerank p]).
Proof.
  unfold bind.
  destruct (rerankMatches_trace w text queryType (nonNull found) 25 (log ++ lookups rows))
    as [T|[p T]];
    destruct (Gemini.rerankMatches w text queryType (nonNull found) 25 (log ++ lookups rows))
      as [[out|e] log']; cbn [snd ret] in *; subst log'.
  - exists (RerankPrompt.mk queryType text 0 25 []).
    exists [GenerateRerank (RerankPrompt.mk queryType text 0 25 [])].
    now rewrite <- app_assoc.
  - exists (RerankPrompt.mk queryType text 0 25 []).
    exists [GenerateRerank (RerankPrompt.mk queryType text 0 25 [])].
    now rewrite <- app_assoc.
  - exists p, []. now rewrite app_nil_r, <- app_assoc.
  - exists p, []. now rewrite app_nil_r, <- app_assoc.
Qed.

Lemma catch_trace {A : Type} (body : M A) (recover : Exn -> A) (log : list Event) :
  snd (catch body (fun error => ret (recover error)) log) = snd (body log).
Proof. unfold catch. now destruct (body log) as [[a|e] log']. Qed.

Lemma offering_protocol (w : World) (text : string) :
  exists q rows p,
    (List.length rows <= 50)%nat /\
    prefixOf (snd (search_by_offering w (Post (Some (Js.Str text))) []))
             (offeringCalls text q rows p).
Proof.
  set (p0 := RerankPrompt.mk QueryType.offering text 0 25 []).
  destruct text as [|c s].
  - exists [], [], p0. split; [simpl; lia|]. eexists. reflexivity.
  - unfold search_by_offering. rewrite catch_trace. unfold bind at 1.
    destruct (generateEmbedding_trace w (String c s) []) as [T1 T1'].
    destruct (Gemini.generateEmbedding w (String c s) []) as [[q|e] l1]; cbn [fst snd] in *.
    2: { exists [], [], p0. split; [simpl; lia|].
         destruct T1 as [-> | ->]; eexists; reflexivity. }
    rewrite (T1' q eq_refl). unfold bind at 1.
    destruct (rpc_run_any w Requests q threshold 50 None ([] ++ [EmbedContent (String c s)]))
      as (answer & -> & W).
    specialize (W eq_refl eq_refl).
    destruct (Postgrest.error answer).
    { exists q, [], p0. split; [simpl; lia|]. eexists. reflexivity. }
    destruct (Postgrest.data answer) as [[|row rows]|] eqn:D; cbn [isEmpty].
    + exists q, [], p0. split; [simpl; lia|]. eexists. reflexivity.
    + unfold bind at 1. rewrite mapAll_lookup_run. cbv zeta.
      destruct (after_the_search w (String c s) QueryType.offering (row :: rows)
                  (lookedUpFrom w
                     (List.length (([] ++ [EmbedContent (String c s)])
                                   ++ [RpcMatch Requests q threshold 50 None]))
                     (row :: rows))
                  (([] ++ [EmbedContent (String c s)])
                   ++ [RpcMatch Requests q threshold 50 None])) as [p P].
      exists q, (row :: rows), p. split; [now apply W|]. exact P.
    + exists q, [], p0. split; [simpl; lia|]. eexists. reflexivity.
Qed.

Lemma request_protocol (w : World) (text : string) :
  exists so q rows p,
    (List.length rows <= 50)%nat /\
    prefixOf (snd (search_by_request w (Post (Some (Js.Str text))) []))
             (requestCalls text so q rows p).
Proof.
  set (p0 := RerankPrompt.mk QueryType.request text 0 25 []).
  destruct text as [|c s].
  - exists "", [], [], p0. split; [simpl; lia|]. eexists. reflexivity.
  - unfold search_by_request. rewrite catch_trace. unfold bind at 1.
    destruct (generateSyntheticOffering_trace w (String c s) []) as [T0 T0'].
    destruct (Gemini.generateSyntheticOffering w (String c s) []) as [[so|e] l0];
      cbn [fst snd] in *.
    2: { exists "", [], [], p0. split; [simpl; lia|].
         destruct T0 as [-> | ->]; eexists; reflexivity. }
    rewrite (T0' so eq_refl). unfold bind at 1.
    destruct (generateEmbedding_trace w so ([] ++ [GenerateSynthetic (String c s)]))
      as [T1 T1'].
    destruct (Gemini.generateEmbedding w so ([] ++ [GenerateSynthetic (String c s)]))
      as [[q|e] l1]; cbn [fst snd] in *.
    2: { exists so, [], [], p0. split; [simpl; lia|].
         destruct T1 as [-> | ->]; eexists; reflexivity. }
    rewrite (T1' q eq_refl). unfold bind at 1.
    destruct (rpc_run_any w Offerings q threshold 50 None
                (([] ++ [GenerateSynthetic (String c s)]) ++ [EmbedContent so]))
      as (answer & -> & W).
    specialize (W eq_refl eq_refl).
    destruct (Postgrest.error answer).
    { exists so, q, [], p0. split; [simpl; lia|]. eexists. reflexivity. }
    destruct (Postgrest.data answer) as [[|row rows]|] eqn:D; cbn [isEmpty].
    + exists so, q, [], p0. split; [simpl; lia|]. eexists. reflexivity.
    + unfold bind at 1. rewrite mapAll_caught_lookup_run. cbv zeta.
      destruct (after_the_search w (String c s) QueryType.request (row :: rows)
                  (lookedUpFrom w
                     (List.length ((([] ++ [GenerateSynthetic (String c s)])
                                    ++ [EmbedContent so])
                                   ++ [RpcMatch Offerings q threshold 50 None]))
                     (row :: rows))
                  ((([] ++ [GenerateSynthetic (String c s)]) ++ [EmbedContent so])
                   ++ [RpcMatch Offerings q threshold 50 None])) as [p P].
      exists so, q, (row :: rows), p. split; [now apply W|]. exact P.
    + exists so, q, [], p0. split; [simpl; lia|]. eexists. reflexivity.
Qed.

(** The calls of a free-text request come in one fixed order.  In request
    mode: the generative call for the synthetic offering, the embedding of
    that offering, the search among the offerings for 50 rows above 0.5,
    one attendee lookup per row found, one re-rank request; the run may
    stop early, never reorder, repeat or add a call.  Offering mode is the
    same without the first call, on the requests.  So a request costs at
    most 54 calls, an offering at most 53. *)
Theorem free_text_calls_in_order :
  forall (w : World) (text : string),
  (exists syntheticOffering queryEmbedding rows prompt,
     (List.length rows <= 50)%nat /\
     prefixOf (snd (search_by_request w (Post (Some (Js.Str text))) []))
              (requestCalls text syntheticOffering queryEmbedding rows prompt)) /\
  (exists queryEmbedding rows prompt,
     (List.length rows <= 50)%nat /\
     prefixOf (snd (search_by_offering w (Post (Some (Js.Str text))) []))
              (offeringCalls text queryEmbedding rows prompt)) /\
  (List.length (snd (search_by_request w (Post (Some (Js.Str text))) [])) <= 54)%nat /\
  (List.length (snd (search_by_offering w (Post (Some (Js.Str text))) [])) <= 53)%nat.
Proof.
  intros w text.
  destruct (request_protocol w text) as (so & q & rows & p & L & P).
  destruct (offering_protocol w text) as (q' & rows' & p' & L' & P').
  split; [now exists so, q, rows, p|]. split; [now exists q', rows', p'|].
  apply prefixOf_length in P, P'.
  assert (F : List.length (requestCalls text so q rows p) = (3 + List.length rows + 1)%nat)
    by (unfold requestCalls; rewrite !length_app, lookups_length; reflexivity).
  assert (F' : List.length (offeringCalls text q' rows' p') = (2 + List.length rows' + 1)%nat)
    by (unfold offeringCalls; rewrite !length_app, lookups_length; reflexivity).
  split; lia.
Qed.

(** ** Identity resolution, further *)

Lemma query_run (w : World) (ev : Event) (rows : list Attendee.t) (log : list Event) :
  (result <- query w ev (Postgrest.ok rows) ;; ret (assign result)) log
  = (Normal (assign (answerAt w (List.length log) rows)), log ++ [ev]).
Proof. reflexivity. Qed.

(** What [findAttendee] comes to, faults included. *)
Lemma findAttendee_strategies (w : World) (name : string) (log : list Event) :
  fst (findAttendee w name log)
  = let tokens := JsString.splitSpaces (JsString.trim name) in
    let s3 := strategies w (List.length log) (2 <=? List.length tokens)%nat
                (Sql.selectIlikeBoth (db w) (nth 0 tokens "")
                                     (JsString.join " " (tl tokens)) 1)
                (Sql.selectIlikeEither (db w) ("%" ++ name ++ "%") ("%" ++ name ++ "%") 5)
                (Sql.selectIlikeEither (db w) ("%" ++ nth 0 tokens "" ++ "%")
                                       ("%" ++ last tokens "" ++ "%") 5) in
    match snd s3 with
    | Some searchError => Throw (PostgrestError searchError)
    | None => Normal (match fst s3 with
                      | None | Some [] => None
                      | Some (attendee :: _) => Some attendee
                      end)
    end.
Proof.
  unfold findAttendee, strategies. cbv zeta.
  set (tokens := JsString.splitSpaces (JsString.trim name)).
  destruct (2 <=? List.length tokens)%nat eqn:Several.
  - erewrite bind_normal by apply query_run.
    destruct (isEmpty (fst (assign (answerAt w (List.length log) _)))) eqn:E1.
    + erewrite bind_normal by apply query_run. rewrite length_app, Nat.add_1_r.
      destruct (isEmpty (fst (assign (answerAt w (S (List.length log)) _)))) eqn:E2;
        cbn [andb].
      * erewrite bind_normal by apply query_run. rewrite !length_app, !Nat.add_1_r.
        destruct (assign (answerAt w (S (S (List.length log))) _)) as [[[|a l]|] [e|]];
          reflexivity.
      * erewrite bind_normal by reflexivity.
        destruct (assign (answerAt w (S (List.length log)) _)) as [[[|a l]|] [e|]];
          reflexivity.
    + erewrite bind_normal by reflexivity. rewrite E1. cbn [andb].
      erewrite bind_normal by reflexivity.
      destruct (assign (answerAt w (List.length log) _)) as [[[|a l]|] [e|]]; reflexivity.
  - erewrite bind_normal by reflexivity. cbn [fst isEmpty].
    erewrite bind_normal by apply query_run. rewrite andb_false_r.
    erewrite bind_normal by reflexivity.
    destruct (assign (answerAt w (List.length log) _)) as [[[|a l]|] [e|]]; reflexivity.
Qed.

(** Each strategy assigns both [attendees] and [searchError], so only
    the last query that runs counts: when the exact-match query fails and
    the partial-match query then finds someone, the failure is forgotten
    and the attendee is resolved. *)
Theorem earlier_query_error_is_forgotten :
  forall (w : World) (name : string) (log : list Event) (e : string)
         (a : Attendee.t) (rest : list Attendee.t),
  (2 <= List.length (JsString.splitSpaces (JsString.trim name)))%nat ->
  dbFault w (List.length log) = Some e ->
  dbFault w (S (List.length log)) = None ->
  Sql.selectIlikeEither (db w) ("%" ++ name ++ "%") ("%" ++ name ++ "%") 5 = a :: rest ->
  fst (findAttendee w name log) = Normal (Some a).
Proof.
  intros w name log e a rest Several F1 F2 R2.
  rewrite findAttendee_strategies. cbv zeta. unfold strategies, answerAt.
  apply Nat.leb_le in Several. rewrite Several, F1. cbn [assign Postgrest.failed
    Postgrest.data Postgrest.error fst snd isEmpty]. rewrite F2, R2. reflexivity.
Qed.

Lemma earlier_query_error_is_forgotten_witness :
  fst (findAttendee (worldFailing directory (Nat.eqb 0)) "van Ross" []) = Normal (Some guido).
Proof.
  apply (earlier_query_error_is_forgotten _ "van Ross" [] "connection lost" guido []).
  - vm_compute. lia.
  - reflexivity.
  - reflexivity.
  - reflexivity.
Defined.

(** For a name that holds no metacharacter of LIKE and no character the
    filter syntax reserves, and a database that answers every query,
    resolution runs as three tiers, each only when the one before yielded
    no row: tier (i), for a name of at least two tokens, the exact
    case-insensitive match of the first token against first_name and of
    the remaining tokens against last_name; tier (ii), the case-insensitive
    substring match of the whole input against either field; tier (iii),
    for a name of at least two tokens, the substring match of the first
    token against first_name or of the last against last_name.  The first
    row of the first tier that yields one is the attendee; the queries sent
    are those of the tiers that run, in order; and when no tier yields a
    row the entry point answers 404. *)
Theorem identity_resolution_runs_three_tiers :
  forall (w : World) (name : string) (log : list Event),
  (forall n, dbFault w n = None) ->
  keepsPatterns (db w) ->
  plain name = true ->
  findAttendee w name log
  = (Normal (Claim.resolve (db w) name),
     log ++ map (Claim.queryOf name) (Claim.tiersRun (db w) name)) /\
  (name <> "" -> Claim.resolve (db w) name = None ->
   fst (search_by_username w (Post (Some (Js.Str name))) [])
   = Normal (Failure 404 ("No attendee found matching '" ++ name ++ "'"))).
Proof.
  intros w name log NF K Hplain.
  assert (R : forall log', findAttendee w name log'
                           = (Normal (Claim.resolve (db w) name),
                              log' ++ map (Claim.queryOf name)
                                          (Claim.tiersRun (db w) name))).
  { intros log'. rewrite (findAttendee_run w name log' NF).
    unfold Claim.resolve, Claim.tiersRun, Claim.queryOf. cbv zeta.
    pose proof (tokens_plain name Hplain) as T.
    set (tokens := JsString.splitSpaces (JsString.trim name)) in *.
    rewrite (selectIlikeBoth_plain (db w) _ _ 1 K
               (plain_patternFree _ (nth_plain tokens 0 T))
               (plain_patternFree _ (join_plain _ (tl_plain _ T)))).
    rewrite (selectIlikeEither_plain (db w) name name 5 K
               (plain_patternFree _ Hplain) (plain_patternFree _ Hplain)).
    rewrite (selectIlikeEither_plain (db w) _ _ 5 K
               (plain_patternFree _ (nth_plain tokens 0 T))
               (plain_patternFree _ (last_plain _ T))).
    unfold Claim.tier1, Claim.tier2, Claim.tier3.
    destruct (2 <=? List.length tokens)%nat.
    - rewrite !head_of_limited.
      destruct (filter _ (Sql.attendees (db w))) as [|a r1]; [|reflexivity].
      cbn [firstn].
      destruct (filter _ (Sql.attendees (db w))) as [|b r2]; [|reflexivity].
      cbn [firstn].
      now destruct (filter _ (Sql.attendees (db w))).
    - cbn [app]. now destruct (filter _ (Sql.attendees (db w))). }
  split; [apply R|].
  intros Hne Hnone. destruct name as [|c name]; [congruence|].
  specialize (R []). rewrite Hnone in R.
  unfold search_by_username, catch, bind. now rewrite R.
Qed.

Lemma identity_resolution_runs_three_tiers_witness :
  findAttendee (world "[]") "grace  HOPPER" []
  = (Normal (Claim.resolve (db (world "[]")) "grace  HOPPER"),
     [] ++ map (Claim.queryOf "grace  HOPPER")
               (Claim.tiersRun (db (world "[]")) "grace  HOPPER")) /\
  ("grace  HOPPER" <> "" ->
   Claim.resolve (db (world "[]")) "grace  HOPPER" = None ->
   fst (search_by_username (world "[]") (Post (Some (Js.Str "grace  HOPPER"))) [])
   = Normal (Failure 404 ("No attendee found matching '" ++ "grace  HOPPER" ++ "'"))).
Proof.
  apply (identity_resolution_runs_three_tiers (world "[]") "grace  HOPPER" []).
  - reflexivity.
  - now apply lowerChar_keepsPatterns.
  - reflexivity.
Defined.

(** The tiers of three names: the exact match alone, the exact match and
    the partial one, and all three. *)
Example tiers_ex :
  Claim.tiersRun store "grace  HOPPER" = [Claim.ExactNames]
  /\ Claim.tiersRun directory "van Ross" = [Claim.ExactNames; Claim.WholeInput]
  /\ Claim.tiersRun store "Gra Quincy Hop"
     = [Claim.ExactNames; Claim.WholeInput; Claim.FirstAndLast]
  /\ snd (findAttendee (world "[]") "Gra Quincy Hop" [])
     = [SelectIlikeBoth "Gra" "Quincy Hop";
        SelectIlikeEither "%Gra Quincy Hop%" "%Gra Quincy Hop%";
        SelectIlikeEither "%Gra%" "%Hop%"].
Proof. split; [|split; [|split]]; reflexivity. Qed.

(** ** The case of the letters *)

Lemma folded_trimStart (db : Sql.Database) (s : string) :
  keepsSpaces db ->
  Sql.folded db (JsString.trimStart s) = JsString.trimStart (Sql.folded db s).
Proof.
  intros K. unfold Sql.folded.
  induction s as [|c s IH]; [reflexivity|]. cbn [JsString.trimStart Sql.foldedBy].
  rewrite (isSpace_folding db c K). now destruct (JsString.isSpace c).
Qed.

Lemma folded_trimEnd (db : Sql.Database) (s : string) :
  keepsSpaces db ->
  Sql.folded db (JsString.trimEnd s) = JsString.trimEnd (Sql.folded db s).
Proof.
  intros K. unfold Sql.folded.
  induction s as [|c s IH]; [reflexivity|]. cbn [JsString.trimEnd Sql.foldedBy].
  rewrite <- IH, (isSpace_folding db c K).
  destruct (JsString.trimEnd s) as [|d t]; cbn [Sql.foldedBy]; [|reflexivity].
  now destruct (JsString.isSpace c).
Qed.

Lemma folded_splitSpaces_from (db : Sql.Database) (s : string) :
  keepsSpaces db ->
  forall inSpace cur,
  map (Sql.folded db) (JsString.splitSpaces_from inSpace cur s)
  = JsString.splitSpaces_from inSpace (Sql.folded db cur) (Sql.folded db s).
Proof.
  intros K. induction s as [|c s IH]; intros inSpace cur; [reflexivity|].
  change (Sql.folded db (String c s)) with (String (Sql.folding db c) (Sql.folded db s)).
  cbn [JsString.splitSpaces_from]. rewrite (isSpace_folding db c K).
  destruct (JsString.isSpace c).
  - destruct inSpace; [apply IH|]. cbn [map]. now rewrite IH.
  - now rewrite IH, folded_app.
Qed.

Lemma folded_tokens (db : Sql.Database) (name : string) :
  keepsSpaces db ->
  map (Sql.folded db) (JsString.splitSpaces (JsString.trim name))
  = JsString.splitSpaces (JsString.trim (Sql.folded db name)).
Proof.
  intros K. unfold JsString.splitSpaces, JsString.trim.
  now rewrite (folded_splitSpaces_from db _ K), (folded_trimEnd db _ K),
    (folded_trimStart db _ K).
Qed.

Lemma folded_join (db : Sql.Database) (parts : list string) :
  keepsSpaces db ->
  Sql.folded db (JsString.join " " parts) = JsString.join " " (map (Sql.folded db) parts).
Proof.
  intros K. induction parts as [|p parts IH]; [reflexivity|].
  destruct parts as [|q parts]; [reflexivity|].
  change (JsString.join " " (p :: q :: parts))
    with (p ++ " " ++ JsString.join " " (q :: parts))%string.
  rewrite !folded_app, IH.
  assert (Sp : Sql.folded db " " = " ").
  { unfold Sql.folded. simpl. f_equal. now apply (K " "%char). }
  rewrite Sp. reflexivity.
Qed.

Lemma folded_nth (db : Sql.Database) (parts : list string) (n : nat) :
  Sql.folded db (nth n parts "") = nth n (map (Sql.folded db) parts) "".
Proof. revert n. induction parts as [|p parts IH]; intros [|n]; simpl; auto. Qed.

Lemma folded_last (db : Sql.Database) (parts : list string) :
  Sql.folded db (last parts "") = last (map (Sql.folded db) parts) "".
Proof.
  induction parts as [|p parts IH]; [reflexivity|].
  destruct parts as [|q parts]; [reflexivity|]. exact IH.
Qed.

Lemma tl_map {A B : Type} (f : A -> B) (l : list A) : tl (map f l) = map f (tl l).
Proof. now destruct l. Qed.

Lemma ilike_folded (db : Sql.Database) (column : option string) (p p' : string) :
  Sql.folded db p = Sql.folded db p' -> Sql.ilike db column p = Sql.ilike db column p'.
Proof. intros E. unfold Sql.ilike. now rewrite E. Qed.

Lemma selectIlikeBoth_folded (db : Sql.Database) (f l f' l' : string) (k : nat) :
  Sql.folded db f = Sql.folded db f' -> Sql.folded db l = Sql.folded db l' ->
  Sql.selectIlikeBoth db f l k = Sql.selectIlikeBoth db f' l' k.
Proof.
  intros Ef El. unfold Sql.selectIlikeBoth. f_equal. apply filter_ext. intros a.
  now rewrite (ilike_folded db _ f f' Ef), (ilike_folded db _ l l' El).
Qed.

Lemma selectIlikeEither_folded (db : Sql.Database) (f l f' l' : string) (k : nat) :
  Sql.folded db f = Sql.folded db f' -> Sql.folded db l = Sql.folded db l' ->
  Sql.selectIlikeEither db ("%" ++ f ++ "%") ("%" ++ l ++ "%") k
  = Sql.selectIlikeEither db ("%" ++ f' ++ "%") ("%" ++ l' ++ "%") k.
Proof.
  intros Ef El. unfold Sql.selectIlikeEither. f_equal. apply filter_ext. intros a.
  rewrite (ilike_folded db _ ("%" ++ f ++ "%") ("%" ++ f' ++ "%")),
          (ilike_folded db _ ("%" ++ l ++ "%") ("%" ++ l' ++ "%")); [reflexivity| |];
    rewrite !folded_app; congruence.
Qed.

(** The case of the letters of the name does not matter: two inputs that
    the database folds to the same text, and that hold none of the
    characters the filter syntax reserves, resolve to the same attendee, or
    fail alike, whichever queries the database fails to answer. *)
Theorem resolution_ignores_case :
  forall (w : World) (name name' : string) (log : list Event),
  keepsSpaces (db w) ->
  plain name = true ->
  plain name' = true ->
  Sql.folded (db w) name = Sql.folded (db w) name' ->
  fst (findAttendee w name log) = fst (findAttendee w name' log).
Proof.
  intros w name name' log K _ _ E. rewrite !findAttendee_strategies. cbv zeta.
  pose proof (folded_tokens (db w) name K) as T.
  pose proof (folded_tokens (db w) name' K) as T'.
  rewrite E in T. rewrite <- T' in T. clear T'.
  set (tokens := JsString.splitSpaces (JsString.trim name)) in *.
  set (tokens' := JsString.splitSpaces (JsString.trim name')) in *.
  assert (L : List.length tokens = List.length tokens')
    by (rewrite <- (length_map (Sql.folded (db w)) tokens), T; apply length_map).
  assert (N : Sql.folded (db w) (nth 0 tokens "") = Sql.folded (db w) (nth 0 tokens' ""))
    by (now rewrite !folded_nth, T).
  assert (J : Sql.folded (db w) (JsString.join " " (tl tokens))
              = Sql.folded (db w) (JsString.join " " (tl tokens')))
    by (now rewrite !(folded_join (db w) _ K), <- !tl_map, T).
  assert (La : Sql.folded (db w) (last tokens "") = Sql.folded (db w) (last tokens' ""))
    by (now rewrite !folded_last, T).
  rewrite L, (selectIlikeBoth_folded (db w) _ _ _ _ 1 N J),
    (selectIlikeEither_folded (db w) name name name' name' 5 E E),
    (selectIlikeEither_folded (db w) _ _ _ _ 5 N La).
  reflexivity.
Qed.

Lemma resolution_ignores_case_witness :
  fst (findAttendee (world "[]") "GRACE hopper" [])
  = fst (findAttendee (world "[]") "grace Hopper" []).
Proof.
  apply (resolution_ignores_case (world "[]") "GRACE hopper" "grace Hopper" []).
  - now apply lowerChar_keepsSpaces.
  - reflexivity.
  - reflexivity.
  - reflexivity.
Defined.

(** ** From the dropdown to the attendee *)

Lemma filter_head {A : Type} (P : A -> bool) (l : list A) (a : A) :
  In a l -> P a = true -> exists b rest, filter P l = b :: rest /\ In b l /\ P b = true.
Proof.
  intros Hin Pa.
  destruct (filter P l) as [|b rest] eqn:F.
  - assert (H : In a (filter P l)) by (apply filter_In; auto). rewrite F in H. destruct H.
  - assert (H : In b (filter P l)) by (rewrite F; now left).
    apply filter_In in H as [H1 H2]. now exists b, rest.
Qed.

Lemma equalsIgnoringCase_inv (db : Sql.Database) (x : string) (column : option string) :
  Claim.equalsIgnoringCase db x column = true ->
  exists t, column = Some t /\ Sql.folded db x = Sql.folded db t.
Proof.
  destruct column as [t|]; [|discriminate]. simpl. intros H.
  apply String.eqb_eq in H. now exists t.
Qed.

(** The name get-attendees lists for an attendee, sent to
    search-by-username, resolves to an attendee of the same first and last
    name up to case, as the database folds it, and to that very attendee
    when no other has the same name; provided the database answers, the
    names hold none of the characters that patterns and filters give a
    meaning to, and the listed name splits back into the two names. *)
Theorem dropdown_choice_resolves :
  forall (w : World) (a : Attendee.t) (f l : string) (log : list Event),
  (forall n, dbFault w n = None) ->
  keepsPatterns (db w) ->
  In a (Sql.attendees (db w)) ->
  Attendee.first_name a = Some f ->
  Attendee.last_name a = Some l ->
  plain f = true ->
  plain l = true ->
  splitsInto (DropdownOption.value (formatAttendee a)) f l ->
  exists b,
    fst (findAttendee w (DropdownOption.value (formatAttendee a)) log) = Normal (Some b) /\
    In b (Sql.attendees (db w)) /\
    sameNameIgnoringCase (db w) a b /\
    ((forall c, In c (Sql.attendees (db w)) -> sameNameIgnoringCase (db w) a c -> c = a) ->
     b = a).
Proof.
  intros w a f l log NF K Hin Hf Hl Pf Pl (Several & N0 & J).
  rewrite (findAttendee_answers w _ log NF). cbv zeta.
  apply Nat.leb_le in Several. rewrite Several, N0, J.
  rewrite (selectIlikeBoth_plain (db w) f l 1 K (plain_patternFree _ Pf)
             (plain_patternFree _ Pl)).
  destruct (filter_head
              (fun a => Claim.equalsIgnoringCase (db w) f (Attendee.first_name a)
                        && Claim.equalsIgnoringCase (db w) l (Attendee.last_name a))
              (Sql.attendees (db w)) a Hin) as (b & rest & F & Hb & Pb).
  { rewrite Hf, Hl. simpl. now rewrite !String.eqb_refl. }
  rewrite F. cbn [firstn]. exists b. split; [reflexivity|]. split; [exact Hb|].
  apply andb_true_iff in Pb as [P1 P2].
  apply equalsIgnoringCase_inv in P1 as (f' & Ef & Lf).
  apply equalsIgnoringCase_inv in P2 as (l' & El & Ll).
  assert (S : sameNameIgnoringCase (db w) a b).
  { unfold sameNameIgnoringCase. now rewrite Hf, Hl, Ef, El. }
  split; [exact S|]. intros U. now apply U.
Qed.

Lemma dropdown_choice_resolves_witness :
  exists b,
    fst (findAttendee (worldFailing directory (fun _ => false))
                      (DropdownOption.value (formatAttendee guido)) [])
    = Normal (Some b) /\
    In b (Sql.attendees (db (worldFailing directory (fun _ => false)))) /\
    sameNameIgnoringCase (db (worldFailing directory (fun _ => false))) guido b /\
    ((forall c, In c (Sql.attendees (db (worldFailing directory (fun _ => false)))) ->
                sameNameIgnoringCase (db (worldFailing directory (fun _ => false))) guido c ->
                c = guido) -> b = guido).
Proof.
  apply (dropdown_choice_resolves (worldFailing directory (fun _ => false)) guido
           "Guido" "van Rossum" []).
  - reflexivity.
  - now apply lowerChar_keepsPatterns.
  - simpl. auto.
  - reflexivity.
  - reflexivity.
  - reflexivity.
  - reflexivity.
  - repeat split. vm_compute. lia.
Defined.

(** ** Whose items the groups of an identity answer are *)

Lemma bind_inv {A B : Type} (m : M A) (k : A -> M B) (log : list Event) (b : B) :
  fst (bind m k log) = Normal b ->
  exists a log', m log = (Normal a, log') /\ fst (k a log') = Normal b.
Proof.
  unfold bind. destruct (m log) as [[a|e] log']; [|discriminate]. eauto.
Qed.

Lemma pushGroup_outcome (w : World) (queryType : QueryType.t) (text : string)
  (groups groups' : list Group.t) (response : Postgrest.Result (list Row.t))
  (log : list Event) :
  fst (pushGroup w queryType text groups response log) = Normal groups' ->
  groups' = groups \/ exists finalMatches, groups' = groups ++ [Group.mk text finalMatches].
Proof.
  unfold pushGroup.
  destruct (Postgrest.error response); [intros [= <-]; now left|].
  destruct (isEmpty (Postgrest.data response)); [intros [= <-]; now left|].
  intros H. apply bind_inv in H as (found & log1 & _ & H). cbv zeta in H.
  destruct (nonNull found) as [|m valid]; [injection H as <-; now left|].
  apply bind_inv in H as (out & log2 & _ & H). injection H as <-. right. now exists out.
Qed.

Lemma forEach_outcome (body : list Group.t -> string -> M (list Group.t)) :
  (forall acc x log acc', fst (body acc x log) = Normal acc' ->
     acc' = acc \/ exists finalMatches, acc' = acc ++ [Group.mk x finalMatches]) ->
  forall xs acc log out,
  fst (forEach xs body acc log) = Normal out ->
  exists ext, out = acc ++ ext /\ Subsequence (map Group.yours ext) xs.
Proof.
  intros Step xs. induction xs as [|x xs IH]; intros acc log out.
  - simpl. intros [= <-]. exists []. split; [now rewrite app_nil_r | constructor].
  - cbn [forEach]. intros H. apply bind_inv in H as (acc' & log' & B & H).
    apply IH in H as (ext & -> & S).
    assert (B' : fst (body acc x log) = Normal acc') by now rewrite B.
    destruct (Step _ _ _ _ B') as [-> | [fm ->]].
    + exists ext. split; [reflexivity | now constructor].
    + exists (Group.mk x fm :: ext). split; [now rewrite <- app_assoc|].
      simpl. now constructor.
Qed.

Lemma query_answer {A : Type} (w : World) (ev : Event) (answer r : Postgrest.Result A)
  (log log' : list Event) :
  query w ev answer log = (Normal r, log') ->
  Postgrest.error r = None -> Postgrest.error answer = None -> r = answer.
Proof.
  unfold query, call. intros [= <- _]. destruct (dbFault w (List.length log)); [discriminate|].
  reflexivity.
Qed.

(** In an identity answer the groups of [people_who_can_help_you] are
    about requests of the resolved attendee and of nobody else, at most
    one group per request, in the order of the requests; likewise
    [people_you_can_help] and the attendee's offerings.  The summary is
    the resolved attendee's. *)
Theorem groups_follow_the_attendees_items :
  forall (w : World) (name : string) (log : list Event) (body : Bidirectional.t),
  fst (search_by_username w (Post (Some (Js.Str name))) log) = Normal (Success body) ->
  exists attendee,
    fst (findAttendee w name log) = Normal (Some attendee) /\
    Summary.company (Bidirectional.attendee body) = Attendee.company attendee /\
    Summary.job_title (Bidirectional.attendee body) = Attendee.job_title attendee /\
    Summary.country (Bidirectional.attendee body) = Attendee.country attendee /\
    Subsequence (map Group.yours (Bidirectional.people_who_can_help_you body))
                (Sql.selectTexts (db w) Requests (Attendee.id attendee)) /\
    Subsequence (map Group.yours (Bidirectional.people_you_can_help body))
                (Sql.selectTexts (db w) Offerings (Attendee.id attendee)).
Proof.
  intros w name log body. destruct name as [|c s]; [discriminate|].
  unfold search_by_username, catch.
  destruct (bind _ _ log) as [[r|e] log'] eqn:B; [|discriminate].
  cbn [fst]. intros [= ->].
  assert (B' : fst (bind (findAttendee w (String c s))
                      (fun found =>
                         match found with
                         | None => ret (Failure 404 ("No attendee found matching '"
                                                     ++ String c s ++ "'"))
                         | Some attendee => bidirectional w attendee
                         end) log) = Normal (Success body)) by now rewrite B.
  clear B. apply bind_inv in B' as (found & log1 & F & H).
  destruct found as [attendee|]; [|discriminate].
  exists attendee. split; [now rewrite F|].
  unfold bidirectional in H. cbv zeta in H.
  apply bind_inv in H as (os & log2 & Qo & H).
  destruct (Postgrest.error os) eqn:Eo; [discriminate|].
  apply bind_inv in H as (rs & log3 & Qr & H).
  destruct (Postgrest.error rs) eqn:Er; [discriminate|].
  pose proof (query_answer _ _ _ _ _ _ Qo Eo eq_refl) as Ao.
  pose proof (query_answer _ _ _ _ _ _ Qr Er eq_refl) as Ar. subst os rs.
  apply bind_inv in H as (helpers & log4 & Hh & H).
  apply bind_inv in H as (helped & log5 & Hd & H).
  injection H as <-. cbn.
  assert (Hh' : fst (forEach (Sql.selectTexts (db w) Requests (Attendee.id attendee))
                       (requestStep w attendee) [] log3) = Normal helpers)
    by (cbn [orNil Postgrest.data Postgrest.ok] in Hh; now rewrite Hh).
  assert (Hd' : fst (forEach (Sql.selectTexts (db w) Offerings (Attendee.id attendee))
                       (offeringStep w attendee) [] log4) = Normal helped)
    by (cbn [orNil Postgrest.data Postgrest.ok] in Hd; now rewrite Hd).
  apply forEach_outcome in Hh' as (ext1 & -> & S1).
  2: { intros acc x l acc' Hs. unfold requestStep in Hs.
       apply bind_inv in Hs as (so & l1 & _ & Hs).
       apply bind_inv in Hs as (q & l2 & _ & Hs).
       apply bind_inv in Hs as (r & l3 & _ & Hs).
       now apply pushGroup_outcome in Hs. }
  apply forEach_outcome in Hd' as (ext2 & -> & S2).
  2: { intros acc x l acc' Hs. unfold offeringStep in Hs.
       apply bind_inv in Hs as (q & l2 & _ & Hs).
       apply bind_inv in Hs as (r & l3 & _ & Hs).
       now apply pushGroup_outcome in Hs. }
  repeat split; assumption.
Qed.

Lemma groups_follow_the_attendees_items_witness :
  exists attendee,
    fst (findAttendee (world "[0]") "Ada Byron" []) = Normal (Some attendee) /\
    Summary.company (Summary.mk "Ada Byron" (Some "Analytical Engines") None (Some "UK"))
    = Attendee.company attendee /\
    Summary.job_title (Summary.mk "Ada Byron" (Some "Analytical Engines") None (Some "UK"))
    = Attendee.job_title attendee /\
    Summary.country (Summary.mk "Ada Byron" (Some "Analytical Engines") None (Some "UK"))
    = Attendee.country attendee /\
    Subsequence
      (map Group.yours
         [Group.mk "Looking for a compilers mentor"
            [Gemini.finalResult
               (Match.mk (Some 2%Z) "Happy to mentor on compilers"
                         (1 - (1 # 10))%Q (Some grace)) grace]])
      (Sql.selectTexts (db (world "[0]")) Requests (Attendee.id attendee)) /\
    Subsequence
      (map Group.yours
         [Group.mk "I can teach analysis"
            [Gemini.finalResult
               (Match.mk (Some 3%Z) "Need help with analysis"
                         (1 - (1 # 10))%Q (Some jane)) jane]])
      (Sql.selectTexts (db (world "[0]")) Offerings (Attendee.id attendee)).
Proof.
  apply (groups_follow_the_attendees_items (world "[0]") "Ada Byron" []
           (Bidirectional.mk
              (Summary.mk "Ada Byron" (Some "Analytical Engines") None (Some "UK"))
              [Group.mk "Looking for a compilers mentor"
                 [Gemini.finalResult
                    (Match.mk (Some 2%Z) "Happy to mentor on compilers"
                              (1 - (1 # 10))%Q (Some grace)) grace]]
              [Group.mk "I can teach analysis"
                 [Gemini.finalResult
                    (Match.mk (Some 3%Z) "Need help with analysis"
                              (1 - (1 # 10))%Q (Some jane)) jane]])).
  reflexivity.
Defined.

(** ** The vector search, further *)

Lemma match_rows_ok (cosine_distance : list float -> list float -> Q) (rows : list Item.t)
  (q : list float) (th : Q) (k : Z) (ex : option Z) (out : list Row.t) :
  Sql.match_rows cosine_distance rows q th k ex = Postgrest.ok out ->
  out = map Sql.project
          (firstn (Z.to_nat k)
             (Sql.orderByDistance
                (flat_map (Sql.score cosine_distance q)
                   (filter (fun it => Sql.isTrue (Sql.whereClause cosine_distance q th ex it))
                           rows)))).
Proof.
  unfold Sql.match_rows. destruct (k <? 0)%Z; [discriminate|]. cbv zeta.
  now intros [= <-].
Qed.

Lemma in_firstn {A : Type} (n : nat) (l : list A) (x : A) : In x (firstn n l) -> In x l.
Proof.
  intros H. rewrite <- (firstn_skipn n l). apply in_or_app. now left.
Qed.

Lemma excluded_owner (cosine_distance : list float -> list float -> Q) (q : list float)
  (th : Q) (id : Z) (it : Item.t) :
  Sql.whereClause cosine_distance q th (Some id) it = Some true ->
  exists a, Item.attendee_id it = Some a /\ a <> id.
Proof.
  unfold Sql.whereClause. cbn [Sql.isNull].
  destruct (Sql.gt3 (Sql.similarityOf cosine_distance q it) th) as [[|]|];
    destruct (Item.attendee_id it) as [a|]; cbn [Sql.neq3 Sql.or3 Sql.and3];
    try discriminate;
    destruct (Z.eqb_spec a id) as [->|N]; cbn; try discriminate;
    intros _; now exists a.
Qed.

(** With an attendee to exclude, the searches return no item without an
    owner either: on a NULL [attendee_id] the comparison with the excluded
    id is NULL, not true, and WHERE drops the row.  Every row returned
    carries the id of an attendee other than the excluded one. *)
Theorem excluding_search_drops_ownerless_items :
  forall (cosine_distance : list float -> list float -> Q) (db : Sql.Database)
         (query_embedding : list float) (match_threshold : Q) (match_count : Z)
         (id : Z) (out : list Row.t),
  Sql.match_offerings cosine_distance db query_embedding match_threshold match_count
                      (Some id) = Postgrest.ok out \/
  Sql.match_requests cosine_distance db query_embedding match_threshold match_count
                     (Some id) = Postgrest.ok out ->
  Forall (fun r => exists a, Row.attendee_id r = Some a /\ a <> id) out.
Proof.
  intros cd db q th k id out M.
  assert (G : forall rows,
            Sql.match_rows cd rows q th k (Some id) = Postgrest.ok out ->
            Forall (fun r => exists a, Row.attendee_id r = Some a /\ a <> id) out).
  { intros rows R. apply match_rows_ok in R. subst out.
    apply Forall_forall. intros r Hr. apply in_map_iff in Hr as (x & <- & Hx).
    apply in_firstn in Hx. apply (proj1 (orderByDistance_In _ _)) in Hx.
    apply scored_kept in Hx as (_ & _ & W).
    now apply excluded_owner in W. }
  destruct M as [M|M]; exact (G _ M).
Qed.

Lemma excluding_search_drops_ownerless_items_witness :
  Forall (fun r => exists a, Row.attendee_id r = Some a /\ a <> 1%Z)
         [Row.mk (Some 2%Z) "Happy to mentor on compilers" (1 - (1 # 10))%Q].
Proof.
  apply (excluding_search_drops_ownerless_items toyDistance store [1%float] (1 # 2)%Q 50 1%Z).
  left. reflexivity.
Defined.

(** ** The search bar *)

Lemma Subsequence_nil_l {A : Type} (l : list A) : Subsequence [] l.
Proof. induction l; constructor; assumption. Qed.

Lemma Subsequence_refl {A : Type} (l : list A) : Subsequence l l.
Proof. induction l; constructor; assumption. Qed.

Lemma Subsequence_firstn_filter {A : Type} (P : A -> bool) (l : list A) :
  forall n, Subsequence (firstn n (filter P l)) l.
Proof.
  induction l as [|a l IH]; intros n.
  - rewrite firstn_nil. constructor.
  - cbn [filter]. destruct (P a).
    + destruct n as [|n]; [apply Subsequence_nil_l|]. cbn [firstn]. constructor. apply IH.
    + constructor. apply IH.
Qed.

Lemma Subsequence_firstn {A : Type} (l : list A) (n : nat) : Subsequence (firstn n l) l.
Proof.
  revert n. induction l as [|a l IH]; intros [|n]; cbn [firstn];
    try apply Subsequence_nil_l. constructor. apply IH.
Qed.

Lemma slice0_50 {A : Type} (xs : list A) : Js.slice0 xs 50 = firstn 50 xs.
Proof. now apply slice0_firstn. Qed.

Lemma filterAttendees_fits (toLowerCase : string -> string) (st : SearchBar.State) :
  dropdownFits (SearchBar.filterAttendees toLowerCase st).
Proof.
  unfold dropdownFits, SearchBar.filterAttendees. cbv zeta.
  cbn [SearchBar.filteredAttendees SearchBar.attendees].
  destruct (String.length (toLowerCase (SearchBar.searchQuery st)) =? 0)%nat;
    rewrite slice0_50; (split; [rewrite length_firstn; lia|]).
  - apply Subsequence_firstn.
  - apply Subsequence_firstn_filter.
Qed.

Lemma step_fits (toLowerCase : string -> string) (a : SearchBar.Action)
  (st : SearchBar.State) :
  dropdownFits st -> dropdownFits (SearchBar.step toLowerCase a st).
Proof.
  intros H. destruct a as [mode|text| | |attendee| | |[result|]]; try exact H.
  - unfold SearchBar.step, SearchBar.handleInputFocus.
    destruct (SearchBar.searchMode st); try exact H.
    exact (filterAttendees_fits toLowerCase st).
  - unfold SearchBar.step, SearchBar.handleInputChange, SearchBar.handleInputFocus.
    destruct (SearchBar.searchMode st); try exact H.
    exact (filterAttendees_fits toLowerCase st).
  - unfold dropdownFits.
    cbn [SearchBar.step SearchBar.mountEnds SearchBar.filteredAttendees SearchBar.attendees].
    rewrite slice0_50. split; [rewrite length_firstn; lia|].
    apply Subsequence_firstn.
Qed.

(** Whatever is typed, focused, selected or loaded, and in whatever order,
    the dropdown of the search bar never holds more than 50 options, and
    what it holds are options of the loaded list, in the order of that
    list. *)
Theorem dropdown_always_fits :
  forall (toLowerCase : string -> string) (actions : list SearchBar.Action),
  dropdownFits (SearchBar.run toLowerCase actions SearchBar.initial).
Proof.
  intros toLowerCase actions. unfold SearchBar.run.
  assert (G : forall st, dropdownFits st ->
                         dropdownFits (fold_left (fun st a => SearchBar.step toLowerCase a st)
                                                 actions st)).
  { induction actions as [|a actions IH]; intros st H; [exact H|].
    cbn [fold_left]. apply IH. now apply step_fits. }
  apply G. split; [simpl; lia | constructor].
Qed.

(** With a query whose lower-case form is not empty, [filterAttendees]
    shows attendees of the list whose name contains the query, both in
    lower case, and leaves such an attendee out only when the dropdown is
    full, with its 50 options. *)
Theorem dropdown_shows_the_matching_names :
  forall (toLowerCase : string -> string) (st : SearchBar.State) (o : DropdownOption.t),
  toLowerCase (SearchBar.searchQuery st) <> "" ->
  (In o (SearchBar.filteredAttendees (SearchBar.filterAttendees toLowerCase st)) ->
   In o (SearchBar.attendees st) /\
   SearchBar.includes (toLowerCase (DropdownOption.value o))
                      (toLowerCase (SearchBar.searchQuery st)) = true) /\
  (In o (SearchBar.attendees st) ->
   SearchBar.includes (toLowerCase (DropdownOption.value o))
                      (toLowerCase (SearchBar.searchQuery st)) = true ->
   In o (SearchBar.filteredAttendees (SearchBar.filterAttendees toLowerCase st)) \/
   List.length (SearchBar.filteredAttendees (SearchBar.filterAttendees toLowerCase st)) = 50).
Proof.
  intros toLowerCase st o Hq.
  unfold SearchBar.filterAttendees. cbv zeta. cbn [SearchBar.filteredAttendees].
  destruct (toLowerCase (SearchBar.searchQuery st)) as [|c q] eqn:Q; [congruence|].
  cbn [String.length Nat.eqb]. rewrite slice0_50.
  set (P := fun att => SearchBar.includes (toLowerCase (DropdownOption.value att)) (String c q)).
  split.
  - intros H. apply in_firstn in H. apply filter_In in H. exact H.
  - intros Hin Hinc.
    assert (F : In o (filter P (SearchBar.attendees st))) by (apply filter_In; now split).
    rewrite <- (firstn_skipn 50 (filter P (SearchBar.attendees st))) in F.
    apply in_app_or in F as [F|F]; [now left|]. right.
    rewrite length_firstn. apply Nat.min_l.
    destruct (Nat.le_gt_cases 50 (List.length (filter P (SearchBar.attendees st))))
      as [L|L]; [exact L|].
    rewrite skipn_all2 in F by lia. destruct F.
Qed.

Lemma dropdown_shows_the_matching_names_witness :
  (In (formatAttendee grace)
      (SearchBar.filteredAttendees
         (SearchBar.filterAttendees Sql.lower
            (SearchBar.mk "HOP" SearchBar.username (map formatAttendee [ada; grace; jane])
                          [] false false))) ->
   In (formatAttendee grace) (map formatAttendee [ada; grace; jane]) /\
   SearchBar.includes (Sql.lower (DropdownOption.value (formatAttendee grace)))
                      (Sql.lower "HOP") = true) /\
  (In (formatAttendee grace) (map formatAttendee [ada; grace; jane]) ->
   SearchBar.includes (Sql.lower (DropdownOption.value (formatAttendee grace)))
                      (Sql.lower "HOP") = true ->
   In (formatAttendee grace)
      (SearchBar.filteredAttendees
         (SearchBar.filterAttendees Sql.lower
            (SearchBar.mk "HOP" SearchBar.username (map formatAttendee [ada; grace; jane])
                          [] false false))) \/
   List.length
     (SearchBar.filteredAttendees
        (SearchBar.filterAttendees Sql.lower
           (SearchBar.mk "HOP" SearchBar.username (map formatAttendee [ada; grace; jane])
                         [] false false))) = 50).
Proof.
  apply (dropdown_shows_the_matching_names Sql.lower
           (SearchBar.mk "HOP" SearchBar.username (map formatAttendee [ada; grace; jane])
                         [] false false) (formatAttendee grace)).
  discriminate.
Defined.

Lemma length_zero (s : string) : (String.length s =? 0)%nat = true <-> s = "".
Proof. destruct s; simpl; split; congruence. Qed.

(** The search bar emits a query exactly when the typed text is not all
    white space; the query emitted is then that text trimmed, so it is not
    empty and neither begins nor ends with white space, and none of the
    three handlers answers the request made of it with a 400. *)
Theorem search_bar_emits_valid_queries :
  forall (w : World) (st : SearchBar.State) (log : list Event),
  match SearchBar.handleSearch st with
  | None => JsString.trim (SearchBar.searchQuery st) = ""
  | Some (query, mode) =>
      query = JsString.trim (SearchBar.searchQuery st) /\
      mode = SearchBar.searchMode st /\
      query <> "" /\
      JsString.trim query = query /\
      (forall r, fst (search_by_request w (requestFor query) log) = Normal r ->
                 status r <> 400) /\
      (forall r, fst (search_by_offering w (requestFor query) log) = Normal r ->
                 status r <> 400) /\
      (forall r, fst (search_by_username w (requestFor query) log) = Normal r ->
                 status r <> 400)
  end.
Proof.
  intros w st log. unfold SearchBar.handleSearch, SearchBar.isSearchDisabled.
  destruct (String.length (JsString.trim (SearchBar.searchQuery st)) =? 0)%nat eqn:Z;
    cbn [negb].
  - now apply length_zero.
  - assert (Hne : JsString.trim (SearchBar.searchQuery st) <> "").
    { intros E. apply length_zero in E. congruence. }
    split; [reflexivity|]. split; [reflexivity|]. split; [exact Hne|].
    split; [apply trim_idempotent|].
    destruct (JsString.trim (SearchBar.searchQuery st)) as [|c q] eqn:T; [congruence|].
    unfold requestFor. split; [|split]; intros r Hr S.
    + destruct (search_by_request_statuses w (Post (Some (Js.Str (String c q)))) log)
        as (r' & Hr' & _ & H400). rewrite Hr in Hr'. injection Hr' as <-.
      apply H400 in S as (f & [= <-] & R). discriminate.
    + destruct (search_by_offering_statuses w (Post (Some (Js.Str (String c q)))) log)
        as (r' & Hr' & _ & H400). rewrite Hr in Hr'. injection Hr' as <-.
      apply H400 in S as (f & [= <-] & R). discriminate.
    + destruct (search_by_username_statuses w (Post (Some (Js.Str (String c q)))) log)
        as (r' & Hr' & _ & H400). rewrite Hr in Hr'. injection Hr' as <-.
      apply H400 in S as (f & [= <-] & R). discriminate.
Qed.

(** ** A vector search that fails *)

Lemma run_rpc_fault (w : World) (c : Collection) (q : list float) (th : Q) (k : Z)
  (ex : option Z) (log : list Event) (e : string) :
  dbFault w (List.length log) = Some e ->
  rpc w c q th k ex log = (Normal (Postgrest.failed e), log ++ [RpcMatch c q th k ex]).
Proof. intros F. unfold rpc, query, call. now rewrite F. Qed.

(** The two modes treat a failed vector search differently.  A free-text
    request is answered 500 with the error's message (search-by-offering,
    lines 48-51); in identity mode the item is skipped and the loop goes
    on with the groups it has (search-by-username, lines 250-253). *)
Theorem failed_search_fails_or_skips :
  forall (w : World) (text : string) (queryEmbedding : list float) (e : string)
         (attendee : Attendee.t) (groups : list Group.t) (log : list Event),
  text <> "" ->
  Gemini.embeddingOfResponse (embedContent w (List.length log) text) = Normal queryEmbedding ->
  dbFault w (S (List.length log)) = Some e ->
  search_by_offering w (Post (Some (Js.Str text))) log
  = (Normal (Failure 500 e),
     log ++ [EmbedContent text; RpcMatch Requests queryEmbedding threshold 50 None]) /\
  offeringStep w attendee groups text log
  = (Normal groups,
     log ++ [EmbedContent text;
             RpcMatch Requests queryEmbedding threshold 50 (Some (Attendee.id attendee))]).
Proof.
  intros w text q e attendee groups log Hne He Hf.
  assert (L : List.length (log ++ [EmbedContent text]) = S (List.length log))
    by (rewrite length_app; simpl; lia).
  split.
  - destruct text as [|c s]; [congruence|].
    unfold search_by_offering, catch, bind.
    rewrite (run_generateEmbedding w (String c s) q log); [|discriminate|exact He].
    rewrite (run_rpc_fault w Requests q threshold 50 None _ e) by now rewrite L.
    cbn. now rewrite <- app_assoc.
  - unfold offeringStep, bind.
    rewrite (run_generateEmbedding w text q log); [|exact Hne|exact He].
    rewrite (run_rpc_fault w Requests q threshold 50 _ _ e) by now rewrite L.
    cbn. now rewrite <- app_assoc.
Qed.

Lemma failed_search_fails_or_skips_witness :
  search_by_offering (worldFailing store (Nat.eqb 1)) (Post (Some (Js.Str "I can teach analysis")))
                     []
  = (Normal (Failure 500 "connection lost"),
     [] ++ [EmbedContent "I can teach analysis";
            RpcMatch Requests [1%float] threshold 50 None]) /\
  offeringStep (worldFailing store (Nat.eqb 1)) ada [] "I can teach analysis" []
  = (Normal [],
     [] ++ [EmbedContent "I can teach analysis";
            RpcMatch Requests [1%float] threshold 50 (Some (Attendee.id ada))]).
Proof.
  apply (failed_search_fails_or_skips (worldFailing store (Nat.eqb 1)) "I can teach analysis"
           [1%float] "connection lost" ada [] []).
  - discriminate.
  - reflexivity.
  - reflexivity.
Defined.

(** ** The header of a profile card *)

(** The header of a card is the job title, the company and the country
    that are not empty, then the score, with one separator between any two
    neighbours: never a separator in front, behind, or doubled, whichever
    of the three fields are missing. *)
Theorem card_header_is_separated :
  forall (show : Z -> string) (profile : FinalMatch.t),
  ProfileCard.header show profile
  = JsString.join ProfileCard.separator
      (filter ProfileCard.truthy
              [FinalMatch.job_title profile; FinalMatch.company profile;
               FinalMatch.country profile]
       ++ [ProfileCard.score show profile]).
Proof.
  intros show profile. unfold ProfileCard.header. cbv zeta.
  destruct (FinalMatch.job_title profile) as [|c1 s1],
           (FinalMatch.company profile) as [|c2 s2],
           (FinalMatch.country profile) as [|c3 s3];
    cbn [ProfileCard.truthy String.eqb negb andb orb ProfileCard.span filter app
         JsString.join append];
    rewrite ?append_empty_r; reflexivity.
Qed.
